(** * openclaw-mcp-adapter: the connection pool and its schema advisory

    A shallow embedding of [src/mcp-client.ts] (class [McpClientPool]) and of
    the two [execute] entry points of [src/index.ts], followed by the
    properties the specification states about them.  The rest of the plugin
    ([src/index.ts]: registration from the cache, the service) and the
    configuration module ([parseConfig] and what it calls) are embedded after
    them, with properties read off the code.

    Conventions of the embedding.
    - An [async] method is a computation in the monad [M]: a function from the
      state of the pool and of the outside world to an outcome (a returned
      value or a thrown one) and the next state.
    - Every [await] on the SDK client or on a transport ([client.connect],
      [client.callTool], [client.listTools], [transport.close]) asks the
      environment [env] for a [Response].  The response says what the awaited
      operation yields, and what other parties do to the pool while the
      operation is pending: the [onclose]/[onerror] handlers of a stdio
      transport write their line to the console and call [markDisconnected],
      and an overlapping [close] reaches its [clients.delete].  An
      overlapping [connect] is not part of the
      environment: sessions are installed by the operation under study only.
      Nothing happens between two awaits of one operation.
    - [ClientEntry] objects live in a heap ([objects]) and the map [clients]
      holds references to them, because [callTool] and [listTools] keep using
      the entry they fetched before the [await].
    - A JavaScript [Map] is an association list in insertion order.
    - Tool arguments are JSON-like values.  In the pool, [in] and indexing
      see the fields a value carries itself and the members it inherits from
      [Object.prototype] and [Array.prototype].
    - A schema on file is what the server sent: [listTools] casts it to
      [interface ToolSchema] and checks nothing.  Schemas range over the
      shapes of the interface and over the two shapes outside it on which the
      check of the arguments throws.  Field names and declared types are
      strings, as the interface has them.
    - An error object printed after a text by [console.warn] or
      [console.error] is rendered as [String(err)].
    - The raw configuration is a JSON-like value too.  [new URL], the
      printing of a number and [process.env] are parameters of the
      configuration module. *)

From Stdlib Require Import String Ascii List Bool Arith Lia ZArith DecimalString.
Import ListNotations.
Open Scope string_scope.
Set Warnings "-register-all".

(* ===================================================================== *)
(** ** Strings *)

(** [s.startsWith(p)] *)
Fixpoint startsWith (p s : string) : bool :=
  match p, s with
  | EmptyString, _ => true
  | String a p', String b s' => Ascii.eqb a b && startsWith p' s'
  | String _ _, EmptyString => false
  end.

(** [msg.includes(needle)] *)
Fixpoint includes (needle msg : string) : bool :=
  startsWith needle msg ||
  match msg with
  | EmptyString => false
  | String _ rest => includes needle rest
  end.

(** The double quote character, as a one-character string. *)
Definition dq : string := String (ascii_of_nat 34) EmptyString.

(** The line feed, used by [join("\n")]. *)
Definition nl : string := String (ascii_of_nat 10) EmptyString.

(** [parts.join(sep)] *)
Fixpoint join (sep : string) (parts : list string) : string :=
  match parts with
  | [] => EmptyString
  | [p] => p
  | p :: rest => p ++ sep ++ join sep rest
  end.

(** Decimal rendering of an array index, as a property key. *)
Definition index_key (i : nat) : string :=
  NilEmpty.string_of_uint (Nat.to_uint i).

(* ===================================================================== *)
(** ** JavaScript [Map] *)

Module JsMap.
Section Ops.
Context {V : Type}.

Definition t := list (string * V).

Definition empty : t := [].

Fixpoint get (k : string) (m : t) : option V :=
  match m with
  | [] => None
  | (k', v) :: rest => if String.eqb k k' then Some v else get k rest
  end.

(** [set] overwrites in place when the key is present and appends
    otherwise, which is the insertion order a [Map] iterates in. *)
Fixpoint set (k : string) (v : V) (m : t) : t :=
  match m with
  | [] => [(k, v)]
  | (k', v') :: rest =>
      if String.eqb k k' then (k', v) :: rest else (k', v') :: set k v rest
  end.

Fixpoint delete (k : string) (m : t) : t :=
  match m with
  | [] => []
  | (k', v') :: rest =>
      if String.eqb k k' then delete k rest else (k', v') :: delete k rest
  end.

Definition keys (m : t) : list string := List.map fst m.

Definition has (k : string) (m : t) : bool :=
  match get k m with Some _ => true | None => false end.
End Ops.
Arguments t : clear implicits.
End JsMap.

(* ===================================================================== *)
(** ** Values passed as tool arguments *)

Inductive js_value : Type :=
| JUndefined
| JNull
| JBool (b : bool)
| JNumber (n : Z)
| JString (s : string)
| JArray (items : list js_value)
| JObject (fields : list (string * js_value)).

(** [typeof v] *)
Definition typeof (v : js_value) : string :=
  match v with
  | JUndefined => "undefined"
  | JNull => "object"
  | JBool _ => "boolean"
  | JNumber _ => "number"
  | JString _ => "string"
  | JArray _ => "object"
  | JObject _ => "object"
  end.

Definition is_null (v : js_value) : bool :=
  match v with JNull => true | _ => false end.

Definition is_undefined (v : js_value) : bool :=
  match v with JUndefined => true | _ => false end.

Fixpoint array_property (items : list js_value) (i : nat) (k : string)
  : option js_value :=
  match items with
  | [] => None
  | x :: rest =>
      if String.eqb k (index_key i) then Some x
      else array_property rest (S i) k
  end.

(** The properties a value carries itself: the fields of an object, the
    indices and the length of an array. *)
Definition property (obj : js_value) (k : string) : option js_value :=
  match obj with
  | JObject fields => JsMap.get k fields
  | JArray items =>
      if String.eqb k "length" then Some (JNumber (Z.of_nat (List.length items)))
      else array_property items 0 k
  | _ => None
  end.

(** The names every object answers to without carrying them: the members of
    [Object.prototype]. *)
Definition objectPrototypeNames : list string :=
  ["constructor"; "__defineGetter__"; "__defineSetter__"; "hasOwnProperty";
   "__lookupGetter__"; "__lookupSetter__"; "isPrototypeOf";
   "propertyIsEnumerable"; "toString"; "valueOf"; "__proto__";
   "toLocaleString"].

(** The further names an array answers to: the members of [Array.prototype]
    (ECMAScript 2023) that [Object.prototype] does not have. *)
Definition arrayPrototypeNames : list string :=
  ["at"; "concat"; "copyWithin"; "entries"; "every"; "fill"; "filter"; "find";
   "findIndex"; "findLast"; "findLastIndex"; "flat"; "flatMap"; "forEach";
   "includes"; "indexOf"; "join"; "keys"; "lastIndexOf"; "map"; "pop"; "push";
   "reduce"; "reduceRight"; "reverse"; "shift"; "slice"; "some"; "sort";
   "splice"; "toReversed"; "toSorted"; "toSpliced"; "unshift"; "values";
   "with"].

(** Whether the prototype chain of [obj] has a member called [k]. *)
Definition inherits (obj : js_value) (k : string) : bool :=
  match obj with
  | JObject _ => existsb (String.eqb k) objectPrototypeNames
  | JArray _ =>
      existsb (String.eqb k) (objectPrototypeNames ++ arrayPrototypeNames)
  | _ => false
  end.

(** What [obj[k]] finds on an object or an array: a property the value
    carries itself; failing that a member of the prototype chain, of which
    [typeof] is all the pool ever asks (the accessor [__proto__] yields the
    prototype, an object; every other member is a method); or nothing. *)
Inductive Found :=
| Own (v : js_value)
| Inherited (kind : string)
| Missing.

Definition find (obj : js_value) (k : string) : Found :=
  match property obj k with
  | Some v => Own v
  | None =>
      if inherits obj k
      then Inherited (if String.eqb k "__proto__" then "object" else "function")
      else Missing
  end.

(** [field in obj] *)
Definition has_field (field : string) (obj : js_value) : bool :=
  match find obj field with Missing => false | _ => true end.

(** [typeof obj[field]] *)
Definition typeofFound (f : Found) : string :=
  match f with
  | Own v => typeof v
  | Inherited kind => kind
  | Missing => "undefined"
  end.

(** [obj[field] === null || obj[field] === undefined] *)
Definition nullish (f : Found) : bool :=
  match f with
  | Own JNull | Own JUndefined | Missing => true
  | _ => false
  end.

(** [obj[field]] for a field name that no prototype has: the property the
    value carries itself, or [undefined].  The configuration module reads
    such names only ([name], [transport], [command], [url], ...). *)
Definition member (obj : js_value) (field : string) : js_value :=
  match property obj field with Some v => v | None => JUndefined end.

(* ===================================================================== *)
(** ** Failures *)

(** Who raised a failure: the transport, which lost or could not reach the
    server (closed channel; refused, reset, aborted, unreachable, no-route or
    timed-out connection), or the application (the server or the tool
    reporting an error of its own).  The pool never sees this: it is the
    ground truth the classification of [isConnectionError] is compared with. *)
Inductive origin := TransportLevel | ApplicationLevel.

(** A thrown value. *)
Inductive thrown :=
| Error (message : string)
    (** [new Error(message)], thrown by the pool itself *)
| Failure (raisedBy : origin) (description : string)
    (** thrown by the SDK client or a transport; [description] is what
        [String(err)] yields *)
| TypeErrorOf (message : string).
    (** a [TypeError] the language raises while the code of the pool runs;
        the message is the engine's *)

(** [String(err)] *)
Definition String_ (err : thrown) : string :=
  match err with
  | Error message => "Error: " ++ message
  | Failure _ description => description
  | TypeErrorOf message => "TypeError: " ++ message
  end.

(** [new Error(`Unknown server: ${serverName}`)] *)
Definition UnknownServerError (serverName : string) : thrown :=
  Error ("Unknown server: " ++ serverName).

(** [new Error(`Failed to reconnect to ${serverName}`)] *)
Definition ReconnectFailedError (serverName : string) : thrown :=
  Error ("Failed to reconnect to " ++ serverName).

(** [isConnectionError] *)
Definition isConnectionError (err : thrown) : bool :=
  let msg := String_ err in
  includes "closed" msg || includes "ECONNREFUSED" msg || includes "EPIPE" msg
  || includes "ETIMEDOUT" msg || includes "ECONNRESET" msg
  || includes "ENOTFOUND" msg || includes "EHOSTUNREACH" msg.

(** The markers [isConnectionError] looks for. *)
Definition connectionMarkers : list string :=
  ["closed"; "ECONNREFUSED"; "EPIPE"; "ETIMEDOUT"; "ECONNRESET"; "ENOTFOUND";
   "EHOSTUNREACH"].

(* ===================================================================== *)
(** ** Tool schemas and the advisory check *)

(** What stands where [interface ToolSchema] declares a property descriptor
    [{ type?: string }].  The cast of [listTools] checks nothing, and the
    wire format has [null]: besides a descriptor, with or without a type, a
    schema on file can hold [null] there, on which reading [.type] throws.
    Any other value without a [type] of its own does what a descriptor
    without a type does.  [prop_type] is the [type] of the descriptor, a
    string as the interface declares it. *)
Inductive PropertySchema :=
| Declares (prop_type : option string)
| NullDescriptor.

(** What stands where the interface declares [required?: string[]], when it
    is truthy: names that [for ... of] goes through, or a value it cannot
    iterate (a number, [true], an object). *)
Inductive RequiredNames :=
| Names (fields : list string)
| NotIterable.

(** [interface ToolSchema], as the cast lets it in. *)
Record ToolSchema := {
  schema_type : option string;
  properties : option (list (string * PropertySchema));
  required : option RequiredNames
}.

(** Truthiness of an optional string: [undefined] and the empty string are
    falsy. *)
Definition truthy (s : option string) : bool :=
  match s with
  | Some (String _ _) => true
  | _ => false
  end.

Definition missingLine (prefix field : string) : string :=
  prefix ++ ": missing required field " ++ dq ++ field ++ dq.

Definition mismatchLine (prefix field declared actual : string) : string :=
  prefix ++ ": field " ++ dq ++ field ++ dq ++ " expected " ++ declared
         ++ ", got " ++ actual.

(** What one run of the check does: the lines handed to [console.warn], in
    order, and what it throws, if it throws. *)
Record Advice := {
  warned : list string;
  raised : option thrown
}.

Definition quiet : Advice := {| warned := []; raised := None |}.

Definition throwing (err : thrown) : Advice :=
  {| warned := []; raised := Some err |}.

(** The lines [before], then what [after] does. *)
Definition preceded (before : list string) (after : Advice) : Advice :=
  {| warned := (before ++ warned after)%list; raised := raised after |}.

(** [for (const field of schema.required)] over an array or a string *)
Fixpoint warnRequired (prefix : string) (obj : js_value) (fields : list string)
  : list string :=
  match fields with
  | [] => []
  | field :: rest =>
      if negb (has_field field obj)
      then missingLine prefix field :: warnRequired prefix obj rest
      else warnRequired prefix obj rest
  end.

(** [for (const [field, prop] of Object.entries(schema.properties)) ...].
    The conjunction is evaluated from the left: [prop.type] is read only for
    a field that is in [obj]. *)
Fixpoint warnProperties (prefix : string) (obj : js_value)
  (entries : list (string * PropertySchema)) : Advice :=
  match entries with
  | [] => quiet
  | (field, prop) :: rest =>
      if has_field field obj then
        match prop with
        | NullDescriptor =>
            throwing (TypeErrorOf "Cannot read properties of null (reading 'type')")
        | Declares prop_type =>
            if truthy prop_type && negb (nullish (find obj field)) then
              let declared :=
                match prop_type with Some s => s | None => EmptyString end in
              let actual := typeofFound (find obj field) in
              let expected :=
                if String.eqb declared "integer" then "number" else declared in
              if negb (String.eqb actual expected)
              then preceded [mismatchLine prefix field declared actual]
                     (warnProperties prefix obj rest)
              else warnProperties prefix obj rest
            else warnProperties prefix obj rest
        end
      else warnProperties prefix obj rest
  end.

(** [warnOnSchemaViolations] *)
Definition warnOnSchemaViolations (serverName toolName : string)
  (args : js_value) (schemas : JsMap.t ToolSchema) : Advice :=
  match JsMap.get toolName schemas with
  | None => quiet
  | Some schema =>
      if negb (String.eqb (typeof args) "object") || is_null args then quiet
      else
        let prefix := "[mcp-adapter] " ++ serverName ++ "/" ++ toolName in
        let declaredFields :=
          match properties schema with
          | Some entries => warnProperties prefix args entries
          | None => quiet
          end in
        match required schema with
        | Some NotIterable =>
            throwing (TypeErrorOf "schema.required is not iterable")
        | Some (Names fields) =>
            preceded (warnRequired prefix args fields) declaredFields
        | None => declaredFields
        end
  end.

(* ===================================================================== *)
(** ** Server descriptors, sessions, protocol data *)

Module ServerConfig.
Inductive kind := stdio | http.

(** [interface ServerConfig] of the configuration module. *)
Record t := {
  name : string;
  transport : kind;
  command : option string;
  args : option (list string);
  cwd : option string;
  env : option (list (string * string));
  url : option string;
  headers : option (list (string * string));
  allowPrivateUrls : option bool;
  timeout : option Z
}.
End ServerConfig.

(** What [createTransport] builds. *)
Inductive Transport :=
| StreamableHTTPClientTransport (url : string)
    (headers : option (list (string * string)))
| StdioClientTransport (command : option string) (args : option (list string))
    (cwd : option string) (env : option (list (string * string))).

(** [interface ClientEntry].  The client and its transport are created
    together and are named by the same number. *)
Record ClientEntry := {
  config : ServerConfig.t;
  client : nat;
  transport : nat;
  connected : bool;
  toolSchemas : JsMap.t ToolSchema
}.

(** A tool descriptor of a discovery result. *)
Record Tool := {
  tool_name : string;
  tool_description : option string;
  inputSchema : option ToolSchema
}.

(** One fragment of the content of a call result. *)
Record ContentItem := { text : option string; data : option string }.

(** The result of [client.callTool]. *)
Record CallToolResult := {
  content : option (list ContentItem);
  isError : option bool
}.

(* ===================================================================== *)
(** ** The outside world *)

(** What other parties do to the pool while an operation is pending. *)
Inductive Interference :=
| TransportError (serverName : string) (err : thrown)
    (** [transport.onerror] of the session made for [serverName] runs *)
| TransportClosed (serverName : string)
    (** [transport.onclose] of the session made for [serverName] runs *)
| SessionClosed (serverName : string).
    (** an overlapping [close(serverName)] runs [clients.delete(serverName)] *)

(** What the environment answers to one [await].  Each operation reads the
    field that concerns it. *)
Record Response := {
  during : list Interference;
  handshake : option thrown;          (** [client.connect]: [None] is success *)
  calling : thrown + CallToolResult;  (** [client.callTool] *)
  listing : thrown + list Tool;       (** [client.listTools] *)
  closing : option thrown             (** [transport.close]: [None] is success *)
}.

(** The operations the pool issues on the SDK. *)
Inductive Event :=
| Handshake (t : nat) (how : Transport)
| CallTool (t : nat) (toolName : string) (args : js_value)
| ListTools (t : nat)
| Close (t : nat).

(** [console.log], [console.warn], [console.error] *)
Inductive level := Log | Warn | Err.

Record State := {
  clients : JsMap.t nat;            (** [this.clients], name to entry object *)
  objects : nat -> ClientEntry;     (** the entry objects *)
  fresh : nat;                      (** the next unused client/transport number *)
  clock : nat;                      (** how many operations were awaited so far *)
  history : list Event;             (** the operations issued, oldest first *)
  console : list (level * string)   (** lines written, oldest first *)
}.

(** The state [s] with the bookkeeping of the world replaced and the pool
    (map and entry objects) kept. *)
Definition reframe (f c : nat) (h : list Event) (k : list (level * string))
  (s : State) : State :=
  {| clients := clients s; objects := objects s; fresh := f; clock := c;
     history := h; console := k |}.

Definition with_clients (f : JsMap.t nat -> JsMap.t nat) (s : State) : State :=
  {| clients := f (clients s); objects := objects s; fresh := fresh s;
     clock := clock s; history := history s; console := console s |}.

Definition with_object (r : nat) (f : ClientEntry -> ClientEntry) (s : State)
  : State :=
  {| clients := clients s;
     objects := fun r' => if Nat.eqb r' r then f (objects s r') else objects s r';
     fresh := fresh s; clock := clock s; history := history s;
     console := console s |}.

Definition disconnected (e : ClientEntry) : ClientEntry :=
  {| config := config e; client := client e; transport := transport e;
     connected := false; toolSchemas := toolSchemas e |}.

(** [markDisconnected] *)
Definition markDisconnected (serverName : string) (s : State) : State :=
  match JsMap.get serverName (clients s) with
  | Some entry => with_object entry disconnected s
  | None => s
  end.

(** The line a handler of [connect] writes before it marks the session:
    [console.error(`[mcp-adapter] ${config.name} error:`, err)] and
    [console.log(`[mcp-adapter] ${config.name} disconnected`)]. *)
Definition said (i : Interference) : list (level * string) :=
  match i with
  | TransportError serverName err =>
      [(Err, "[mcp-adapter] " ++ serverName ++ " error: " ++ String_ err)]
  | TransportClosed serverName =>
      [(Log, "[mcp-adapter] " ++ serverName ++ " disconnected")]
  | SessionClosed _ => []
  end.

(** The lines of a run of interferences, in order. *)
Definition voices (l : list Interference) : list (level * string) :=
  flat_map said l.

Definition interfere (s : State) (i : Interference) : State :=
  match i with
  | TransportError serverName _ | TransportClosed serverName =>
      markDisconnected serverName
        (reframe (fresh s) (clock s) (history s) (console s ++ said i) s)
  | SessionClosed serverName => with_clients (JsMap.delete serverName) s
  end.

Definition disturb (l : list Interference) (s : State) : State :=
  fold_left interfere l s.

(* ===================================================================== *)
(** ** The monad of pool operations *)

Inductive Outcome (A : Type) :=
| Return (a : A)
| Throw (err : thrown).
Arguments Return {A} a.
Arguments Throw {A} err.

Definition M (A : Type) : Type := State -> Outcome A * State.

Definition ret {A} (a : A) : M A := fun s => (Return a, s).

Definition throw {A} (err : thrown) : M A := fun s => (Throw err, s).

Definition bind {A B} (m : M A) (k : A -> M B) : M B :=
  fun s =>
    match m s with
    | (Return a, s') => k a s'
    | (Throw err, s') => (Throw err, s')
    end.

(** [try { m } catch (err) { handler err }] *)
Definition try_catch {A} (m : M A) (handler : thrown -> M A) : M A :=
  fun s =>
    match m s with
    | (Return a, s') => (Return a, s')
    | (Throw err, s') => handler err s'
    end.

Definition gets {A} (f : State -> A) : M A := fun s => (Return (f s), s).

Definition modify (f : State -> State) : M unit := fun s => (Return tt, f s).

Declare Scope pool_scope.
Delimit Scope pool_scope with pool.
Notation "x <- m ;; k" := (bind m (fun x => k))
  (at level 61, m at next level, right associativity) : pool_scope.
Notation "m ;;; k" := (bind m (fun _ => k))
  (at level 61, right associativity) : pool_scope.
Open Scope pool_scope.

Definition console_write (l : level) (line : string) : M unit :=
  modify (fun s =>
    reframe (fresh s) (clock s) (history s) (console s ++ [(l, line)]) s).

Fixpoint console_write_all (l : level) (lines : list string) : M unit :=
  match lines with
  | [] => ret tt
  | line :: rest => console_write l line ;;; console_write_all l rest
  end.

(* ===================================================================== *)
(** ** [McpClientPool] *)

(** [{ connected: boolean }] *)
Record Status := { status_connected : bool }.

(** [createTransport].  [new URL(config.url!)] throws on a missing URL; the
    configuration module has already parsed every URL it lets through. *)
Definition createTransport (config : ServerConfig.t) : Outcome Transport :=
  match ServerConfig.transport config with
  | ServerConfig.http =>
      match ServerConfig.url config with
      | Some u => Return (StreamableHTTPClientTransport u (ServerConfig.headers config))
      | None => Throw (Failure TransportLevel "TypeError: Invalid URL")
      end
  | ServerConfig.stdio =>
      Return (StdioClientTransport (ServerConfig.command config)
                (ServerConfig.args config) (ServerConfig.cwd config)
                (ServerConfig.env config))
  end.

Definition lift {A} (o : Outcome A) : M A := fun s => (o, s).

(** [this.clients.get(serverName)] *)
Definition lookup (serverName : string) : M (option nat) :=
  gets (fun s => JsMap.get serverName (clients s)).

(** [new Client(...)]: take the next number. *)
Definition new_client : M nat :=
  fun s =>
    (Return (fresh s),
     reframe (S (fresh s)) (clock s) (history s) (console s) s).

(** [this.clients.set(config.name, { config, client, transport,
    connected: true, toolSchemas: new Map() })] *)
Definition install (config : ServerConfig.t) (t : nat) (s : State) : State :=
  with_clients (JsMap.set (ServerConfig.name config) t)
    (with_object t
       (fun _ => {| config := config; client := t; transport := t;
                    connected := true; toolSchemas := JsMap.empty |}) s).

(** The loop of [listTools] over [result.tools], on the schema map of the
    entry: [entry.toolSchemas.set(tool.name, tool.inputSchema)] for every tool
    that carries a schema. *)
Fixpoint learn (tools : list Tool) (schemas : JsMap.t ToolSchema)
  : JsMap.t ToolSchema :=
  match tools with
  | [] => schemas
  | tool :: rest =>
      match inputSchema tool with
      | Some schema => learn rest (JsMap.set (tool_name tool) schema schemas)
      | None => learn rest schemas
      end
  end.

Definition remember (tools : list Tool) (e : ClientEntry) : ClientEntry :=
  {| config := config e; client := client e; transport := transport e;
     connected := connected e; toolSchemas := learn tools (toolSchemas e) |}.

(** [getStatus] *)
Definition getStatus (serverName : string) (s : State) : Status :=
  match JsMap.get serverName (clients s) with
  | Some entry => {| status_connected := connected (objects s entry) |}
  | None => {| status_connected := false |}
  end.

(** [{ type: "text", text }] *)
Record TextBlock := { block_type : string; block_text : string }.

(** What [execute] returns. *)
Record ExecuteResult := {
  result_content : list TextBlock;
  result_isError : option bool
}.

Section Pool.
(** The environment: the answer to the [n]-th awaited operation. *)
Variable env : nat -> Response.

(** Issue an operation and wait for it. *)
Definition await (ev : Event) : M Response :=
  fun s =>
    let r := env (clock s) in
    (Return r,
     disturb (during r)
       (reframe (fresh s) (S (clock s)) (history s ++ [ev]) (console s) s)).

(** [connect] *)
Definition connect (config : ServerConfig.t) : M nat :=
  t <- new_client ;;
  how <- lift (createTransport config) ;;
  r <- await (Handshake t how) ;;
  match handshake r with
  | Some err => throw err
  | None => modify (install config t) ;;; ret t
  end.

(** [listTools] *)
Definition listTools (serverName : string) : M (list Tool) :=
  found <- lookup serverName ;;
  match found with
  | None => throw (UnknownServerError serverName)
  | Some entry =>
      c <- gets (fun s => client (objects s entry)) ;;
      r <- await (ListTools c) ;;
      match listing r with
      | inl err => throw err
      | inr tools => modify (with_object entry (remember tools)) ;;; ret tools
      end
  end.

(** [entry.client.callTool({ name, arguments }, undefined, ...)] *)
Definition client_callTool (entry : nat) (toolName : string) (args : js_value)
  : M CallToolResult :=
  c <- gets (fun s => client (objects s entry)) ;;
  r <- await (CallTool c toolName args) ;;
  match calling r with
  | inl err => throw err
  | inr result => ret result
  end.

(** [entry.transport.close?.()] *)
Definition transport_close (entry : nat) : M unit :=
  t <- gets (fun s => transport (objects s entry)) ;;
  r <- await (Close t) ;;
  match closing r with
  | Some err => throw err
  | None => ret tt
  end.

(** [reconnect] *)
Definition reconnect (serverName : string) : M unit :=
  found <- lookup serverName ;;
  match found with
  | None => ret tt
  | Some entry =>
      console_write Log ("[mcp-adapter] Reconnecting to " ++ serverName ++ "...") ;;;
      try_catch (transport_close entry)
        (fun err =>
           console_write Warn
             ("[mcp-adapter] " ++ serverName ++ " close error during reconnect: "
              ++ String_ err)) ;;;
      modify (with_clients (JsMap.delete serverName)) ;;;
      cfg <- gets (fun s => config (objects s entry)) ;;
      connect cfg ;;;
      console_write Log ("[mcp-adapter] Reconnected to " ++ serverName)
  end.

(** [callTool].  [warnOnSchemaViolations] runs before the [try]: what it
    throws leaves [callTool] at once. *)
Definition callTool (serverName toolName : string) (args : js_value)
  : M CallToolResult :=
  found <- lookup serverName ;;
  match found with
  | None => throw (UnknownServerError serverName)
  | Some entry =>
      schemas <- gets (fun s => toolSchemas (objects s entry)) ;;
      let advice := warnOnSchemaViolations serverName toolName args schemas in
      console_write_all Warn (warned advice) ;;;
      match raised advice with
      | Some typeError => throw typeError
      | None =>
          try_catch (client_callTool entry toolName args)
            (fun err =>
               down <- gets (fun s => negb (connected (objects s entry))) ;;
               if down || isConnectionError err then
                 reconnect serverName ;;;
                 found' <- lookup serverName ;;
                 match found' with
                 | None => throw (ReconnectFailedError serverName)
                 | Some newEntry => client_callTool newEntry toolName args
                 end
               else throw err)
      end
  end.

(** [close] *)
Definition close (serverName : string) : M unit :=
  found <- lookup serverName ;;
  match found with
  | None => ret tt
  | Some entry =>
      try_catch (transport_close entry) (fun _ => ret tt) ;;;
      modify (with_clients (JsMap.delete serverName))
  end.

Fixpoint close_each (names : list string) : M unit :=
  match names with
  | [] => ret tt
  | name :: rest => close name ;;; close_each rest
  end.

(** [closeAll].  The iterator of [this.clients.keys()] is live, and nothing
    is inserted while it runs: it reaches the keys present at the start that
    are still present, and [close] does nothing for a key removed in the
    meantime. *)
Definition closeAll : M unit :=
  names <- gets (fun s => JsMap.keys (clients s)) ;;
  close_each names.

(* ------------------------------------------------------------------- *)
(** *** The entry points registered with the host ([index.ts]) *)

(** [c.text ?? c.data], and the empty string when both are missing *)
Definition fragment (c : ContentItem) : string :=
  match text c with
  | Some t => t
  | None => match data c with Some d => d | None => EmptyString end
  end.

(** The tail of both [execute] functions. *)
Definition reshape (result : CallToolResult) : ExecuteResult :=
  let text :=
    match content result with
    | Some items => join nl (List.map fragment items)
    | None => EmptyString
    end in
  {| result_content := [ {| block_type := "text"; block_text := text |} ];
     result_isError := isError result |}.

(** [execute] of a tool registered from the cache (phase 1). *)
Definition execute_cached (server : ServerConfig.t) (toolName : string)
  (params : js_value) : M ExecuteResult :=
  status <- gets (getStatus (ServerConfig.name server)) ;;
  (if negb (status_connected status) then
     console_write Log
       ("[mcp-adapter] Lazy-connecting to " ++ ServerConfig.name server ++ "...") ;;;
     connect server ;;;
     listTools (ServerConfig.name server) ;;;
     ret tt
   else ret tt) ;;;
  result <- callTool (ServerConfig.name server) toolName params ;;
  ret (reshape result).

(** [execute] of a tool registered by the service (phase 2). *)
Definition execute_service (server : ServerConfig.t) (toolName : string)
  (params : js_value) : M ExecuteResult :=
  result <- callTool (ServerConfig.name server) toolName params ;;
  ret (reshape result).
End Pool.

(* ===================================================================== *)
(** ** Vocabulary of the statements *)

Definition is_handshake (ev : Event) : bool :=
  match ev with Handshake _ _ => true | _ => false end.

Definition is_call (ev : Event) : bool :=
  match ev with CallTool _ _ _ => true | _ => false end.

(** How many times [client.connect] was issued. *)
Definition connectCount (h : list Event) : nat :=
  List.length (List.filter is_handshake h).

(** How many times [client.callTool] was issued. *)
Definition callCount (h : list Event) : nat :=
  List.length (List.filter is_call h).

(** The map holds one entry per name, and every entry it holds was made by
    [connect]: it is older than the next fresh number, carries the client and
    transport of its own number, and sits under the name of its descriptor. *)
Definition made_by_connect (s : State) (name : string) (entry : nat) : Prop :=
  entry < fresh s /\ client (objects s entry) = entry
  /\ transport (objects s entry) = entry
  /\ ServerConfig.name (config (objects s entry)) = name.

Definition well_formed (s : State) : Prop :=
  NoDup (JsMap.keys (clients s)) /\
  forall name entry, JsMap.get name (clients s) = Some entry ->
    made_by_connect s name entry.

(** Nobody else closes a session while this environment answers. *)
Definition no_overlapping_close (env : nat -> Response) : Prop :=
  forall n name, ~ In (SessionClosed name) (during (env n)).

(** What the answers of the environment make of one [callTool] on the
    session [entry] registered as [serverName], once the check of the
    arguments has returned: the outcome, and the operations issued, in order.
    The schema maps play no part in it. *)
Definition verdict (env : nat -> Response) (s : State)
  (serverName toolName : string) (args : js_value) (entry : nat)
  : Outcome CallToolResult * list Event :=
  let answer := env (clock s) in
  let settled := disturb (during answer) s in
  let first := CallTool (client (objects s entry)) toolName args in
  match calling answer with
  | inr result => (Return result, [first])
  | inl err =>
      if negb (connected (objects settled entry)) || isConnectionError err then
        match JsMap.get serverName (clients settled) with
        | None => (Throw (ReconnectFailedError serverName), [first])
        | Some _ =>
            let teardown := Close (transport (objects s entry)) in
            match createTransport (config (objects s entry)) with
            | Throw e => (Throw e, [first; teardown])
            | Return how =>
                let again := Handshake (fresh s) how in
                match handshake (env (2 + clock s)) with
                | Some e => (Throw e, [first; teardown; again])
                | None =>
                    (match calling (env (3 + clock s)) with
                     | inl e => Throw e
                     | inr result => Return result
                     end,
                     [first; teardown; again; CallTool (fresh s) toolName args])
                end
            end
        end
      else (Throw err, [first])
  end.


(** *** The Schema Advisory as the specification words it *)

Inductive Diagnostic :=
| MissingRequired (field : string)
| KindMismatch (field expected actual : string).

Definition render (prefix : string) (d : Diagnostic) : string :=
  match d with
  | MissingRequired field => missingLine prefix field
  | KindMismatch field expected actual =>
      mismatchLine prefix field expected actual
  end.

(** The runtime kind of a value, among the kinds of the specification:
    string, number, boolean, object, array. *)
Definition kindOf (v : js_value) : string :=
  match v with
  | JUndefined => "undefined"
  | JNull => "null"
  | JBool _ => "boolean"
  | JNumber _ => "number"
  | JString _ => "string"
  | JArray _ => "array"
  | JObject _ => "object"
  end.

(** The kind a field is checked against: the schema's [integer] stands for
    [number]. *)
Definition checkedKind (declared : string) : string :=
  if String.eqb declared "integer" then "number" else declared.

(** A field of [args]: a field the value has. *)
Definition present (field : string) (args : js_value) : bool :=
  match property args field with Some _ => true | None => false end.

(** The names a schema requires. *)
Definition demanded (schema : ToolSchema) : list string :=
  match required schema with Some (Names fields) => fields | _ => [] end.

(** The declared-fields table of a schema. *)
Definition declaredFields (schema : ToolSchema)
  : list (string * PropertySchema) :=
  match properties schema with Some entries => entries | None => [] end.

(** The required field names that [args] lacks. *)
Definition missingRequired (schema : ToolSchema) (args : js_value) : list string :=
  List.filter (fun field => negb (present field args)) (demanded schema).

(** A declared field, with a declared kind, that [args] has with a value,
    neither null nor undefined, of another kind. *)
Definition kindViolated (args : js_value) (entry : string * PropertySchema) : bool :=
  match snd entry with
  | Declares (Some declared) =>
      match property args (fst entry) with
      | Some JNull | Some JUndefined | None => false
      | Some v =>
          negb (String.eqb declared EmptyString)
          && negb (String.eqb (kindOf v) (checkedKind declared))
      end
  | _ => false
  end.

Definition mismatch (args : js_value) (entry : string * PropertySchema) : Diagnostic :=
  KindMismatch (fst entry)
    (match snd entry with
     | Declares (Some declared) => declared
     | _ => EmptyString
     end)
    (match property args (fst entry) with
     | Some v => kindOf v
     | None => "undefined"
     end).

(** [check] of the specification: missing required fields first, kind
    mismatches after, each in the order of the schema. *)
Definition check (schema : ToolSchema) (args : js_value) : list Diagnostic :=
  (List.map MissingRequired (missingRequired schema args)
   ++ List.map (mismatch args)
        (List.filter (kindViolated args) (declaredFields schema)))%list.

(** A structured value that is not null: an object or an array. *)
Definition structured (args : js_value) : bool :=
  String.eqb (typeof args) "object" && negb (is_null args).

(** A schema of the declared shape: every descriptor is a descriptor, and
    what is required can be gone through. *)
Definition wellShaped (schema : ToolSchema) : Prop :=
  required schema <> Some NotIterable
  /\ forall field, ~ In (field, NullDescriptor) (declaredFields schema).

(** The then-branch of the [catch] block of [callTool]. *)
Definition retry (env : nat -> Response) (serverName toolName : string)
  (args : js_value) : M CallToolResult :=
  reconnect env serverName ;;;
  found <- lookup serverName ;;
  match found with
  | None => throw (ReconnectFailedError serverName)
  | Some newEntry => client_callTool env newEntry toolName args
  end.

(* ===================================================================== *)
(** ** Concrete pools and environments *)

(** A descriptor of a subprocess server. *)
Definition stdioServer (name command : string) : ServerConfig.t :=
  {| ServerConfig.name := name; ServerConfig.transport := ServerConfig.stdio;
     ServerConfig.command := Some command; ServerConfig.args := None;
     ServerConfig.cwd := None; ServerConfig.env := None;
     ServerConfig.url := None; ServerConfig.headers := None;
     ServerConfig.allowPrivateUrls := Some false; ServerConfig.timeout := None |}.

Definition files : ServerConfig.t := stdioServer "files" "mcp-files".

Definition noEntry : ClientEntry :=
  {| config := stdioServer EmptyString EmptyString; client := 0; transport := 0;
     connected := false; toolSchemas := JsMap.empty |}.

(** [new McpClientPool()] in a world where nothing has happened yet. *)
Definition emptyPool : State :=
  {| clients := JsMap.empty; objects := fun _ => noEntry; fresh := 0;
     clock := 0; history := []; console := [] |}.

Definition greeting : CallToolResult :=
  {| content := Some [ {| text := Some "hello"; data := None |} ];
     isError := None |}.

(** Every operation succeeds and nobody else touches the pool. *)
Definition calm : Response :=
  {| during := []; handshake := None; calling := inr greeting;
     listing := inr []; closing := None |}.

(** As [calm], but [client.callTool] throws [err]. *)
Definition callFails (err : thrown) : Response :=
  {| during := []; handshake := None; calling := inl err;
     listing := inr []; closing := None |}.

(** As [calm], with the given interference while the operation is pending. *)
Definition meanwhile (l : list Interference) (r : Response) : Response :=
  {| during := l; handshake := handshake r; calling := calling r;
     listing := listing r; closing := closing r |}.

(** The environment that answers [r] to the [n]-th operation and [calm] to
    all others. *)
Definition calmExcept (n : nat) (r : Response) : nat -> Response :=
  fun i => if Nat.eqb i n then r else calm.

Definition search : ServerConfig.t := stdioServer "search" "mcp-search".

(** As [calm], but [transport.close] throws [err]. *)
Definition closeFails (err : thrown) : Response :=
  {| during := []; handshake := None; calling := inr greeting;
     listing := inr []; closing := Some err |}.

(** The pool after [connect(files)] and [connect(search)] in a calm world. *)
Definition twoServers : State :=
  snd ((connect (fun _ => calm) files ;;; connect (fun _ => calm) search)
         emptyPool).

(** The schema of the weather example of the specification. *)
Definition citySchema : ToolSchema :=
  {| schema_type := Some "object";
     properties := Some [("city", Declares (Some "string"))];
     required := Some (Names ["city"]) |}.

Definition forecast : Tool :=
  {| tool_name := "forecast"; tool_description := Some "Weather forecast";
     inputSchema := Some citySchema |}.

Definition weather : ServerConfig.t := stdioServer "weather" "mcp-weather".

(** As [calm], and discovery answers [tools]. *)
Definition discovers (tools : list Tool) : Response :=
  {| during := []; handshake := None; calling := inr greeting;
     listing := inr tools; closing := None |}.

(** The pool after [connect(weather)] and [listTools("weather")], the server
    offering [forecast]. *)
Definition weatherPool : State :=
  snd ((connect (fun _ => discovers [forecast]) weather ;;;
        listTools (fun _ => discovers [forecast]) "weather") emptyPool).

(** [filesPool] after the error handler of the transport has run: the
    session is still registered, marked disconnected. *)
Definition filesDown : State :=
  disturb [TransportClosed "files"]
    (snd (connect (fun _ => calm) files emptyPool)).

(** The pool after [connect(files)] twice in a calm world. *)
Definition filesTwice : State :=
  snd ((connect (fun _ => calm) files ;;; connect (fun _ => calm) files)
         emptyPool).

(** The pool after [connect(files)] in a calm world. *)
Definition filesPool : State := snd (connect (fun _ => calm) files emptyPool).

Definition channelClosed : thrown :=
  Failure TransportLevel "McpError: MCP error -32000: Connection closed".

(** A JSON-RPC error of the server: the tool could not do what was asked. *)
Definition ticketClosed : thrown :=
  Failure ApplicationLevel
    "McpError: MCP error -32603: ticket 42 is already closed".

(** The request timed out at the transport. *)
Definition requestTimedOut : thrown :=
  Failure TransportLevel "McpError: MCP error -32001: Request timed out".

Definition spawnFails : thrown :=
  Failure TransportLevel "Error: spawn mcp-files ENOENT".

(** As [calm], but the handshake of [client.connect] throws [err]. *)
Definition handshakeFails (err : thrown) : Response :=
  {| during := []; handshake := Some err; calling := inr greeting;
     listing := inr []; closing := None |}.

(** After [filesPool]: the call finds the channel closed, and the subprocess
    cannot be started again. *)
Definition dropThenSpawnFails : nat -> Response :=
  fun n =>
    match n with
    | 1 => callFails channelClosed
    | 3 => handshakeFails spawnFails
    | _ => calm
    end.

(* ===================================================================== *)
(** ** More vocabulary for the pool *)

(** Nobody else touches the pool while this environment answers. *)
Definition undisturbed (env : nat -> Response) : Prop :=
  forall n, during (env n) = [].

(** The schema the last tool called [toolName] in a discovery result
    carries, if any tool of that name carries one. *)
Fixpoint lastSchema (toolName : string) (tools : list Tool) : option ToolSchema :=
  match tools with
  | [] => None
  | tool :: rest =>
      match lastSchema toolName rest with
      | Some schema => Some schema
      | None =>
          if String.eqb (tool_name tool) toolName then inputSchema tool else None
      end
  end.

(** A second tool of the weather server, declared without a schema. *)
Definition ping : Tool :=
  {| tool_name := "ping"; tool_description := None; inputSchema := None |}.

(** A later declaration of [forecast]: the city is no longer required. *)
Definition forecastRelaxed : Tool :=
  {| tool_name := "forecast"; tool_description := Some "Weather forecast";
     inputSchema :=
       Some {| schema_type := Some "object";
               properties := Some [("city", Declares (Some "string"))];
               required := None |} |}.

(** As [calm], but discovery throws [err]. *)
Definition listFails (err : thrown) : Response :=
  {| during := []; handshake := None; calling := inr greeting;
     listing := inl err; closing := None |}.

(** From [s] to [s'] no entry object that existed in [s] has had its
    [connected] flag set back to true, and no number handed out in [s] is
    handed out again. *)
Definition ages (s s' : State) : Prop :=
  fresh s <= fresh s'
  /\ forall e, e < fresh s ->
       connected (objects s' e) = true -> connected (objects s e) = true.

(* ===================================================================== *)
(** ** The plugin ([index.ts]) *)

(** [interface CachedTool] *)
Record CachedTool := {
  cached_name : string;
  cached_description : string;
  cached_inputSchema : ToolSchema
}.

(** [interface ToolCache] *)
Record ToolCache := {
  cache_version : Z;
  cache_servers : JsMap.t (list CachedTool)
}.

Definition CACHE_VERSION : Z := 1.

(** [interface McpAdapterConfig] of the configuration module. *)
Record McpAdapterConfig := {
  servers : list ServerConfig.t;
  toolPrefix : bool
}.

(** The [execute] closure handed to [api.registerTool]: which of the two
    functions it is, and the server and tool it has captured. *)
Inductive EntryPoint :=
| CachedEntry (server : ServerConfig.t) (toolName : string)
| ServiceEntry (server : ServerConfig.t) (toolName : string).

(** The argument of one [api.registerTool]. *)
Record Registration := {
  registered_name : string;
  registered_description : string;
  registered_parameters : ToolSchema;
  registered_execute : EntryPoint
}.

(** Calling a registered [execute]. *)
Definition run (env : nat -> Response) (e : EntryPoint) (params : js_value)
  : M ExecuteResult :=
  match e with
  | CachedEntry server toolName => execute_cached env server toolName params
  | ServiceEntry server toolName => execute_service env server toolName params
  end.

(** [config.toolPrefix ? `${server.name}_${tool.name}` : tool.name] *)
Definition exposedName (config : McpAdapterConfig) (server : ServerConfig.t)
  (toolName : string) : string :=
  if toolPrefix config then ServerConfig.name server ++ "_" ++ toolName
  else toolName.

(** [{ type: "object", properties: {} }] *)
Definition anyObject : ToolSchema :=
  {| schema_type := Some "object"; properties := Some []; required := None |}.

(** The registration of one cached tool (phase 1).  The interface makes the
    description and the schema of a cached tool mandatory, so that the
    defaults of the source never apply. *)
Definition cachedRegistration (config : McpAdapterConfig)
  (server : ServerConfig.t) (tool : CachedTool) : Registration :=
  {| registered_name := exposedName config server (cached_name tool);
     registered_description := cached_description tool;
     registered_parameters := cached_inputSchema tool;
     registered_execute := CachedEntry server (cached_name tool) |}.

(** The inner loop of phase 1, over the cached tools of one server. *)
Fixpoint registerCachedTools (config : McpAdapterConfig)
  (server : ServerConfig.t) (cachedTools : list CachedTool) : list Registration :=
  match cachedTools with
  | [] => []
  | tool :: rest =>
      cachedRegistration config server tool
      :: registerCachedTools config server rest
  end.

(** The outer loop of phase 1, over the configured servers: what is handed
    to [api.registerTool], in order. *)
Fixpoint registerFromCache (config : McpAdapterConfig) (cache : ToolCache)
  (remaining : list ServerConfig.t) : list Registration :=
  match remaining with
  | [] => []
  | server :: rest =>
      match JsMap.get (ServerConfig.name server) (cache_servers cache) with
      | None => registerFromCache config cache rest
      | Some cachedTools =>
          (registerCachedTools config server cachedTools
           ++ registerFromCache config cache rest)%list
      end
  end.

(** What loading the plugin does with the host: the tools registered at once,
    whether the service is registered, and the lines logged. *)
Record Loaded := {
  registeredAtLoad : list Registration;
  registersService : bool;
  loadLog : list string
}.

(** The default export, given the parsed configuration and what [readCache]
    returned. *)
Definition load (config : McpAdapterConfig) (cache : option ToolCache) : Loaded :=
  match servers config with
  | [] =>
      {| registeredAtLoad := []; registersService := false;
         loadLog := ["[mcp-adapter] No servers configured"] |}
  | _ :: _ =>
      match cache with
      | Some c =>
          let regs := registerFromCache config c (servers config) in
          {| registeredAtLoad := regs; registersService := true;
             loadLog := ["[mcp-adapter] Registered "
                           ++ index_key (List.length regs)
                           ++ " tools from cache"] |}
      | None =>
          {| registeredAtLoad := []; registersService := true; loadLog := [] |}
      end
  end.

(** What [start] has gathered: the cache it will hand to [writeCache], the
    tools it has registered, and the failures it has logged with
    [console.error], each with the name of the server. *)
Record Started := {
  newCache : ToolCache;
  registeredByService : list Registration;
  failed : list (string * thrown)
}.

(** The element of [newCache.servers[server.name]] made from a discovered
    tool. *)
Definition toCached (server : ServerConfig.t) (t : Tool) : CachedTool :=
  {| cached_name := tool_name t;
     cached_description :=
       match tool_description t with
       | Some d => d
       | None => "Tool from " ++ ServerConfig.name server
       end;
     cached_inputSchema :=
       match inputSchema t with Some schema => schema | None => anyObject end |}.

(** The registration of one discovered tool (phase 2). *)
Definition serviceRegistration (config : McpAdapterConfig)
  (server : ServerConfig.t) (tool : Tool) : Registration :=
  {| registered_name := exposedName config server (tool_name tool);
     registered_description :=
       match tool_description tool with
       | Some d => d
       | None => "Tool from " ++ ServerConfig.name server
       end;
     registered_parameters :=
       match inputSchema tool with Some schema => schema | None => anyObject end;
     registered_execute := ServiceEntry server (tool_name tool) |}.

(** [!cache || !cache.servers[server.name]] *)
Definition uncached (cache : option ToolCache) (serverName : string) : bool :=
  match cache with
  | None => true
  | Some c =>
      match JsMap.get serverName (cache_servers c) with
      | None => true
      | Some _ => false
      end
  end.

Definition cache_with (serverName : string) (tools : list CachedTool)
  (acc : Started) : Started :=
  {| newCache :=
       {| cache_version := cache_version (newCache acc);
          cache_servers :=
            JsMap.set serverName tools (cache_servers (newCache acc)) |};
     registeredByService := registeredByService acc;
     failed := failed acc |}.

Definition registered_with (regs : list Registration) (acc : Started) : Started :=
  {| newCache := newCache acc;
     registeredByService := (registeredByService acc ++ regs)%list;
     failed := failed acc |}.

Definition failed_with (serverName : string) (err : thrown) (acc : Started)
  : Started :=
  {| newCache := newCache acc;
     registeredByService := registeredByService acc;
     failed := (failed acc ++ [(serverName, err)])%list |}.

Section Service.
Variable env : nat -> Response.
Variable config : McpAdapterConfig.
Variable cache : option ToolCache.

(** The body of the loop of [start] for one server: the [try] block and its
    [catch]. *)
Definition startServer (server : ServerConfig.t) (acc : Started) : M Started :=
  let name := ServerConfig.name server in
  try_catch
    (console_write Log ("[mcp-adapter] Connecting to " ++ name ++ "...") ;;;
     connect env server ;;;
     tools <- listTools env name ;;
     console_write Log
       ("[mcp-adapter] " ++ name ++ ": found "
        ++ index_key (List.length tools) ++ " tools") ;;;
     let acc1 := cache_with name (List.map (toCached server) tools) acc in
     if uncached cache name then
       console_write_all Log
         (List.map (fun tool =>
                      "[mcp-adapter] Registered: "
                      ++ exposedName config server (tool_name tool)) tools) ;;;
       ret (registered_with
              (List.map (serviceRegistration config server) tools) acc1)
     else ret acc1)
    (fun err => ret (failed_with name err acc)).

(** [for (const server of config.servers) ...] *)
Fixpoint startServers (remaining : list ServerConfig.t) (acc : Started)
  : M Started :=
  match remaining with
  | [] => ret acc
  | server :: rest =>
      acc' <- startServer server acc ;;
      startServers rest acc'
  end.

(** [start] of the service.  The value returned carries what is handed to
    [writeCache]; [cachePath] is what [getCachePath] answers. *)
Definition start (cachePath : string) : M Started :=
  done <- startServers (servers config)
            {| newCache := {| cache_version := CACHE_VERSION;
                              cache_servers := JsMap.empty |};
               registeredByService := []; failed := [] |} ;;
  (if Nat.ltb 0 (List.length (registeredByService done)) then
     console_write Log
       ("[mcp-adapter] Service registered "
        ++ index_key (List.length (registeredByService done)) ++ " new tools")
   else ret tt) ;;;
  console_write Log ("[mcp-adapter] Tool cache updated at " ++ cachePath) ;;;
  ret done.

(** [stop] of the service. *)
Definition stop : M unit :=
  console_write Log "[mcp-adapter] Shutting down..." ;;;
  closeAll env ;;;
  console_write Log "[mcp-adapter] All connections closed".
End Service.

(** Concrete configurations and caches. *)
Definition bothServers : McpAdapterConfig :=
  {| servers := [files; weather]; toolPrefix := true |}.

Definition weatherCached : ToolCache :=
  {| cache_version := CACHE_VERSION;
     cache_servers := [("weather", [toCached weather forecast])] |}.

(** The server an entry point has captured. *)
Definition serverOf (e : EntryPoint) : ServerConfig.t :=
  match e with
  | CachedEntry server _ => server
  | ServiceEntry server _ => server
  end.

(** What [readCache] finds at the cache path: no file, a file that cannot be
    read or parsed, or a file holding a record. *)
Inductive CacheFile :=
| NoFile
| Unreadable
| Holds (raw : ToolCache).

(** [readCache] *)
Definition readCache (file : CacheFile) : option ToolCache :=
  match file with
  | NoFile => None
  | Unreadable => None
  | Holds raw =>
      if negb (Z.eqb (cache_version raw) CACHE_VERSION) then None else Some raw
  end.

(** Every handshake is refused. *)
Definition unreachable (env : nat -> Response) : Prop :=
  forall n, exists err, handshake (env n) = Some err.

(** What [start] gathers for [bothServers] when the old cache knows the
    weather server only and both servers offer [forecast]. *)
Definition startedUncached : Started :=
  {| newCache :=
       {| cache_version := CACHE_VERSION;
          cache_servers := [("files", [toCached files forecast]);
                            ("weather", [toCached weather forecast])] |};
     registeredByService := [serviceRegistration bothServers files forecast];
     failed := [] |}.

Definition noServers : McpAdapterConfig :=
  {| servers := []; toolPrefix := true |}.

(* ===================================================================== *)
(** ** The configuration module *)

(** The records [cache.servers] and [newCache.servers] are plain objects
    indexed by server name, modelled by the keys they carry themselves.  An
    object also answers to the names it inherits
    ([objectPrototypeNames]): the properties of the plugin are stated for
    configurations that use none of them as a server name. *)
Definition plainName (name : string) : bool :=
  negb (existsb (String.eqb name) objectPrototypeNames).

(** No configured server bears a name that every object inherits. *)
Definition plainlyNamed (config : McpAdapterConfig) : bool :=
  forallb (fun server => plainName (ServerConfig.name server)) (servers config).

(** What the configuration module throws: an [Error] of its own with a
    message, or a [TypeError] raised by the language or by [new URL], whose
    message is the engine's. *)
Inductive Rejection :=
| Invalid (message : string)
| TypeError.

(** A value, or what is thrown instead. *)
Inductive Checked (A : Type) :=
| Accepted (a : A)
| Rejected (why : Rejection).
Arguments Accepted {A} a.
Arguments Rejected {A} why.

(** [s.endsWith(suffix)] *)
Fixpoint endsWith (suffix s : string) : bool :=
  String.eqb s suffix ||
  match s with
  | EmptyString => false
  | String _ rest => endsWith suffix rest
  end.

(** A character class. *)
Definition oneOf (chars : list ascii) (c : ascii) : bool :=
  existsb (Ascii.eqb c) chars.

(** [\d] *)
Definition isDigit : ascii -> bool :=
  oneOf ["0"; "1"; "2"; "3"; "4"; "5"; "6"; "7"; "8"; "9"]%char.

(** [/^172\.(1[6-9]|2\d|3[01])\./]: the four characters of the prefix, the
    two of the alternation, and the dot. *)
Definition matches172 (hostname : string) : bool :=
  startsWith "172." hostname &&
  match hostname with
  | String _ (String _ (String _ (String _
      (String a (String b (String dot _)))))) =>
      (Ascii.eqb a "1" && oneOf ["6"; "7"; "8"; "9"]%char b
       || Ascii.eqb a "2" && isDigit b
       || Ascii.eqb a "3" && oneOf ["0"; "1"]%char b)
      && Ascii.eqb dot "."
  | _ => false
  end.

(** [/^\[?::1\]?$/] *)
Definition matchesLoopback6 (hostname : string) : bool :=
  existsb (String.eqb hostname) ["::1"; "[::1"; "::1]"; "[::1]"].

(** [PRIVATE_IP_PATTERNS], each pattern as its test. *)
Definition PRIVATE_IP_PATTERNS : list (string -> bool) :=
  [ startsWith "127.";
    startsWith "10.";
    startsWith "192.168.";
    matches172;
    startsWith "169.254.";
    (fun hostname => String.eqb hostname "0.0.0.0");
    matchesLoopback6;
    (fun hostname => startsWith "fc" hostname || startsWith "[fc" hostname);
    (fun hostname => startsWith "fd" hostname || startsWith "[fd" hostname) ].

(** [isPrivateHost] *)
Definition isPrivateHost (hostname : string) : bool :=
  existsb (fun p => p hostname) PRIVATE_IP_PATTERNS
  || String.eqb hostname "localhost"
  || endsWith ".local" hostname.

(** The prefixes that make a host name private by themselves. *)
Definition privatePrefixes : list string :=
  ["127."; "10."; "192.168."; "169.254."; "fc"; "[fc"; "fd"; "[fd"].

(** The host names that are private as a whole. *)
Definition privateNames : list string :=
  ["0.0.0.0"; "::1"; "[::1"; "::1]"; "[::1]"; "localhost"].

(** The second octets of the private range 172.16.0.0/12. *)
Definition octets16to31 : list string :=
  ["16"; "17"; "18"; "19"; "20"; "21"; "22"; "23"; "24"; "25"; "26"; "27";
   "28"; "29"; "30"; "31"].

(** *** [interpolateEnv] *)

(** Where the scan for [/\$\{([^}]+)\}/g] stands: outside any candidate,
    after a dollar, or inside the braces with the name read so far. *)
Inductive Scan :=
| Outside
| AfterDollar
| InName (name : string).

Definition put (text : string) (r : string * list string) : string * list string :=
  (text ++ fst r, snd r).

(** [console.warn(`[mcp-adapter] env var "${name}" is not set`)] *)
Definition notSet (name : string) : string :=
  "[mcp-adapter] env var " ++ dq ++ name ++ dq ++ " is not set".

Section Interpolation.
(** [process.env[name]] when it is not [undefined], as [replace] inserts
    it. *)
Variable processEnv : string -> option string.

(** The callback of [replace]: the value of the variable, or the empty
    string and a warning when [process.env] has none. *)
Definition substitute (name : string) : string * list string :=
  match processEnv name with
  | Some value => (value, [])
  | None => (EmptyString, [notSet name])
  end.

(** [v.replace(/\$\{([^}]+)\}/g, ...)]: the new text and the warnings, in
    order.  A candidate opens at a dollar followed by a brace and closes at
    the first closing brace; it is a match when at least one character stands
    in between.  What is not part of a match is copied, and what the callback
    returns is not scanned again. *)
Fixpoint replaceVars (state : Scan) (v : string) : string * list string :=
  match v with
  | EmptyString =>
      match state with
      | Outside => (EmptyString, [])
      | AfterDollar => ("$", [])
      | InName name => ("${" ++ name, [])
      end
  | String c rest =>
      match state with
      | Outside =>
          if Ascii.eqb c "$" then replaceVars AfterDollar rest
          else put (String c EmptyString) (replaceVars Outside rest)
      | AfterDollar =>
          if Ascii.eqb c "{" then replaceVars (InName EmptyString) rest
          else if Ascii.eqb c "$" then put "$" (replaceVars AfterDollar rest)
          else put (String "$" (String c EmptyString)) (replaceVars Outside rest)
      | InName name =>
          if Ascii.eqb c "}" then
            match name with
            | EmptyString => put "${}" (replaceVars Outside rest)
            | String _ _ =>
                (fst (substitute name) ++ fst (replaceVars Outside rest),
                 (snd (substitute name) ++ snd (replaceVars Outside rest))%list)
            end
          else replaceVars (InName (name ++ String c EmptyString)) rest
      end
  end.

Fixpoint indexed (i : nat) (items : list js_value) : list (string * js_value) :=
  match items with
  | [] => []
  | x :: rest => (index_key i, x) :: indexed (S i) rest
  end.

Fixpoint characters (s : string) : list js_value :=
  match s with
  | EmptyString => []
  | String c rest => JString (String c EmptyString) :: characters rest
  end.

(** [Object.entries(obj)]: the fields of an object are held in the order it
    enumerates them. *)
Definition entriesOf (obj : js_value) : list (string * js_value) :=
  match obj with
  | JObject fields => fields
  | JArray items => indexed 0 items
  | JString s => indexed 0 (characters s)
  | _ => []
  end.

(** [result[k] = value] on a plain object: the inherited setter of
    [__proto__] swallows a string. *)
Definition assign (k value : string) (result : JsMap.t string) : JsMap.t string :=
  if String.eqb k "__proto__" then result else JsMap.set k value result.

(** The loop of [interpolateEnv] over the entries: the record built, or the
    [TypeError] of a value that has no [replace], with the warnings written
    until then. *)
Fixpoint interpolateEntries (entries : list (string * js_value))
  (result : JsMap.t string) : Checked (JsMap.t string) * list string :=
  match entries with
  | [] => (Accepted result, [])
  | (k, v) :: rest =>
      match v with
      | JString text =>
          let replaced := replaceVars Outside text in
          let later := interpolateEntries rest (assign k (fst replaced) result) in
          (fst later, (snd replaced ++ snd later)%list)
      | _ => (Rejected TypeError, [])
      end
  end.

(** [interpolateEnv], on whatever value the unchecked cast lets in. *)
Definition interpolateEnv (obj : js_value)
  : Checked (JsMap.t string) * list string :=
  interpolateEntries (entriesOf obj) JsMap.empty.
End Interpolation.

(** *** [parseConfig] *)

(** Truthiness of a value. *)
Definition toBoolean (v : js_value) : bool :=
  match v with
  | JUndefined | JNull => false
  | JBool b => b
  | JNumber n => negb (Z.eqb n 0)
  | JString s => negb (String.eqb s EmptyString)
  | JArray _ | JObject _ => true
  end.

(** [v === text] *)
Definition isString (text : string) (v : js_value) : bool :=
  match v with JString s => String.eqb s text | _ => false end.

(** [v ?? fallback] *)
Definition orElse (v fallback : js_value) : js_value :=
  match v with JUndefined | JNull => fallback | _ => v end.

(** What [servers.push] receives: the fields as the unchecked casts leave
    them. *)
Record ParsedServer := {
  parsed_name : js_value;
  parsed_transport : js_value;
  parsed_command : js_value;
  parsed_args : js_value;
  parsed_cwd : js_value;
  parsed_env : option (JsMap.t string);
  parsed_url : js_value;
  parsed_headers : option (JsMap.t string);
  parsed_allowPrivateUrls : bool;
  parsed_timeout : option Z
}.

Record ParsedConfig := {
  parsed_servers : list ParsedServer;
  parsed_toolPrefix : bool
}.

(** What [for ... of] iterates: the elements of an array, the characters of
    a string; anything else is not iterable. *)
Definition iterate (v : js_value) : Checked (list js_value) :=
  match v with
  | JArray items => Accepted items
  | JString s => Accepted (characters s)
  | _ => Rejected TypeError
  end.

Section Parsing.
(** [new URL(text)]: the protocol and the host name of an address that
    parses. *)
Variable URL : string -> option (string * string).
(** How the engine prints a number. *)
Variable numberToString : Z -> string.
(** [process.env] *)
Variable processEnv : string -> option string.

(** A value converted to a string, as a template literal and [new URL] do.
    An object that carries a [toString] of its own, which is not a function,
    cannot be converted. *)
Fixpoint toString (v : js_value) : option string :=
  match v with
  | JUndefined => Some "undefined"
  | JNull => Some "null"
  | JBool true => Some "true"
  | JBool false => Some "false"
  | JNumber n => Some (numberToString n)
  | JString s => Some s
  | JArray items =>
      option_map (join ",")
        ((fix elements (l : list js_value) : option (list string) :=
            match l with
            | [] => Some []
            | x :: rest =>
                match (match x with
                       | JUndefined | JNull => Some EmptyString
                       | _ => toString x
                       end), elements rest with
                | Some text, Some texts => Some (text :: texts)
                | _, _ => None
                end
            end) items)
  | JObject fields =>
      if JsMap.has "toString" fields then None else Some "[object Object]"
  end.

(** [throw new Error(...)] with a message that renders the name of the
    server. *)
Definition complain (name : js_value) (message : string -> string) : Rejection :=
  match toString name with
  | Some text => Invalid (message text)
  | None => TypeError
  end.

(** [validateUrl] *)
Definition validateUrl (url serverName : js_value) (allowPrivate : bool)
  : Checked unit :=
  match toString url with
  | None => Rejected TypeError
  | Some text =>
      match URL text with
      | None => Rejected TypeError
      | Some (protocol, hostname) =>
          if negb (existsb (String.eqb protocol) ["http:"; "https:"]) then
            Rejected
              (complain serverName
                 (fun name => "Server " ++ dq ++ name ++ dq
                              ++ ": unsupported protocol " ++ dq ++ protocol ++ dq))
          else if negb allowPrivate && isPrivateHost hostname then
            Rejected
              (complain serverName
                 (fun name => "Server " ++ dq ++ name ++ dq
                              ++ ": URL points to private/reserved address "
                              ++ dq ++ hostname ++ dq ++ ". "
                              ++ "Set allowPrivateUrls: true to override."))
          else Accepted tt
      end
  end.

(** [field ? interpolateEnv(field) : undefined] *)
Definition interpolated (field : js_value)
  : Checked (option (JsMap.t string)) * list string :=
  if toBoolean field then
    match interpolateEnv processEnv field with
    | (Accepted result, warnings) => (Accepted (Some result), warnings)
    | (Rejected why, warnings) => (Rejected why, warnings)
    end
  else (Accepted None, []).

(** [srv.allowPrivateUrls === true] *)
Definition allowsPrivate (srv : js_value) : bool :=
  match member srv "allowPrivateUrls" with
  | JBool true => true
  | _ => false
  end.

(** The checks [parseConfig] makes on one entry before it builds the
    server. *)
Definition checkServer (srv : js_value) : Checked unit :=
  match srv with
  | JUndefined | JNull => Rejected TypeError
  | _ =>
      let name := member srv "name" in
      if negb (toBoolean name) then Rejected (Invalid "Server missing 'name'")
      else
        let transport := orElse (member srv "transport") (JString "stdio") in
        if isString "stdio" transport && negb (toBoolean (member srv "command"))
        then Rejected
               (complain name
                  (fun text => "Server " ++ dq ++ text ++ dq ++ " missing 'command'"))
        else if isString "http" transport && negb (toBoolean (member srv "url"))
        then Rejected
               (complain name
                  (fun text => "Server " ++ dq ++ text ++ dq ++ " missing 'url'"))
        else if isString "http" transport && toBoolean (member srv "url")
        then validateUrl (member srv "url") name (allowsPrivate srv)
        else Accepted tt
  end.

(** The body of the loop of [parseConfig] for one entry: the server pushed,
    or what is thrown, and the warnings written on the way. *)
Definition parseServer (srv : js_value) : Checked ParsedServer * list string :=
  match checkServer srv with
  | Rejected why => (Rejected why, [])
  | Accepted _ =>
      match interpolated (member srv "env") with
      | (Rejected why, warnings) => (Rejected why, warnings)
      | (Accepted env, warnings) =>
          match interpolated (member srv "headers") with
          | (Rejected why, warnings') =>
              (Rejected why, (warnings ++ warnings')%list)
          | (Accepted headers, warnings') =>
              (Accepted
                 {| parsed_name := member srv "name";
                    parsed_transport :=
                      orElse (member srv "transport") (JString "stdio");
                    parsed_command := member srv "command";
                    parsed_args := member srv "args";
                    parsed_cwd := member srv "cwd";
                    parsed_env := env;
                    parsed_url := member srv "url";
                    parsed_headers := headers;
                    parsed_allowPrivateUrls := allowsPrivate srv;
                    parsed_timeout :=
                      match member srv "timeout" with
                      | JNumber n => Some n
                      | _ => None
                      end |},
               (warnings ++ warnings')%list)
          end
      end
  end.

(** [for (const s of ...)] over the entries still to come. *)
Fixpoint parseServers (entries : list js_value)
  : Checked (list ParsedServer) * list string :=
  match entries with
  | [] => (Accepted [], [])
  | srv :: rest =>
      match parseServer srv with
      | (Rejected why, warnings) => (Rejected why, warnings)
      | (Accepted server, warnings) =>
          match parseServers rest with
          | (Rejected why, warnings') =>
              (Rejected why, (warnings ++ warnings')%list)
          | (Accepted servers, warnings') =>
              (Accepted (server :: servers), (warnings ++ warnings')%list)
          end
      end
  end.

(** [parseConfig] *)
Definition parseConfig (raw : js_value) : Checked ParsedConfig * list string :=
  let cfg := orElse raw (JObject []) in
  match iterate (orElse (member cfg "servers") (JArray [])) with
  | Rejected why => (Rejected why, [])
  | Accepted entries =>
      match parseServers entries with
      | (Rejected why, warnings) => (Rejected why, warnings)
      | (Accepted servers, warnings) =>
          (Accepted {| parsed_servers := servers;
                       parsed_toolPrefix :=
                         match member cfg "toolPrefix" with
                         | JBool false => false
                         | _ => true
                         end |},
           warnings)
      end
  end.
End Parsing.

(** A parsed field read at the type [string | undefined]. *)
Definition optionalString (v : js_value) : option (option string) :=
  match v with
  | JUndefined => Some None
  | JString s => Some (Some s)
  | _ => None
  end.

Fixpoint strings (items : list js_value) : option (list string) :=
  match items with
  | [] => Some []
  | JString s :: rest =>
      match strings rest with Some l => Some (s :: l) | None => None end
  | _ :: _ => None
  end.

(** A parsed field read at the type [string[] | undefined]. *)
Definition optionalStrings (v : js_value) : option (option (list string)) :=
  match v with
  | JUndefined => Some None
  | JArray items =>
      match strings items with Some l => Some (Some l) | None => None end
  | _ => None
  end.

(** A parsed server read at the declared type [ServerConfig], when its fields
    have the declared types. *)
Definition typed (p : ParsedServer) : option ServerConfig.t :=
  match parsed_name p, parsed_transport p, optionalString (parsed_command p),
        optionalStrings (parsed_args p), optionalString (parsed_cwd p),
        optionalString (parsed_url p) with
  | JString name, JString kind, Some command, Some args, Some cwd, Some url =>
      match (if String.eqb kind "stdio" then Some ServerConfig.stdio
             else if String.eqb kind "http" then Some ServerConfig.http
             else None) with
      | Some transport =>
          Some {| ServerConfig.name := name;
                  ServerConfig.transport := transport;
                  ServerConfig.command := command;
                  ServerConfig.args := args;
                  ServerConfig.cwd := cwd;
                  ServerConfig.env := parsed_env p;
                  ServerConfig.url := url;
                  ServerConfig.headers := parsed_headers p;
                  ServerConfig.allowPrivateUrls :=
                    Some (parsed_allowPrivateUrls p);
                  ServerConfig.timeout := parsed_timeout p |}
      | None => None
      end
  | _, _, _, _, _, _ => None
  end.

(** What the scan holds back in each state, to be copied if no match
    follows. *)
Definition pending (state : Scan) : string :=
  match state with
  | Outside => EmptyString
  | AfterDollar => "$"
  | InName name => "${" ++ name
  end.

(** An object all of whose values are strings. *)
Definition record (fields : list (string * string)) : js_value :=
  JObject (List.map (fun kv => (fst kv, JString (snd kv))) fields).

(** What [interpolateEnv] makes of one field. *)
Definition interpolatedField (processEnv : string -> option string)
  (kv : string * string) : string * string :=
  (fst kv, fst (replaceVars processEnv Outside (snd kv))).

(** An environment in which [PORT] is the only variable. *)
Definition portEnv (name : string) : option string :=
  if String.eqb name "PORT" then Some "8080" else None.

(** The fields an assignment keeps: all but [__proto__]. *)
Definition kept (fields : list (string * string)) : list (string * string) :=
  List.filter (fun kv => negb (String.eqb (fst kv) "__proto__")) fields.

(** A toy table for [new URL], enough for the examples. *)
Definition parsesAs (text : string) : option (string * string) :=
  if String.eqb text "http://localhost:3000/mcp" then
    Some ("http:", "localhost")
  else if String.eqb text "https://mcp.example.com/v1" then
    Some ("https:", "mcp.example.com")
  else if String.eqb text "ftp://example.com/files" then
    Some ("ftp:", "example.com")
  else None.

(** Decimal printing of an integer. *)
Definition decimal (n : Z) : string := NilEmpty.string_of_int (Z.to_int n).

(** Entries of a configuration. *)
Definition remoteEntry : js_value :=
  JObject [("name", JString "remote"); ("transport", JString "http");
           ("url", JString "https://mcp.example.com/v1");
           ("headers", JObject [("Authorization", JString "Bearer ${TOKEN}")])].

Definition localEntry : js_value :=
  JObject [("name", JString "files"); ("command", JString "mcp-files");
           ("args", JArray [JString "--port"; JString "${PORT}"]);
           ("env", JObject [("PORT", JString "${PORT}")])].

Definition numericEnvEntry : js_value :=
  JObject [("name", JString "files"); ("command", JString "mcp-files");
           ("env", JObject [("PORT", JNumber 8080)])].

Definition socketEntry : js_value :=
  JObject [("name", JString "socket"); ("transport", JString "websocket")].

Definition namelessEntry : js_value :=
  JObject [("command", JString "mcp-files")].

(** What an entry has shown when it passes the checks of [parseConfig]. *)
Definition checked (URL : string -> option (string * string))
  (numberToString : Z -> string) (srv : js_value) : Prop :=
  let transport := orElse (member srv "transport") (JString "stdio") in
  toBoolean (member srv "name") = true
  /\ (transport = JString "stdio" -> toBoolean (member srv "command") = true)
  /\ (transport = JString "http" ->
      toBoolean (member srv "url") = true
      /\ exists text protocol hostname,
        toString numberToString (member srv "url") = Some text
        /\ URL text = Some (protocol, hostname)
        /\ (protocol = "http:" \/ protocol = "https:")
        /\ (allowsPrivate srv = false -> isPrivateHost hostname = false)).

(** What [parseConfig] makes of [remoteEntry] and of [localEntry] under
    [portEnv]. *)
Definition remoteServer : ParsedServer :=
  {| parsed_name := JString "remote";
     parsed_transport := JString "http";
     parsed_command := JUndefined;
     parsed_args := JUndefined;
     parsed_cwd := JUndefined;
     parsed_env := None;
     parsed_url := JString "https://mcp.example.com/v1";
     parsed_headers := Some [("Authorization", "Bearer ")];
     parsed_allowPrivateUrls := false;
     parsed_timeout := None |}.

Definition localServer : ParsedServer :=
  {| parsed_name := JString "files";
     parsed_transport := JString "stdio";
     parsed_command := JString "mcp-files";
     parsed_args := JArray [JString "--port"; JString "${PORT}"];
     parsed_cwd := JUndefined;
     parsed_env := Some [("PORT", "8080")];
     parsed_url := JUndefined;
     parsed_headers := None;
     parsed_allowPrivateUrls := false;
     parsed_timeout := None |}.

Definition exampleConfig : js_value :=
  JObject [("servers", JArray [remoteEntry; localEntry])].

Definition exampleParsed : ParsedConfig :=
  {| parsed_servers := [remoteServer; localServer]; parsed_toolPrefix := true |}.

(** The same entry twice. *)
Definition twiceConfig : js_value :=
  JObject [("servers", JArray [localEntry; localEntry]);
           ("toolPrefix", JBool false)].

(** The entries [parseConfig] goes through. *)
Definition entriesOfConfig (raw : js_value) : Checked (list js_value) :=
  iterate (orElse (member (orElse raw (JObject [])) "servers") (JArray [])).

(** [remoteServer] at the declared type. *)
Definition remoteTyped : ServerConfig.t :=
  {| ServerConfig.name := "remote";
     ServerConfig.transport := ServerConfig.http;
     ServerConfig.command := None;
     ServerConfig.args := None;
     ServerConfig.cwd := None;
     ServerConfig.env := None;
     ServerConfig.url := Some "https://mcp.example.com/v1";
     ServerConfig.headers := Some [("Authorization", "Bearer ")];
     ServerConfig.allowPrivateUrls := Some false;
     ServerConfig.timeout := None |}.

(** *** More vocabulary for the Schema Advisory *)



(** Nothing the schema names is a member [args] inherits, and no declared
    field of [args] holds an array. *)
Definition ordinary (schema : ToolSchema) (args : js_value) : Prop :=
  (forall field, In field (demanded schema) -> inherits args field = false)
  /\ (forall field prop, In (field, prop) (declaredFields schema) ->
      inherits args field = false
      /\ forall items, property args field <> Some (JArray items)).

(** A tool that takes a list of paths. *)
Definition pathsSchema : ToolSchema :=
  {| schema_type := Some "object";
     properties := Some [("paths", Declares (Some "array"))];
     required := Some (Names ["paths"]) |}.

(** A schema that requires a name every object inherits. *)
Definition renderSchema : ToolSchema :=
  {| schema_type := Some "object";
     properties := None;
     required := Some (Names ["toString"; "city"]) |}.






(** After [twoServers]: closing the transport of the files server makes its
    [onclose] handler run. *)
Definition closeNotified : nat -> Response :=
  calmExcept 2 (meanwhile [TransportClosed "files"] calm).

(* ===================================================================== *)
(** * Properties *)

(** ** Strings *)

Lemma startsWith_app (p rest : string) : startsWith p (p ++ rest) = true.
Proof.
  induction p as [|a p IH]; simpl; [reflexivity|].
  now rewrite Ascii.eqb_refl, IH.
Qed.

Lemma startsWith_inv (p s : string) :
  startsWith p s = true -> exists rest, s = p ++ rest.
Proof.
  revert s; induction p as [|a p IH]; intros s H.
  - now exists s.
  - destruct s as [|b s]; simpl in H; [discriminate|].
    apply andb_prop in H as [Hab Hps].
    apply Ascii.eqb_eq in Hab; subst b.
    destruct (IH _ Hps) as [rest ->]. now exists rest.
Qed.

Lemma includes_here (needle msg : string) :
  startsWith needle msg = true -> includes needle msg = true.
Proof. intros H. destruct msg; simpl; now rewrite H. Qed.

(** [includes] is the substring test. *)
Lemma includes_spec (needle msg : string) :
  includes needle msg = true <-> exists before after, msg = before ++ needle ++ after.
Proof.
  split.
  - induction msg as [|c msg IH]; simpl; intros H.
    + rewrite orb_false_r in H. apply startsWith_inv in H as [rest ->].
      now exists EmptyString, rest.
    + apply orb_prop in H as [H|H].
      * apply startsWith_inv in H as [rest ->]. now exists EmptyString, rest.
      * destruct (IH H) as (b & a & ->). now exists (String c b), a.
  - intros (before & after & ->).
    induction before as [|c before IH]; simpl.
    + apply includes_here, startsWith_app.
    + rewrite IH. apply orb_true_r.
Qed.

(** ** Maps *)

Module JsMapFacts.
Section Facts.
Context {V : Type}.
Implicit Types (m : JsMap.t V) (k : string) (v : V).

Lemma get_set_same k v m : JsMap.get k (JsMap.set k v m) = Some v.
Proof.
  induction m as [|[k' v'] m IH]; simpl.
  - now rewrite String.eqb_refl.
  - destruct (String.eqb k k') eqn:E; simpl; rewrite E; [reflexivity|exact IH].
Qed.

Lemma get_set_other k k' v m :
  k <> k' -> JsMap.get k' (JsMap.set k v m) = JsMap.get k' m.
Proof.
  intros Hne. induction m as [|[k0 v0] m IH]; simpl.
  - destruct (String.eqb k' k) eqn:E; [|reflexivity].
    apply String.eqb_eq in E. congruence.
  - destruct (String.eqb k k0) eqn:E; simpl.
    + apply String.eqb_eq in E; subst k0.
      destruct (String.eqb k' k) eqn:E'; [|reflexivity].
      apply String.eqb_eq in E'. congruence.
    + now rewrite IH.
Qed.

Lemma get_delete_same k m : JsMap.get k (JsMap.delete k m) = None.
Proof.
  induction m as [|[k' v'] m IH]; simpl; [reflexivity|].
  destruct (String.eqb k k') eqn:E; simpl; [exact IH|now rewrite E].
Qed.

Lemma get_delete_other k k' m :
  k <> k' -> JsMap.get k' (JsMap.delete k m) = JsMap.get k' m.
Proof.
  intros Hne. induction m as [|[k0 v0] m IH]; simpl; [reflexivity|].
  destruct (String.eqb k k0) eqn:E; simpl.
  - apply String.eqb_eq in E; subst k0.
    destruct (String.eqb k' k) eqn:E'; [|exact IH].
    apply String.eqb_eq in E'. congruence.
  - now rewrite IH.
Qed.

(** Deleting never brings a binding in. *)
Lemma get_delete_inv k k' m v :
  JsMap.get k' (JsMap.delete k m) = Some v -> JsMap.get k' m = Some v /\ k <> k'.
Proof.
  intros H. destruct (string_dec k k') as [->|Hne].
  - now rewrite get_delete_same in H.
  - now rewrite get_delete_other in H.
Qed.

Lemma get_in_keys k m v : JsMap.get k m = Some v -> In k (JsMap.keys m).
Proof.
  induction m as [|[k' v'] m IH]; simpl; [discriminate|].
  destruct (String.eqb k k') eqn:E; intros H.
  - left. apply String.eqb_eq in E. now subst.
  - right. now apply IH.
Qed.

Lemma not_in_keys_get k m : ~ In k (JsMap.keys m) -> JsMap.get k m = None.
Proof.
  intros H. destruct (JsMap.get k m) eqn:E; [|reflexivity].
  now apply get_in_keys in E.
Qed.

Lemma in_keys_set k k' v m :
  In k' (JsMap.keys (JsMap.set k v m)) -> k' = k \/ In k' (JsMap.keys m).
Proof.
  induction m as [|[k0 v0] m IH]; simpl.
  - intros [<-|[]]. now left.
  - destruct (String.eqb k k0) eqn:E; simpl.
    + intros [<-|H]; right; [now left|now right].
    + intros [<-|H]; [right; now left|].
      destruct (IH H) as [->|H']; [now left|right; now right].
Qed.

Lemma in_keys_delete k k' m :
  In k' (JsMap.keys (JsMap.delete k m)) -> In k' (JsMap.keys m) /\ k' <> k.
Proof.
  induction m as [|[k0 v0] m IH]; simpl; [intros []|].
  destruct (String.eqb k k0) eqn:E; simpl.
  - intros H. destruct (IH H). split; [now right|assumption].
  - intros [<-|H].
    + split; [now left|]. apply String.eqb_neq in E. congruence.
    + destruct (IH H). split; [now right|assumption].
Qed.

(** A map never holds two entries for one key. *)
Lemma NoDup_keys_set k v m :
  NoDup (JsMap.keys m) -> NoDup (JsMap.keys (JsMap.set k v m)).
Proof.
  induction m as [|[k0 v0] m IH]; simpl; intros H.
  - constructor; [intros []|constructor].
  - inversion H as [|? ? Hnotin Hnd]; subst.
    destruct (String.eqb k k0) eqn:E; simpl.
    + now constructor.
    + constructor; [|now apply IH].
      intros Hin. apply in_keys_set in Hin as [->|Hin]; [|contradiction].
      now rewrite String.eqb_refl in E.
Qed.

Lemma NoDup_keys_delete k m :
  NoDup (JsMap.keys m) -> NoDup (JsMap.keys (JsMap.delete k m)).
Proof.
  induction m as [|[k0 v0] m IH]; simpl; intros H; [constructor|].
  inversion H as [|? ? Hnotin Hnd]; subst.
  destruct (String.eqb k k0); simpl; [now apply IH|].
  constructor; [|now apply IH].
  intros Hin. now apply in_keys_delete in Hin as [Hin _].
Qed.

(** With distinct keys, deleting the first key leaves the tail. *)
Lemma delete_head k v m :
  ~ In k (JsMap.keys m) -> JsMap.delete k ((k, v) :: m) = m.
Proof.
  intros H. simpl. rewrite String.eqb_refl.
  induction m as [|[k0 v0] m IH]; simpl; [reflexivity|].
  simpl in H. destruct (String.eqb k k0) eqn:E.
  - apply String.eqb_eq in E. subst. exfalso. apply H. now left.
  - f_equal. apply IH. intros Hin. apply H. now right.
Qed.
End Facts.
End JsMapFacts.

(** ** Interference *)

(** The cases of one interference: a handler that finds the session, a
    handler that does not, an overlapping close. *)
Ltac handlers i n :=
  destruct i as [n ?|n|n]; cbn [interfere said];
  [unfold markDisconnected; cbn [reframe clients];
   destruct (JsMap.get n (clients _))
  |unfold markDisconnected; cbn [reframe clients];
   destruct (JsMap.get n (clients _))
  |].

Section Frame.
Implicit Types (l : list Interference) (s : State).

(** The lines of the handlers are appended to whatever is on the console. *)
Lemma interfere_reframe f c h k s i :
  interfere (reframe f c h k s) i = reframe f c h (k ++ said i) (interfere s i).
Proof.
  handlers i n; try reflexivity.
  cbn [said]. now rewrite app_nil_r.
Qed.

Lemma disturb_reframe f c h k l s :
  disturb l (reframe f c h k s) = reframe f c h (k ++ voices l) (disturb l s).
Proof.
  revert k s; induction l as [|i l IH]; intros k s.
  - cbn. now rewrite app_nil_r.
  - change (disturb (i :: l) ?x) with (disturb l (interfere x i)).
    rewrite interfere_reframe, IH. unfold voices. cbn [flat_map].
    now rewrite app_assoc.
Qed.

Lemma interfere_bookkeeping s i :
  fresh (interfere s i) = fresh s /\ clock (interfere s i) = clock s
  /\ history (interfere s i) = history s
  /\ console (interfere s i) = (console s ++ said i)%list.
Proof.
  handlers i n; repeat split. cbn. now rewrite app_nil_r.
Qed.

Lemma disturb_bookkeeping l s :
  fresh (disturb l s) = fresh s /\ clock (disturb l s) = clock s
  /\ history (disturb l s) = history s
  /\ console (disturb l s) = (console s ++ voices l)%list.
Proof.
  revert s; induction l as [|i l IH]; intros s.
  - repeat split. cbn. now rewrite app_nil_r.
  - change (disturb (i :: l) s) with (disturb l (interfere s i)).
    destruct (IH (interfere s i)) as (-> & -> & -> & ->).
    destruct (interfere_bookkeeping s i) as (-> & -> & -> & ->).
    repeat split. unfold voices. cbn [flat_map]. now rewrite app_assoc.
Qed.

(** Interference flips [connected] to false and nothing else in an entry. *)
Lemma interfere_entry s i r :
  config (objects (interfere s i) r) = config (objects s r)
  /\ client (objects (interfere s i) r) = client (objects s r)
  /\ transport (objects (interfere s i) r) = transport (objects s r)
  /\ toolSchemas (objects (interfere s i) r) = toolSchemas (objects s r)
  /\ (connected (objects (interfere s i) r) = true -> connected (objects s r) = true).
Proof.
  handlers i n; try (now repeat split);
    cbn; destruct (Nat.eqb r _); cbn; repeat split; auto; discriminate.
Qed.

Lemma disturb_entry l s r :
  config (objects (disturb l s) r) = config (objects s r)
  /\ client (objects (disturb l s) r) = client (objects s r)
  /\ transport (objects (disturb l s) r) = transport (objects s r)
  /\ toolSchemas (objects (disturb l s) r) = toolSchemas (objects s r)
  /\ (connected (objects (disturb l s) r) = true -> connected (objects s r) = true).
Proof.
  revert s; induction l as [|i l IH]; intros s; [now repeat split|].
  change (disturb (i :: l) s) with (disturb l (interfere s i)).
  destruct (IH (interfere s i)) as (-> & -> & -> & -> & Hc).
  destruct (interfere_entry s i r) as (-> & -> & -> & -> & Hc').
  repeat split; auto.
Qed.

(** Interference removes bindings and never adds or redirects one. *)
Lemma interfere_lookup s i name entry :
  JsMap.get name (clients (interfere s i)) = Some entry ->
  JsMap.get name (clients s) = Some entry.
Proof.
  handlers i n; try (intros H; exact H).
  intros H. now apply JsMapFacts.get_delete_inv in H.
Qed.

Lemma disturb_lookup l s name entry :
  JsMap.get name (clients (disturb l s)) = Some entry ->
  JsMap.get name (clients s) = Some entry.
Proof.
  revert s; induction l as [|i l IH]; intros s; [easy|].
  change (disturb (i :: l) s) with (disturb l (interfere s i)).
  intros H. now apply IH, interfere_lookup in H.
Qed.

Lemma disturb_absent l s name :
  JsMap.get name (clients s) = None ->
  JsMap.get name (clients (disturb l s)) = None.
Proof.
  intros H. destruct (JsMap.get name (clients (disturb l s))) eqn:E; [|reflexivity].
  apply disturb_lookup in E. congruence.
Qed.

Lemma interfere_NoDup s i :
  NoDup (JsMap.keys (clients s)) -> NoDup (JsMap.keys (clients (interfere s i))).
Proof.
  handlers i n; try (intros H; exact H).
  apply JsMapFacts.NoDup_keys_delete.
Qed.

Lemma disturb_NoDup l s :
  NoDup (JsMap.keys (clients s)) -> NoDup (JsMap.keys (clients (disturb l s))).
Proof.
  revert s; induction l as [|i l IH]; intros s; [easy|].
  change (disturb (i :: l) s) with (disturb l (interfere s i)).
  intros H. now apply IH, interfere_NoDup.
Qed.
End Frame.

(** ** What one run of each operation does *)

Ltac tidy :=
  repeat (progress cbn [reframe fresh clock history console objects clients
                        with_clients with_object install fst snd]
          || rewrite disturb_reframe).

Ltac tidy_in H :=
  repeat (progress cbn [reframe fresh clock history console objects clients
                        with_clients with_object install fst snd] in H
          || rewrite disturb_reframe in H).

Section Runs.
Variable env : nat -> Response.
Implicit Types (s : State).

Lemma await_run ev s :
  await env ev s =
  (Return (env (clock s)),
   reframe (fresh s) (S (clock s)) (history s ++ [ev])
     (console s ++ voices (during (env (clock s))))
     (disturb (during (env (clock s))) s)).
Proof. unfold await. now rewrite disturb_reframe. Qed.

Lemma console_write_all_run l lines s :
  console_write_all l lines s =
  (Return tt,
   reframe (fresh s) (clock s) (history s)
     (console s ++ List.map (pair l) lines) s).
Proof.
  revert s; induction lines as [|line lines IH]; intros [c o f k h co].
  - unfold reframe; simpl. now rewrite app_nil_r.
  - simpl. unfold bind, console_write, modify at 1. simpl.
    rewrite IH. unfold reframe; simpl. now rewrite <- app_assoc.
Qed.

Lemma client_callTool_run entry toolName args s :
  client_callTool env entry toolName args s =
  (match calling (env (clock s)) with
   | inl err => Throw err
   | inr result => Return result
   end,
   reframe (fresh s) (S (clock s))
     (history s ++ [CallTool (client (objects s entry)) toolName args])
     (console s ++ voices (during (env (clock s))))
     (disturb (during (env (clock s))) s)).
Proof.
  unfold client_callTool, bind, gets. rewrite await_run.
  now destruct (calling (env (clock s))).
Qed.

Lemma transport_close_run entry s :
  transport_close env entry s =
  (match closing (env (clock s)) with
   | Some err => Throw err
   | None => Return tt
   end,
   reframe (fresh s) (S (clock s))
     (history s ++ [Close (transport (objects s entry))])
     (console s ++ voices (during (env (clock s))))
     (disturb (during (env (clock s))) s)).
Proof.
  unfold transport_close, bind, gets. rewrite await_run.
  now destruct (closing (env (clock s))).
Qed.

Lemma connect_run cfg s :
  connect env cfg s =
  match createTransport cfg with
  | Throw err =>
      (Throw err, reframe (S (fresh s)) (clock s) (history s) (console s) s)
  | Return how =>
      let waited :=
        reframe (S (fresh s)) (S (clock s))
          (history s ++ [Handshake (fresh s) how])
          (console s ++ voices (during (env (clock s))))
          (disturb (during (env (clock s))) s) in
      match handshake (env (clock s)) with
      | Some err => (Throw err, waited)
      | None => (Return (fresh s), install cfg (fresh s) waited)
      end
  end.
Proof.
  unfold connect, bind, new_client, lift. cbv beta iota.
  destruct (createTransport cfg) as [how|err]; [|reflexivity].
  rewrite await_run, disturb_reframe. cbv beta iota zeta.
  destruct (handshake (env _)); reflexivity.
Qed.
Lemma reconnect_missing serverName s :
  JsMap.get serverName (clients s) = None ->
  reconnect env serverName s = (Return tt, s).
Proof. intros H. unfold reconnect, bind, lookup, gets. now rewrite H. Qed.

Lemma reconnect_found serverName entry s :
  JsMap.get serverName (clients s) = Some entry ->
  reconnect env serverName s =
  let announce := (Log, "[mcp-adapter] Reconnecting to " ++ serverName ++ "...") in
  let complaint :=
    match closing (env (clock s)) with
    | Some err =>
        [(Warn, "[mcp-adapter] " ++ serverName
                ++ " close error during reconnect: " ++ String_ err)]
    | None => []
    end in
  let torn :=
    reframe (fresh s) (S (clock s))
      (history s ++ [Close (transport (objects s entry))])
      (((console s ++ [announce]) ++ voices (during (env (clock s))))
       ++ complaint)
      (with_clients (JsMap.delete serverName)
         (disturb (during (env (clock s))) s)) in
  match connect env (config (objects s entry)) torn with
  | (Return _, s') =>
      (Return tt,
       reframe (fresh s') (clock s') (history s')
         (console s' ++ [(Log, "[mcp-adapter] Reconnected to " ++ serverName)]) s')
  | (Throw err, s') => (Throw err, s')
  end.
Proof.
  intros H. unfold reconnect, bind at 1, lookup, gets. rewrite H.
  unfold bind at 1, console_write at 1, modify at 1.
  unfold bind at 1, try_catch. rewrite transport_close_run. tidy.
  destruct (disturb_entry (during (env (clock s))) s entry) as (Hcfg & _).
  destruct (closing (env (clock s))) as [err|];
    unfold bind, console_write, modify, gets; tidy;
    rewrite ?Hcfg, ?app_nil_r; reflexivity.
Qed.
End Runs.

Section CallTool.
Variable env : nat -> Response.
Implicit Types (s : State).

Lemma callTool_missing serverName toolName args s :
  JsMap.get serverName (clients s) = None ->
  callTool env serverName toolName args s = (Throw (UnknownServerError serverName), s).
Proof. intros H. unfold callTool, bind, lookup, gets. now rewrite H. Qed.

(** The state after the check of the arguments: the lines it has warned
    are on the console. *)
Lemma callTool_found serverName toolName args entry s :
  JsMap.get serverName (clients s) = Some entry ->
  callTool env serverName toolName args s =
  let advice :=
    warnOnSchemaViolations serverName toolName args
      (toolSchemas (objects s entry)) in
  let checked :=
    reframe (fresh s) (clock s) (history s)
      (console s ++ List.map (pair Warn) (warned advice)) s in
  match raised advice with
  | Some typeError => (Throw typeError, checked)
  | None =>
      match client_callTool env entry toolName args checked with
      | (Return result, s1) => (Return result, s1)
      | (Throw err, s1) =>
          if negb (connected (objects s1 entry)) || isConnectionError err
          then retry env serverName toolName args s1
          else (Throw err, s1)
      end
  end.
Proof.
  intros H. unfold callTool, bind at 1, lookup, gets. rewrite H.
  unfold bind at 1. cbv zeta. unfold bind at 1. rewrite console_write_all_run.
  destruct (raised (warnOnSchemaViolations serverName toolName args
                      (toolSchemas (objects s entry)))) as [typeError|];
    [reflexivity|].
  unfold try_catch.
  destruct (client_callTool env entry toolName args _) as [[result|err] s1];
    [reflexivity|].
  unfold bind at 1. cbv beta iota.
  now destruct (negb (connected (objects s1 entry)) || isConnectionError err).
Qed.

(** When the check returns, the call is dispatched. *)
Lemma callTool_passed serverName toolName args entry s :
  JsMap.get serverName (clients s) = Some entry ->
  raised (warnOnSchemaViolations serverName toolName args
            (toolSchemas (objects s entry))) = None ->
  callTool env serverName toolName args s =
  let checked :=
    reframe (fresh s) (clock s) (history s)
      (console s ++ List.map (pair Warn)
         (warned (warnOnSchemaViolations serverName toolName args
                    (toolSchemas (objects s entry))))) s in
  match client_callTool env entry toolName args checked with
  | (Return result, s1) => (Return result, s1)
  | (Throw err, s1) =>
      if negb (connected (objects s1 entry)) || isConnectionError err
      then retry env serverName toolName args s1
      else (Throw err, s1)
  end.
Proof.
  intros H Hpass. rewrite (callTool_found serverName toolName args entry s H).
  cbv zeta. now rewrite Hpass.
Qed.

(** When the check throws, nothing is dispatched. *)
Lemma callTool_blocked serverName toolName args entry s typeError :
  JsMap.get serverName (clients s) = Some entry ->
  raised (warnOnSchemaViolations serverName toolName args
            (toolSchemas (objects s entry))) = Some typeError ->
  callTool env serverName toolName args s =
  (Throw typeError,
   reframe (fresh s) (clock s) (history s)
     (console s ++ List.map (pair Warn)
        (warned (warnOnSchemaViolations serverName toolName args
                   (toolSchemas (objects s entry))))) s).
Proof.
  intros H Hblock. rewrite (callTool_found serverName toolName args entry s H).
  cbv zeta. now rewrite Hblock.
Qed.

Lemma connectCount_app h h' :
  connectCount (h ++ h') = connectCount h + connectCount h'.
Proof. unfold connectCount. now rewrite filter_app, length_app. Qed.

Lemma callCount_app h h' : callCount (h ++ h') = callCount h + callCount h'.
Proof. unfold callCount. now rewrite filter_app, length_app. Qed.
End CallTool.

Ltac counts :=
  rewrite ?connectCount_app, ?callCount_app;
  unfold connectCount, callCount; simpl; lia.

Section Retry.
Variable env : nat -> Response.
Implicit Types (s : State).

Lemma retry_missing serverName toolName args s :
  JsMap.get serverName (clients s) = None ->
  retry env serverName toolName args s = (Throw (ReconnectFailedError serverName), s).
Proof.
  intros H. unfold retry, bind. rewrite (reconnect_missing env serverName s H).
  unfold lookup, gets. now rewrite H.
Qed.

Lemma retry_unfold serverName toolName args s :
  retry env serverName toolName args s =
  match reconnect env serverName s with
  | (Return _, s2) =>
      match JsMap.get serverName (clients s2) with
      | None => (Throw (ReconnectFailedError serverName), s2)
      | Some newEntry => client_callTool env newEntry toolName args s2
      end
  | (Throw e, s2) => (Throw e, s2)
  end.
Proof.
  unfold retry, bind at 1.
  destruct (reconnect env serverName s) as [[[]|e] s2]; [|reflexivity].
  unfold bind, lookup, gets.
  now destruct (JsMap.get serverName (clients s2)).
Qed.

(** The retry on a session that is still registered under its own name. *)
Lemma retry_found serverName toolName args entry s :
  JsMap.get serverName (clients s) = Some entry ->
  ServerConfig.name (config (objects s entry)) = serverName ->
  let run := retry env serverName toolName args s in
  let teardown := Close (transport (objects s entry)) in
  match createTransport (config (objects s entry)) with
  | Throw e =>
      fst run = Throw e
      /\ history (snd run) = (history s ++ [teardown])%list
      /\ JsMap.get serverName (clients (snd run)) = None
  | Return how =>
      let again := Handshake (fresh s) how in
      match handshake (env (1 + clock s)) with
      | Some e =>
          fst run = Throw e
          /\ history (snd run) = (history s ++ [teardown; again])%list
          /\ JsMap.get serverName (clients (snd run)) = None
      | None =>
          fst run =
            match calling (env (2 + clock s)) with
            | inl e => Throw e
            | inr result => Return result
            end
          /\ history (snd run) =
               (history s ++ [teardown; again; CallTool (fresh s) toolName args])%list
      end
  end.
Proof.
  intros Hfound Hname run teardown. subst run teardown.
  change (1 + clock s) with (S (clock s)).
  change (2 + clock s) with (S (S (clock s))).
  rewrite retry_unfold, (reconnect_found env serverName entry s Hfound). cbv zeta.
  rewrite connect_run. tidy.
  set (torn := with_clients (JsMap.delete serverName) (disturb _ s)).
  assert (Hgone : forall l, JsMap.get serverName (clients (disturb l torn)) = None).
  { intros l. apply disturb_absent. apply JsMapFacts.get_delete_same. }
  destruct (createTransport (config (objects s entry))) as [how|e].
  2:{ tidy. repeat split. apply (Hgone []). }
  cbv zeta. tidy.
  destruct (handshake (env (S (clock s)))) as [e|].
  { tidy. rewrite <- app_assoc. repeat split. apply Hgone. }
  tidy. rewrite Hname, JsMapFacts.get_set_same.
  rewrite client_callTool_run. tidy.
  rewrite Nat.eqb_refl. cbn [client].
  rewrite <- !app_assoc. split; [|reflexivity].
  now destruct (calling (env (S (S (clock s))))).
Qed.
End Retry.

Section RetryPolicy.
Variable env : nat -> Response.

(** The retry policy, for a call that the check of the arguments lets
    through. *)
Lemma retry_policy
  (s : State) (serverName toolName : string) (args : js_value) (entry : nat) :
  JsMap.get serverName (clients s) = Some entry ->
  ServerConfig.name (config (objects s entry)) = serverName ->
  raised (warnOnSchemaViolations serverName toolName args
            (toolSchemas (objects s entry))) = None ->
  let answer := env (clock s) in
  let settled := disturb (during answer) s in
  let first := CallTool (client (objects s entry)) toolName args in
  let run := callTool env serverName toolName args s in
  (forall result, calling answer = inr result ->
     fst run = Return result /\ history (snd run) = (history s ++ [first])%list)
  /\ (forall err, calling answer = inl err ->
      connected (objects settled entry) = true ->
      isConnectionError err = false ->
      fst run = Throw err /\ history (snd run) = (history s ++ [first])%list)
  /\ (forall err, calling answer = inl err ->
      connected (objects settled entry) = false \/ isConnectionError err = true ->
      match JsMap.get serverName (clients settled) with
      | None =>
          fst run = Throw (ReconnectFailedError serverName)
          /\ history (snd run) = (history s ++ [first])%list
      | Some old =>
          old = entry /\
          let teardown := Close (transport (objects s entry)) in
          match createTransport (config (objects s entry)) with
          | Throw e =>
              fst run = Throw e
              /\ history (snd run) = (history s ++ [first; teardown])%list
          | Return how =>
              let again := Handshake (fresh s) how in
              match handshake (env (2 + clock s)) with
              | Some e =>
                  fst run = Throw e
                  /\ history (snd run) =
                       (history s ++ [first; teardown; again])%list
              | None =>
                  fst run =
                    match calling (env (3 + clock s)) with
                    | inl e => Throw e
                    | inr result => Return result
                    end
                  /\ history (snd run) =
                       (history s ++ [first; teardown; again;
                                      CallTool (fresh s) toolName args])%list
              end
          end
      end)
  /\ connectCount (history (snd run)) <= 1 + connectCount (history s)
  /\ callCount (history (snd run)) <= 2 + callCount (history s).
Proof.
  intros Hfound Hname Hpass answer settled first run. subst run.
  rewrite (callTool_passed env serverName toolName args entry s Hfound Hpass).
  cbv zeta.
  rewrite client_callTool_run. tidy. fold answer. fold settled.
  destruct (calling answer) as [err|result] eqn:Hcall.
  2:{ tidy. repeat split; intros; try congruence; counts. }
  tidy.
  destruct (disturb_entry (during answer) s entry) as (Hcfg & _ & Htr & _).
  fold settled in Hcfg, Htr.
  set (s1 := reframe _ _ _ _ _).
  destruct (negb (connected (objects settled entry)) || isConnectionError err)
    eqn:Hcond.
  2:{ apply orb_false_elim in Hcond as [Hc He]. apply negb_false_iff in Hc.
      subst s1; tidy.
      split; [intros; congruence|].
      split; [intros e0 [= <-] _ _; now split|].
      split; [intros e0 [= <-] [H|H]; congruence|].
      split; counts. }
  split; [intros; congruence|].
  split.
  { intros e0 [= <-] Hc He. rewrite Hc, He in Hcond. discriminate. }
  destruct (JsMap.get serverName (clients settled)) as [old|] eqn:Hold.
  2:{ rewrite (retry_missing env serverName toolName args s1 Hold).
      subst s1; tidy. split; [intros; now split|]. split; counts. }
  assert (old = entry) as ->.
  { apply disturb_lookup in Hold. congruence. }
  pose proof (retry_found env serverName toolName args entry s1 Hold) as R.
  subst s1. tidy. tidy_in R. rewrite Hcfg, Htr in R. specialize (R Hname).
  cbv zeta in R. cbv zeta.
  change (2 + clock s) with (S (S (clock s))).
  change (3 + clock s) with (S (S (S (clock s)))).
  change (1 + S (clock s)) with (S (S (clock s))) in R.
  change (2 + S (clock s)) with (S (S (S (clock s)))) in R.
  destruct (createTransport (config (objects s entry))) as [how|e].
  - destruct (handshake (env (S (S (clock s))))) as [e|].
    + destruct R as (-> & -> & _). rewrite <- app_assoc.
      split; [intros; split; [reflexivity|]; now split|]. split; counts.
    + destruct R as (-> & ->). rewrite <- app_assoc.
      split; [intros; split; [reflexivity|]; now split|]. split; counts.
  - destruct R as (-> & -> & _). rewrite <- app_assoc.
    split; [intros; split; [reflexivity|]; now split|]. split; counts.
Qed.

(** C1.  [callTool] on an existing session whose check of the arguments
    returns: a call that succeeds is returned as it is; a call that fails
    while the session is still marked connected and with a failure that is
    not connection-class propagates unchanged; a call that fails otherwise
    leads to one reconnect-and-retry: the transport of the old session is
    closed (whatever closing yields), [connect] runs once on the descriptor
    of the old session, and the call is issued once more on the new client,
    its result or failure being final.  When no session is left under the
    name at that point, the failure is [ReconnectFailedError] and nothing
    more is issued.  When the check of the arguments throws, that is the
    failure and nothing is issued.  In every case at most one [connect] and
    at most two calls are issued. *)
Theorem callTool_retries_at_most_once
  (s : State) (serverName toolName : string) (args : js_value) (entry : nat) :
  JsMap.get serverName (clients s) = Some entry ->
  ServerConfig.name (config (objects s entry)) = serverName ->
  let advice :=
    warnOnSchemaViolations serverName toolName args
      (toolSchemas (objects s entry)) in
  let answer := env (clock s) in
  let settled := disturb (during answer) s in
  let first := CallTool (client (objects s entry)) toolName args in
  let run := callTool env serverName toolName args s in
  (forall typeError, raised advice = Some typeError ->
     fst run = Throw typeError /\ history (snd run) = history s)
  /\ (raised advice = None ->
      (forall result, calling answer = inr result ->
         fst run = Return result
         /\ history (snd run) = (history s ++ [first])%list)
      /\ (forall err, calling answer = inl err ->
          connected (objects settled entry) = true ->
          isConnectionError err = false ->
          fst run = Throw err
          /\ history (snd run) = (history s ++ [first])%list)
      /\ (forall err, calling answer = inl err ->
          connected (objects settled entry) = false
          \/ isConnectionError err = true ->
          match JsMap.get serverName (clients settled) with
          | None =>
              fst run = Throw (ReconnectFailedError serverName)
              /\ history (snd run) = (history s ++ [first])%list
          | Some old =>
              old = entry /\
              let teardown := Close (transport (objects s entry)) in
              match createTransport (config (objects s entry)) with
              | Throw e =>
                  fst run = Throw e
                  /\ history (snd run) = (history s ++ [first; teardown])%list
              | Return how =>
                  let again := Handshake (fresh s) how in
                  match handshake (env (2 + clock s)) with
                  | Some e =>
                      fst run = Throw e
                      /\ history (snd run) =
                           (history s ++ [first; teardown; again])%list
                  | None =>
                      fst run =
                        match calling (env (3 + clock s)) with
                        | inl e => Throw e
                        | inr result => Return result
                        end
                      /\ history (snd run) =
                           (history s ++ [first; teardown; again;
                                          CallTool (fresh s) toolName args])%list
                  end
              end
          end))
  /\ connectCount (history (snd run)) <= 1 + connectCount (history s)
  /\ callCount (history (snd run)) <= 2 + callCount (history s).
Proof.
  intros Hfound Hname advice answer settled first run.
  destruct (raised advice) as [typeError|] eqn:Hraised.
  - subst run advice.
    rewrite (callTool_blocked env serverName toolName args entry s typeError
               Hfound Hraised). tidy.
    split; [intros e [= <-]; now split|].
    split; [discriminate|]. split; lia.
  - destruct (retry_policy s serverName toolName args entry Hfound Hname Hraised)
      as (H1 & H2 & H3 & Hconnects & Hcalls).
    split; [discriminate|].
    split; [intros _; split; [exact H1|split; [exact H2|exact H3]]|].
    split; [exact Hconnects|exact Hcalls].
Qed.
End RetryPolicy.

(** A dropped channel on the only call: one reconnect, and the retried call
    answers. *)
Lemma callTool_retries_at_most_once_witness :
  JsMap.get "files" (clients filesPool) = Some 0
  /\ ServerConfig.name (config (objects filesPool 0)) = "files"
  /\ fst (callTool (calmExcept 1 (callFails channelClosed)) "files" "read_file"
            (JObject []) filesPool) = Return greeting.
Proof.
  split; [reflexivity|]. split; [reflexivity|].
  destruct (callTool_retries_at_most_once
              (calmExcept 1 (callFails channelClosed)) filesPool "files"
              "read_file" (JObject []) 0 eq_refl eq_refl) as (_ & H & _).
  destruct (H eq_refl) as (_ & _ & H3).
  exact (proj1 (proj2 (H3 channelClosed eq_refl (or_intror eq_refl)))).
Defined.

Section FailedReconnect.
Variable env : nat -> Response.

Lemma failed_reconnect
  (s : State) (serverName toolName : string) (args : js_value) (entry : nat)
  (err connectFailure : thrown) :
  JsMap.get serverName (clients s) = Some entry ->
  ServerConfig.name (config (objects s entry)) = serverName ->
  raised (warnOnSchemaViolations serverName toolName args
            (toolSchemas (objects s entry))) = None ->
  let answer := env (clock s) in
  let settled := disturb (during answer) s in
  calling answer = inl err ->
  connected (objects settled entry) = false \/ isConnectionError err = true ->
  JsMap.get serverName (clients settled) = Some entry ->
  createTransport (config (objects s entry)) = Throw connectFailure
  \/ (exists how, createTransport (config (objects s entry)) = Return how
                  /\ handshake (env (2 + clock s)) = Some connectFailure) ->
  let run := callTool env serverName toolName args s in
  fst run = Throw connectFailure
  /\ JsMap.get serverName (clients (snd run)) = None.
Proof.
  intros Hfound Hname Hpass answer settled Hcall Hcond Hstill Hconnect run.
  subst run.
  rewrite (callTool_passed env serverName toolName args entry s Hfound Hpass).
  cbv zeta.
  rewrite client_callTool_run. tidy. fold answer. fold settled. rewrite Hcall.
  destruct (disturb_entry (during answer) s entry) as (Hcfg & _ & Htr & _).
  fold settled in Hcfg, Htr.
  set (s1 := reframe _ _ _ _ _).
  replace (negb (connected (objects settled entry)) || isConnectionError err)
    with true.
  2:{ symmetry. destruct Hcond as [-> | ->]; [reflexivity|apply orb_true_r]. }
  pose proof (retry_found env serverName toolName args entry s1 Hstill) as R.
  subst s1. tidy. tidy_in R. rewrite Hcfg in R. specialize (R Hname).
  cbv zeta in R.
  change (1 + S (clock s)) with (S (S (clock s))) in R.
  change (2 + clock s) with (S (S (clock s))) in Hconnect.
  destruct Hconnect as [Hct | (how & Hct & Hhs)]; rewrite Hct in R.
  - destruct R as (-> & _ & ->). now split.
  - rewrite Hhs in R. destruct R as (-> & _ & ->). now split.
Qed.

(** C10.  When the call fails in a way that triggers the reconnect, the
    session is still registered, and the fresh [connect] fails (building the
    transport throws, or the handshake does), [callTool] throws that very
    failure and the pool is left without a session under the name.  The one
    other course is that the check of the arguments throws: then no call is
    issued, that failure is thrown, and the pool keeps its sessions. *)
Theorem failed_reconnect_leaves_no_session
  (s : State) (serverName toolName : string) (args : js_value) (entry : nat)
  (err connectFailure : thrown) :
  JsMap.get serverName (clients s) = Some entry ->
  ServerConfig.name (config (objects s entry)) = serverName ->
  let answer := env (clock s) in
  let settled := disturb (during answer) s in
  calling answer = inl err ->
  connected (objects settled entry) = false \/ isConnectionError err = true ->
  JsMap.get serverName (clients settled) = Some entry ->
  createTransport (config (objects s entry)) = Throw connectFailure
  \/ (exists how, createTransport (config (objects s entry)) = Return how
                  /\ handshake (env (2 + clock s)) = Some connectFailure) ->
  let run := callTool env serverName toolName args s in
  match raised (warnOnSchemaViolations serverName toolName args
                  (toolSchemas (objects s entry))) with
  | None =>
      fst run = Throw connectFailure
      /\ JsMap.get serverName (clients (snd run)) = None
  | Some typeError =>
      fst run = Throw typeError /\ clients (snd run) = clients s
  end.
Proof.
  intros Hfound Hname answer settled Hcall Hcond Hstill Hconnect run.
  destruct (raised _) as [typeError|] eqn:Hraised.
  - subst run.
    rewrite (callTool_blocked env serverName toolName args entry s typeError
               Hfound Hraised). now split.
  - exact (failed_reconnect s serverName toolName args entry err connectFailure
             Hfound Hname Hraised Hcall Hcond Hstill Hconnect).
Qed.
End FailedReconnect.

(** The channel drops and the server cannot be started again: the handshake
    failure reaches the caller and the pool forgets the server. *)
Lemma failed_reconnect_leaves_no_session_witness :
  JsMap.get "files" (clients filesPool) = Some 0
  /\ fst (callTool dropThenSpawnFails "files" "read_file" (JObject []) filesPool)
     = Throw spawnFails
  /\ JsMap.get "files"
       (clients (snd (callTool dropThenSpawnFails "files" "read_file"
                        (JObject []) filesPool))) = None.
Proof.
  split; [reflexivity|].
  apply (failed_reconnect_leaves_no_session dropThenSpawnFails filesPool
           "files" "read_file" (JObject []) 0 channelClosed spawnFails).
  - reflexivity.
  - reflexivity.
  - reflexivity.
  - right. reflexivity.
  - reflexivity.
  - right. eexists. split; reflexivity.
Defined.

(** ** Unknown servers *)

Section Unknown.
Variable env : nat -> Response.

Lemma listTools_missing serverName s :
  JsMap.get serverName (clients s) = None ->
  listTools env serverName s = (Throw (UnknownServerError serverName), s).
Proof. intros H. unfold listTools, bind, lookup, gets. now rewrite H. Qed.

(** C5.  For a name with no session in the pool, [getStatus] answers
    [connected: false], and [callTool] and [listTools] throw
    [UnknownServerError] without issuing anything or touching the pool. *)
Theorem no_session_no_service (s : State) (serverName toolName : string)
  (args : js_value) :
  JsMap.get serverName (clients s) = None ->
  getStatus serverName s = {| status_connected := false |}
  /\ callTool env serverName toolName args s
     = (Throw (UnknownServerError serverName), s)
  /\ listTools env serverName s = (Throw (UnknownServerError serverName), s).
Proof.
  intros H. split; [|split].
  - unfold getStatus. now rewrite H.
  - now apply callTool_missing.
  - now apply listTools_missing.
Qed.
End Unknown.

(** A pool that never connected anything knows no server. *)
Lemma no_session_no_service_witness :
  JsMap.get "files" (clients emptyPool) = None
  /\ getStatus "files" emptyPool = {| status_connected := false |}
  /\ callTool (fun _ => calm) "files" "read_file" (JObject []) emptyPool
     = (Throw (UnknownServerError "files"), emptyPool)
  /\ listTools (fun _ => calm) "files" emptyPool
     = (Throw (UnknownServerError "files"), emptyPool).
Proof.
  split; [reflexivity|].
  exact (no_session_no_service (fun _ => calm) emptyPool "files" "read_file"
           (JObject []) eq_refl).
Defined.

(** ** Closing *)

Lemma get_none_not_in_keys {V} (k : string) (m : JsMap.t V) :
  JsMap.get k m = None -> ~ In k (JsMap.keys m).
Proof.
  induction m as [|[k' v] m IH]; simpl; [tauto|].
  destruct (String.eqb k k') eqn:E; [discriminate|].
  apply String.eqb_neq in E. intros H [H'|H']; [congruence|now apply IH].
Qed.

Lemma keys_empty {V} (m : JsMap.t V) : JsMap.keys m = [] -> m = [].
Proof. now destruct m. Qed.

Lemma interfere_keys s i k :
  In k (JsMap.keys (clients (interfere s i))) -> In k (JsMap.keys (clients s)).
Proof.
  handlers i n; try (intros H; exact H).
  intros H. now apply JsMapFacts.in_keys_delete in H.
Qed.

Lemma disturb_keys l s k :
  In k (JsMap.keys (clients (disturb l s))) -> In k (JsMap.keys (clients s)).
Proof.
  revert s; induction l as [|i l IH]; intros s; [easy|].
  change (disturb (i :: l) s) with (disturb l (interfere s i)).
  intros H. now apply IH, interfere_keys in H.
Qed.

Lemma disturb_keeps_clients l s :
  (forall name, ~ In (SessionClosed name) l) ->
  clients (disturb l s) = clients s.
Proof.
  revert s; induction l as [|i l IH]; intros s Hl; [reflexivity|].
  change (disturb (i :: l) s) with (disturb l (interfere s i)).
  rewrite IH by (intros n Hn; apply (Hl n); now right).
  handlers i n; try reflexivity.
  exfalso. apply (Hl n). now left.
Qed.

Section Closing.
Variable env : nat -> Response.
Implicit Types (s : State).

Lemma close_missing serverName s :
  JsMap.get serverName (clients s) = None ->
  close env serverName s = (Return tt, s).
Proof. intros H. unfold close, bind, lookup, gets. now rewrite H. Qed.

Lemma close_found serverName entry s :
  JsMap.get serverName (clients s) = Some entry ->
  close env serverName s =
  (Return tt,
   reframe (fresh s) (S (clock s))
     (history s ++ [Close (transport (objects s entry))])
     (console s ++ voices (during (env (clock s))))
     (with_clients (JsMap.delete serverName)
        (disturb (during (env (clock s))) s))).
Proof.
  intros H. unfold close, bind at 1, lookup, gets. rewrite H.
  unfold bind, try_catch. rewrite transport_close_run.
  now destruct (closing (env (clock s))).
Qed.

Lemma close_shrinks serverName s k :
  In k (JsMap.keys (clients (snd (close env serverName s)))) ->
  In k (JsMap.keys (clients s)) /\ k <> serverName.
Proof.
  destruct (JsMap.get serverName (clients s)) as [entry|] eqn:E.
  - rewrite (close_found serverName entry s E). tidy. intros H.
    apply JsMapFacts.in_keys_delete in H as [H Hne].
    split; [now apply disturb_keys in H|assumption].
  - rewrite (close_missing serverName s E). simpl. intros H. split; [assumption|].
    intros ->. now apply get_none_not_in_keys in E.
Qed.

Lemma close_each_returns names s : fst (close_each env names s) = Return tt.
Proof.
  revert s; induction names as [|n names IH]; intros s; [reflexivity|].
  simpl. unfold bind.
  destruct (JsMap.get n (clients s)) as [entry|] eqn:E.
  - rewrite (close_found n entry s E). apply IH.
  - rewrite (close_missing n s E). apply IH.
Qed.

Lemma close_each_empties names s :
  (forall k, In k (JsMap.keys (clients s)) -> In k names) ->
  clients (snd (close_each env names s)) = [].
Proof.
  revert s; induction names as [|n names IH]; intros s Hall.
  - simpl. apply keys_empty.
    destruct (JsMap.keys (clients s)) as [|k ks]; [reflexivity|].
    exfalso. apply (Hall k). now left.
  - simpl. unfold bind.
    destruct (close env n s) as [[[]|e] s'] eqn:Hc.
    + apply IH. intros k Hk.
      pose proof (close_shrinks n s k) as Hs. rewrite Hc in Hs.
      destruct (Hs Hk) as [Hin Hne].
      destruct (Hall k Hin) as [->|]; [congruence|assumption].
    + exfalso.
      destruct (JsMap.get n (clients s)) as [entry|] eqn:E.
      * rewrite (close_found n entry s E) in Hc. discriminate.
      * rewrite (close_missing n s E) in Hc. discriminate.
Qed.

Lemma close_each_history (m : JsMap.t nat) s :
  no_overlapping_close env ->
  clients s = m -> NoDup (JsMap.keys m) ->
  history (snd (close_each env (JsMap.keys m) s)) =
  (history s ++ List.map (fun b => Close (transport (objects s (snd b)))) m)%list.
Proof.
  intros Hquiet. revert s; induction m as [|[k e] m IH]; intros s Hm Hnd.
  - simpl. now rewrite app_nil_r.
  - simpl. unfold bind. inversion Hnd as [|? ? Hnotin Hnd']; subst.
    assert (Hk : JsMap.get k (clients s) = Some e)
      by (rewrite Hm; simpl; now rewrite String.eqb_refl).
    rewrite (close_found k e s Hk).
    set (s' := reframe _ _ _ _ _).
    assert (Hs' : clients s' = m).
    { subst s'; tidy. rewrite disturb_keeps_clients by (intros n; apply Hquiet).
      rewrite Hm. now apply JsMapFacts.delete_head. }
    rewrite (IH s' Hs' Hnd'). subst s'; tidy. rewrite <- app_assoc. simpl.
    do 2 f_equal. apply map_ext. intros [k' e']; simpl.
    now destruct (disturb_entry (during (env (clock s))) s e') as (_ & _ & -> & _).
Qed.

(** C6.  [close] on a name without a session returns and changes nothing; on
    a session it always returns, whatever [transport.close] yields, after
    issuing that close, and the name is gone from the pool.  [closeAll]
    always returns and leaves the pool empty; when no overlapping [close]
    removes a session first, it issues the close of the transport of every
    session it found, in order, whatever each of them yields. *)
Theorem close_is_unconditional (s : State) (serverName : string) :
  (JsMap.get serverName (clients s) = None ->
   close env serverName s = (Return tt, s))
  /\ (forall entry, JsMap.get serverName (clients s) = Some entry ->
      fst (close env serverName s) = Return tt
      /\ history (snd (close env serverName s))
         = (history s ++ [Close (transport (objects s entry))])%list
      /\ JsMap.get serverName (clients (snd (close env serverName s))) = None)
  /\ fst (closeAll env s) = Return tt
  /\ clients (snd (closeAll env s)) = []
  /\ (no_overlapping_close env -> NoDup (JsMap.keys (clients s)) ->
      history (snd (closeAll env s))
      = (history s
         ++ List.map (fun b => Close (transport (objects s (snd b)))) (clients s))%list).
Proof.
  split; [apply close_missing|].
  split.
  { intros entry H. rewrite (close_found serverName entry s H). tidy.
    repeat split. apply JsMapFacts.get_delete_same. }
  unfold closeAll, bind, gets.
  split; [apply close_each_returns|].
  split; [now apply close_each_empties|].
  intros Hquiet Hnd. now apply close_each_history.
Qed.
End Closing.

(** Two servers, and the first transport refuses to close: both closes are
    issued, the pool ends empty. *)
Lemma close_is_unconditional_witness :
  JsMap.get "ghost" (clients twoServers) = None
  /\ close (calmExcept 2 (closeFails channelClosed)) "ghost" twoServers
     = (Return tt, twoServers)
  /\ clients (snd (closeAll (calmExcept 2 (closeFails channelClosed)) twoServers))
     = []
  /\ history (snd (closeAll (calmExcept 2 (closeFails channelClosed)) twoServers))
     = (history twoServers ++ [Close 0; Close 1])%list.
Proof.
  destruct (close_is_unconditional (calmExcept 2 (closeFails channelClosed))
              twoServers "ghost") as (Hnone & _ & _ & Hempty & Hall).
  split; [reflexivity|]. split; [exact (Hnone eq_refl)|]. split; [exact Hempty|].
  apply Hall.
  - intros n name. unfold calmExcept. destruct (Nat.eqb n 2); simpl; tauto.
  - repeat constructor; simpl; intuition discriminate.
Defined.

(** ** One session per name, at any time *)

Section WellFormed.
Implicit Types (s : State).

Lemma emptyPool_well_formed : well_formed emptyPool.
Proof. split; [constructor|]. intros name entry H. discriminate. Qed.

Lemma well_formed_reframe f c h k s :
  well_formed s -> fresh s <= f -> well_formed (reframe f c h k s).
Proof.
  intros [Hnd Hall] Hle. split; [exact Hnd|].
  intros name entry H. destruct (Hall name entry H) as (Hlt & Hrest).
  split; [simpl; lia|exact Hrest].
Qed.

Lemma well_formed_disturb l s : well_formed s -> well_formed (disturb l s).
Proof.
  intros [Hnd Hall]. split; [now apply disturb_NoDup|].
  intros name entry H. apply disturb_lookup in H.
  destruct (Hall name entry H) as (Hlt & Hc & Ht & Hn).
  destruct (disturb_bookkeeping l s) as (Hf & _).
  destruct (disturb_entry l s entry) as (Hcfg & Hcl & Htr & _).
  unfold made_by_connect. now rewrite Hf, Hcfg, Hcl, Htr.
Qed.

Lemma well_formed_delete name s :
  well_formed s -> well_formed (with_clients (JsMap.delete name) s).
Proof.
  intros [Hnd Hall]. split; [now apply JsMapFacts.NoDup_keys_delete|].
  intros n entry H. simpl in H. apply JsMapFacts.get_delete_inv in H as [H _].
  exact (Hall n entry H).
Qed.

Lemma well_formed_with_object r f s :
  (forall e, config (f e) = config e /\ client (f e) = client e
             /\ transport (f e) = transport e) ->
  well_formed s -> well_formed (with_object r f s).
Proof.
  intros Hf [Hnd Hall]. split; [exact Hnd|].
  intros n entry H. destruct (Hall n entry H) as (Hlt & Hc & Ht & Hn).
  unfold made_by_connect; simpl.
  destruct (Nat.eqb entry r); [|now repeat split].
  destruct (Hf (objects s entry)) as (-> & -> & ->). now repeat split.
Qed.

Lemma well_formed_install cfg c h k s :
  well_formed s ->
  well_formed (install cfg (fresh s) (reframe (S (fresh s)) c h k s)).
Proof.
  intros [Hnd Hall]. split; [now apply JsMapFacts.NoDup_keys_set|].
  intros n entry H. unfold install in *; simpl in *.
  destruct (string_dec (ServerConfig.name cfg) n) as [<-|Hne].
  - rewrite JsMapFacts.get_set_same in H. injection H as <-.
    unfold made_by_connect; simpl. rewrite Nat.eqb_refl; simpl.
    repeat split. lia.
  - rewrite JsMapFacts.get_set_other in H by assumption.
    destruct (Hall n entry H) as (Hlt & Hc & Ht & Hn).
    unfold made_by_connect; simpl.
    destruct (Nat.eqb entry (fresh s)) eqn:E.
    + apply Nat.eqb_eq in E. lia.
    + repeat split; auto.
Qed.

Variable env : nat -> Response.

Lemma well_formed_connect cfg s :
  well_formed s -> well_formed (snd (connect env cfg s)).
Proof.
  intros Hwf. rewrite connect_run.
  destruct (createTransport cfg) as [how|e]; simpl.
  - destruct (handshake (env (clock s))); simpl.
    + apply well_formed_reframe; [now apply well_formed_disturb|].
      destruct (disturb_bookkeeping (during (env (clock s))) s) as (-> & _). lia.
    + pose proof (well_formed_install cfg (S (clock s))
                    (history s ++ [Handshake (fresh s) how]) (console s)
                    (disturb (during (env (clock s))) s)
                    (well_formed_disturb _ s Hwf)) as W.
      destruct (disturb_bookkeeping (during (env (clock s))) s) as (Hf & _).
      now rewrite Hf in W.
  - apply well_formed_reframe; [assumption|lia].
Qed.

Lemma well_formed_await ev s :
  well_formed s -> well_formed (snd (await env ev s)).
Proof.
  intros Hwf. rewrite await_run; simpl.
  apply well_formed_reframe; [now apply well_formed_disturb|].
  destruct (disturb_bookkeeping (during (env (clock s))) s) as (-> & _). lia.
Qed.

Lemma well_formed_client_callTool entry toolName args s :
  well_formed s -> well_formed (snd (client_callTool env entry toolName args s)).
Proof.
  intros Hwf. rewrite client_callTool_run; simpl.
  apply well_formed_reframe; [now apply well_formed_disturb|].
  destruct (disturb_bookkeeping (during (env (clock s))) s) as (-> & _). lia.
Qed.

Lemma well_formed_reconnect serverName s :
  well_formed s -> well_formed (snd (reconnect env serverName s)).
Proof.
  intros Hwf. destruct (JsMap.get serverName (clients s)) as [entry|] eqn:E.
  - rewrite (reconnect_found env serverName entry s E). cbv zeta.
    match goal with |- context [connect env ?c ?st] =>
      assert (W : well_formed (snd (connect env c st)));
      [|destruct (connect env c st) as [[t|e] s']] end.
    + apply well_formed_connect.
      apply well_formed_reframe.
      * apply well_formed_delete. now apply well_formed_disturb.
      * simpl. destruct (disturb_bookkeeping (during (env (clock s))) s) as (-> & _). lia.
    + simpl in *. apply well_formed_reframe; [assumption|lia].
    + exact W.
  - now rewrite (reconnect_missing env serverName s E).
Qed.

Lemma well_formed_retry serverName toolName args s :
  well_formed s -> well_formed (snd (retry env serverName toolName args s)).
Proof.
  intros Hwf. rewrite retry_unfold.
  pose proof (well_formed_reconnect serverName s Hwf) as W.
  destruct (reconnect env serverName s) as [[[]|e] s2]; simpl in *; [|exact W].
  destruct (JsMap.get serverName (clients s2)); [|exact W].
  now apply well_formed_client_callTool.
Qed.

Lemma well_formed_callTool serverName toolName args s :
  well_formed s -> well_formed (snd (callTool env serverName toolName args s)).
Proof.
  intros Hwf. destruct (JsMap.get serverName (clients s)) as [entry|] eqn:E.
  - rewrite (callTool_found env serverName toolName args entry s E). cbv zeta.
    destruct (raised _);
      [apply well_formed_reframe; [assumption|lia]|].
    match goal with |- context [client_callTool env entry toolName args ?st] =>
      assert (W : well_formed (snd (client_callTool env entry toolName args st)));
      [|destruct (client_callTool env entry toolName args st) as [[r|e] s1]] end.
    + apply well_formed_client_callTool. apply well_formed_reframe; [assumption|lia].
    + exact W.
    + simpl in W.
      destruct (negb (connected (objects s1 entry)) || isConnectionError e);
        [now apply well_formed_retry|exact W].
  - now rewrite (callTool_missing env serverName toolName args s E).
Qed.

Lemma well_formed_listTools serverName s :
  well_formed s -> well_formed (snd (listTools env serverName s)).
Proof.
  intros Hwf. unfold listTools, bind at 1, lookup, gets.
  destruct (JsMap.get serverName (clients s)) as [entry|]; [|exact Hwf].
  unfold bind at 1. unfold bind at 1.
  pose proof (well_formed_await (ListTools (client (objects s entry))) s Hwf) as W.
  destruct (await env (ListTools (client (objects s entry))) s) as [[r|e] s1];
    simpl in W; [|exact W].
  destruct (listing r) as [e|tools]; [exact W|].
  unfold bind, modify; simpl.
  apply well_formed_with_object; [|exact W]. now intros e.
Qed.

Lemma well_formed_close serverName s :
  well_formed s -> well_formed (snd (close env serverName s)).
Proof.
  intros Hwf. destruct (JsMap.get serverName (clients s)) as [entry|] eqn:E.
  - rewrite (close_found env serverName entry s E); simpl.
    apply (well_formed_reframe (fresh s) (S (clock s)) _ _
             (with_clients (JsMap.delete serverName)
                (disturb (during (env (clock s))) s))).
    + apply well_formed_delete. now apply well_formed_disturb.
    + simpl. destruct (disturb_bookkeeping (during (env (clock s))) s) as (-> & _). lia.
  - now rewrite (close_missing env serverName s E).
Qed.

Lemma well_formed_close_each names s :
  well_formed s -> well_formed (snd (close_each env names s)).
Proof.
  revert s; induction names as [|n names IH]; intros s Hwf; [exact Hwf|].
  simpl. unfold bind.
  pose proof (well_formed_close n s Hwf) as W.
  destruct (close env n s) as [[[]|e] s']; simpl in W; [now apply IH|exact W].
Qed.

Lemma well_formed_closeAll s :
  well_formed s -> well_formed (snd (closeAll env s)).
Proof. intros Hwf. unfold closeAll, bind, gets. now apply well_formed_close_each. Qed.
End WellFormed.

Section Replacement.
Variable env : nat -> Response.

Lemma listTools_found serverName entry s :
  JsMap.get serverName (clients s) = Some entry ->
  listTools env serverName s =
  let waited :=
    reframe (fresh s) (S (clock s))
      (history s ++ [ListTools (client (objects s entry))])
      (console s ++ voices (during (env (clock s))))
      (disturb (during (env (clock s))) s) in
  match listing (env (clock s)) with
  | inl err => (Throw err, waited)
  | inr tools => (Return tools, with_object entry (remember tools) waited)
  end.
Proof.
  intros H. unfold listTools, bind at 1, lookup, gets. rewrite H.
  unfold bind at 1. unfold bind at 1. rewrite await_run. cbv zeta.
  now destruct (listing (env (clock s))).
Qed.

(** C7.  A reconnect whose [connect] succeeds leaves, under the name, a
    session that did not exist before: built from the descriptor of the old
    one, marked connected, with an empty schema map whatever the old session
    had learnt.  The transport of the old session has been closed and no name
    leads to the old session any more.  The pool holds one session per name
    after it, as after any [reconnect] and any [connect], successful or not.
    The next [listTools] fills the schema map of the new session from its own
    answer alone. *)
Theorem reconnect_replaces_session
  (s : State) (serverName : string) (entry : nat) (how : Transport) :
  well_formed s ->
  JsMap.get serverName (clients s) = Some entry ->
  createTransport (config (objects s entry)) = Return how ->
  handshake (env (1 + clock s)) = None ->
  let after := snd (reconnect env serverName s) in
  fst (reconnect env serverName s) = Return tt
  /\ JsMap.get serverName (clients after) = Some (fresh s)
  /\ fresh s <> entry
  /\ objects after (fresh s)
     = {| config := config (objects s entry); client := fresh s;
          transport := fresh s; connected := true; toolSchemas := JsMap.empty |}
  /\ history after
     = (history s ++ [Close (transport (objects s entry));
                      Handshake (fresh s) how])%list
  /\ (forall name, JsMap.get name (clients after) <> Some entry)
  /\ well_formed after
  /\ (forall name, well_formed (snd (reconnect env name s)))
  /\ (forall cfg, well_formed (snd (connect env cfg s)))
  /\ (forall tools, listing (env (clock after)) = inr tools ->
      fst (listTools env serverName after) = Return tools
      /\ toolSchemas (objects (snd (listTools env serverName after)) (fresh s))
         = learn tools JsMap.empty).
Proof.
  intros Hwf Hfound Hhow Hshake after.
  pose proof (well_formed_reconnect env serverName s Hwf) as Hwf'.
  pose proof (fun name => well_formed_reconnect env name s Hwf) as Hre.
  pose proof (fun cfg => well_formed_connect env cfg s Hwf) as Hco.
  fold after in Hwf'.
  destruct Hwf as [Hnd Hall].
  destruct (Hall serverName entry Hfound) as (Hlt & _ & _ & Hname).
  subst after. revert Hwf'.
  rewrite (reconnect_found env serverName entry s Hfound). cbv zeta.
  rewrite connect_run, Hhow. tidy. cbv zeta.
  change (1 + clock s) with (S (clock s)) in Hshake. rewrite Hshake. tidy.
  rewrite Hname, JsMapFacts.get_set_same, Nat.eqb_refl, <- app_assoc.
  intros Hwf'.
  split; [reflexivity|]. split; [reflexivity|]. split; [lia|].
  split; [reflexivity|]. split; [reflexivity|].
  split.
  { intros name H.
    destruct (string_dec serverName name) as [<-|Hne].
    - rewrite JsMapFacts.get_set_same in H. injection H as H. lia.
    - rewrite JsMapFacts.get_set_other in H by assumption.
      apply disturb_lookup in H. simpl in H.
      apply JsMapFacts.get_delete_inv in H as [H _].
      apply disturb_lookup in H.
      destruct (Hall name entry H) as (_ & _ & _ & Hn). congruence. }
  split; [exact Hwf'|]. split; [exact Hre|]. split; [exact Hco|].
  intros tools Hlist.
  match goal with |- context [listTools env serverName ?st] =>
    assert (Hget : JsMap.get serverName (clients st) = Some (fresh s))
      by (tidy; rewrite Hname; apply JsMapFacts.get_set_same);
    rewrite (listTools_found serverName (fresh s) st Hget)
  end.
  tidy. rewrite Hlist. tidy.
  split; [reflexivity|].
  rewrite Nat.eqb_refl. cbn [remember toolSchemas].
  match goal with |- context [toolSchemas (objects (disturb ?l ?st) ?r)] =>
    destruct (disturb_entry l st r) as (_ & _ & _ & -> & _) end.
  tidy. now rewrite Nat.eqb_refl.
Qed.
End Replacement.

(** The weather session has learnt the schema of [forecast]; the session that
    replaces it starts with none. *)
Lemma reconnect_replaces_session_witness :
  toolSchemas (objects weatherPool 0) = [("forecast", citySchema)]
  /\ JsMap.get "weather"
       (clients (snd (reconnect (fun _ => discovers [forecast]) "weather"
                        weatherPool))) = Some 1
  /\ toolSchemas
       (objects (snd (reconnect (fun _ => discovers [forecast]) "weather"
                        weatherPool)) 1) = [].
Proof.
  assert (W : well_formed weatherPool).
  { split; [repeat constructor; simpl; tauto|].
    intros name entry H. change (clients weatherPool) with [("weather", 0)] in H.
    cbn [JsMap.get] in H.
    destruct (String.eqb name "weather") eqn:E; [|discriminate].
    apply String.eqb_eq in E. injection H as <-. subst name.
    unfold made_by_connect. vm_compute. repeat split. lia. }
  split; [reflexivity|].
  destruct (reconnect_replaces_session (fun _ => discovers [forecast])
              weatherPool "weather" 0
              (StdioClientTransport (Some "mcp-weather") None None None)
              W eq_refl eq_refl eq_refl)
    as (_ & Hget & _ & Hobj & _).
  split; [exact Hget|].
  change (fresh weatherPool) with 1 in Hobj. now rewrite Hobj.
Defined.

(** ** The Schema Advisory *)

Section Advisory.
Implicit Types (args : js_value) (schema : ToolSchema).

Lemma warnRequired_filter prefix args fields :
  warnRequired prefix args fields =
  List.map (missingLine prefix)
    (List.filter (fun field => negb (has_field field args)) fields).
Proof.
  induction fields as [|field rest IH]; simpl; [reflexivity|].
  destruct (negb (has_field field args)); simpl; now rewrite IH.
Qed.

Lemma truthy_nonempty (declared : string) :
  truthy (Some declared) = negb (String.eqb declared EmptyString).
Proof. now destruct declared. Qed.

Lemma structured_guard args :
  negb (String.eqb (typeof args) "object") || is_null args
  = negb (structured args).
Proof.
  unfold structured.
  destruct (String.eqb (typeof args) "object"), (is_null args); reflexivity.
Qed.




(** Among the lines of a loop that did not throw is the line of every
    declared field that the arguments have with a value, neither null nor
    undefined, whose [typeof] is not the declared kind. *)
Lemma warnProperties_reports prefix args entries field declared :
  raised (warnProperties prefix args entries) = None ->
  In (field, Declares (Some declared)) entries ->
  has_field field args = true ->
  declared <> EmptyString ->
  nullish (find args field) = false ->
  typeofFound (find args field) <> checkedKind declared ->
  In (mismatchLine prefix field declared (typeofFound (find args field)))
    (warned (warnProperties prefix args entries)).
Proof.
  intros Hpass Hin Hhas Hdeclared Hvalue Hkind.
  induction entries as [|[field' prop] rest IH]; [destruct Hin|].
  cbn [warnProperties] in Hpass |- *.
  destruct Hin as [[= -> ->]|Hin].
  - rewrite Hhas, truthy_nonempty, Hvalue in *.
    apply String.eqb_neq in Hdeclared. rewrite Hdeclared in *.
    cbn [negb andb] in *. cbv zeta in *.
    fold (checkedKind declared) in *.
    apply String.eqb_neq in Hkind. rewrite Hkind in *.
    cbn [negb preceded warned app]. now left.
  - destruct (has_field field' args); [|now apply IH].
    destruct prop as [declared'|]; [|discriminate Hpass].
    destruct (truthy declared' && negb (nullish (find args field')));
      [|now apply IH].
    cbv zeta in *.
    destruct (negb (String.eqb _ _)); [|now apply IH].
    cbn [preceded warned raised app] in *. right. now apply IH.
Qed.

(** C3, where it fails.  A field declared as an array and given an array is
    reported: to [typeof] an array is an object, and the declared kind is
    compared with what [typeof] says as it stands, [integer] being the one
    kind the check translates.  The check of the specification, for which an
    array is of the kind array, reports no such field. *)
Theorem declared_array_is_always_reported
  (serverName toolName field : string) (items : list js_value)
  (fields : list (string * js_value)) (schemas : JsMap.t ToolSchema)
  (schema : ToolSchema) :
  let args := JObject fields in
  let advice := warnOnSchemaViolations serverName toolName args schemas in
  JsMap.get toolName schemas = Some schema ->
  In (field, Declares (Some "array")) (declaredFields schema) ->
  JsMap.get field fields = Some (JArray items) ->
  raised advice = None ->
  In (mismatchLine ("[mcp-adapter] " ++ serverName ++ "/" ++ toolName)
        field "array" "object")
    (warned advice)
  /\ forall actual, ~ In (KindMismatch field "array" actual) (check schema args).
Proof.
  intros args advice Hschema Hdeclared Hvalue Hpass. split.
  - subst advice. unfold warnOnSchemaViolations in *. rewrite Hschema in *.
    cbn [typeof args String.eqb Ascii.eqb Bool.eqb negb is_null orb andb] in *.
    cbv zeta in *. unfold declaredFields in Hdeclared.
    destruct (properties schema) as [entries|]; [|destruct Hdeclared].
    assert (Hfind : find args field = Own (JArray items))
      by (unfold find, args; cbn [property]; now rewrite Hvalue).
    assert (Hline : raised (warnProperties
                              ("[mcp-adapter] " ++ serverName ++ "/" ++ toolName)
                              args entries) = None ->
                    In (mismatchLine
                          ("[mcp-adapter] " ++ serverName ++ "/" ++ toolName)
                          field "array" "object")
                      (warned (warnProperties
                                 ("[mcp-adapter] " ++ serverName ++ "/" ++ toolName)
                                 args entries))).
    { intros Hprops.
      pose proof (warnProperties_reports _ args entries field "array" Hprops
                    Hdeclared) as H.
      unfold has_field in H. rewrite Hfind in H.
      apply H; [reflexivity|discriminate|reflexivity|discriminate]. }
    destruct (required schema) as [[names|]|];
      cbn [preceded warned raised throwing] in *.
    + apply in_or_app. right. now apply Hline.
    + discriminate.
    + now apply Hline.
  - intros actual Hin. unfold check in Hin. apply in_app_or in Hin as [Hin|Hin].
    + apply in_map_iff in Hin as (name & Habs & _). discriminate.
    + apply in_map_iff in Hin as ([field' prop] & Heq & Hviolated).
      apply filter_In in Hviolated as [_ Hviolated].
      unfold mismatch in Heq. unfold kindViolated in Hviolated.
      cbn [fst snd] in *.
      destruct prop as [[declared|]|]; try discriminate.
      injection Heq as -> -> _.
      unfold args in Hviolated. cbn [property] in Hviolated.
      rewrite Hvalue in Hviolated. discriminate.
Qed.

Lemma find_own args field :
  inherits args field = false ->
  find args field
  = match property args field with Some v => Own v | None => Missing end.
Proof. intros H. unfold find. rewrite H. now destruct (property args field). Qed.

Lemma has_field_present args field :
  inherits args field = false -> has_field field args = present field args.
Proof.
  intros H. unfold has_field, present. rewrite (find_own _ _ H).
  now destruct (property args field).
Qed.

Lemma warnRequired_agrees prefix args fields :
  (forall field, In field fields -> inherits args field = false) ->
  warnRequired prefix args fields
  = List.map (missingLine prefix)
      (List.filter (fun field => negb (present field args)) fields).
Proof.
  intros Hplain. induction fields as [|field rest IH]; [reflexivity|].
  cbn [warnRequired filter].
  rewrite (has_field_present args field) by (apply Hplain; now left).
  rewrite IH by (intros f Hf; apply Hplain; now right).
  now destruct (negb (present field args)).
Qed.

Lemma warnProperties_agrees prefix args entries :
  (forall field, ~ In (field, NullDescriptor) entries) ->
  (forall field prop, In (field, prop) entries ->
     inherits args field = false
     /\ forall items, property args field <> Some (JArray items)) ->
  warnProperties prefix args entries
  = {| warned := List.map (fun e => render prefix (mismatch args e))
                   (List.filter (kindViolated args) entries);
       raised := None |}.
Proof.
  intros Hshape Hplain. induction entries as [|[field prop] rest IH];
    [reflexivity|].
  assert (IH' : warnProperties prefix args rest
                = {| warned := List.map (fun e => render prefix (mismatch args e))
                                 (List.filter (kindViolated args) rest);
                     raised := None |}).
  { apply IH.
    - intros f Hf. apply (Hshape f). now right.
    - intros f p Hf. apply Hplain with p. now right. }
  destruct (Hplain field prop (or_introl eq_refl)) as [Hinherits Harray].
  cbn [warnProperties filter]. unfold kindViolated at 1. cbn [fst snd].
  rewrite (has_field_present _ _ Hinherits), (find_own _ _ Hinherits).
  unfold present.
  destruct prop as [[declared|]|].
  - rewrite truthy_nonempty.
    destruct (property args field) as [v|] eqn:Hv; [|exact IH'].
    destruct (String.eqb declared EmptyString) eqn:Hempty; cbn [negb andb];
      [now destruct v|].
    assert (Hkinds : nullish (Own v) = false -> typeof v = kindOf v).
    { destruct v; try reflexivity; try discriminate.
      now elim (Harray items). }
    destruct v; cbn [nullish negb]; try exact IH';
      cbv zeta; cbn [typeofFound]; rewrite Hkinds by reflexivity;
      fold (checkedKind declared);
      (destruct (negb (String.eqb _ (checkedKind declared))) eqn:Hdiff;
       [rewrite IH'; unfold preceded; cbn [warned raised map app];
        do 2 f_equal; unfold mismatch; cbn [fst snd render]; now rewrite Hv
       |exact IH']).
  - cbn [truthy andb]. now destruct (property args field) as [[]|].
  - elim (Hshape field). now left.
Qed.

(** Away from the two slips the check is the check of the specification:
    for a schema of the declared shape, none of whose names the arguments
    inherit and none of whose declared fields holds an array, the lines
    warned are the renderings of [check], and nothing is thrown. *)
Lemma advisory_agrees_with_check
  (serverName toolName : string) (args : js_value)
  (schemas : JsMap.t ToolSchema) (schema : ToolSchema) :
  JsMap.get toolName schemas = Some schema ->
  structured args = true ->
  wellShaped schema ->
  ordinary schema args ->
  warnOnSchemaViolations serverName toolName args schemas
  = {| warned :=
         List.map (render ("[mcp-adapter] " ++ serverName ++ "/" ++ toolName))
           (check schema args);
       raised := None |}.
Proof.
  intros Hschema Hstructured [Hrequired Hdescriptors] [Hnames Hfields].
  unfold warnOnSchemaViolations. rewrite Hschema, structured_guard, Hstructured.
  cbn [negb]. cbv zeta. unfold check, missingRequired.
  unfold demanded in *. unfold declaredFields in *.
  rewrite map_app, !map_map.
  assert (Hprops :
            match properties schema with
            | Some entries =>
                warnProperties
                  ("[mcp-adapter] " ++ serverName ++ "/" ++ toolName) args entries
            | None => quiet
            end
            = {| warned :=
                   List.map
                     (fun e =>
                        render ("[mcp-adapter] " ++ serverName ++ "/" ++ toolName)
                          (mismatch args e))
                     (List.filter (kindViolated args)
                        match properties schema with
                        | Some entries => entries
                        | None => []
                        end);
                 raised := None |}).
  { destruct (properties schema) as [entries|]; [|reflexivity].
    now apply warnProperties_agrees. }
  rewrite Hprops.
  destruct (required schema) as [[fields|]|].
  - rewrite (warnRequired_agrees _ _ _ Hnames). reflexivity.
  - congruence.
  - reflexivity.
Qed.

(** Without a schema on file, or with arguments that are not structured,
    nothing is warned and nothing is thrown. *)
Lemma advisory_is_quiet_without_schema
  (serverName toolName : string) (args : js_value)
  (schemas : JsMap.t ToolSchema) :
  JsMap.get toolName schemas = None \/ structured args = false ->
  warnOnSchemaViolations serverName toolName args schemas = quiet.
Proof.
  intros [Hnone|Hflat]; unfold warnOnSchemaViolations.
  - now rewrite Hnone.
  - destruct (JsMap.get toolName schemas); [|reflexivity].
    now rewrite structured_guard, Hflat.
Qed.
End Advisory.

(** The three cases of the weather example of the specification. *)
Example weather_example :
  warned (warnOnSchemaViolations "weather" "forecast" (JObject [])
            [("forecast", citySchema)])
  = ["[mcp-adapter] weather/forecast: missing required field "
       ++ dq ++ "city" ++ dq]
  /\ warned (warnOnSchemaViolations "weather" "forecast"
               (JObject [("city", JNumber 5)]) [("forecast", citySchema)])
     = ["[mcp-adapter] weather/forecast: field " ++ dq ++ "city" ++ dq
          ++ " expected string, got number"]
  /\ warnOnSchemaViolations "weather" "forecast"
       (JObject [("city", JString "Paris")]) [("forecast", citySchema)]
     = quiet.
Proof. repeat split. Qed.

(** A list of paths is asked for and given: the check of the specification
    finds nothing to say, the code warns that it expected an array and got an
    object. *)
Lemma declared_array_is_always_reported_witness :
  check pathsSchema (JObject [("paths", JArray [JString "a.txt"])]) = []
  /\ warnOnSchemaViolations "files" "read_many"
       (JObject [("paths", JArray [JString "a.txt"])])
       [("read_many", pathsSchema)]
     = {| warned := ["[mcp-adapter] files/read_many: field " ++ dq ++ "paths"
                       ++ dq ++ " expected array, got object"];
          raised := None |}
  /\ In (mismatchLine "[mcp-adapter] files/read_many" "paths" "array" "object")
       (warned (warnOnSchemaViolations "files" "read_many"
                  (JObject [("paths", JArray [JString "a.txt"])])
                  [("read_many", pathsSchema)])).
Proof.
  split; [reflexivity|]. split; [reflexivity|].
  exact (proj1 (declared_array_is_always_reported "files" "read_many" "paths"
                  [JString "a.txt"] [("paths", JArray [JString "a.txt"])]
                  [("read_many", pathsSchema)] pathsSchema eq_refl
                  (or_introl eq_refl) eq_refl eq_refl)).
Defined.

(** The other slip: [in] takes an inherited member for a field.  A schema
    requires [toString] and [city]; the arguments have neither; the check of
    the specification misses both, the code misses the city only. *)
Example inherited_name_is_not_missed :
  check renderSchema (JObject [])
  = [MissingRequired "toString"; MissingRequired "city"]
  /\ warnOnSchemaViolations "weather" "render" (JObject [])
       [("render", renderSchema)]
     = {| warned := ["[mcp-adapter] weather/render: missing required field "
                       ++ dq ++ "city" ++ dq];
          raised := None |}.
Proof. split; reflexivity. Qed.

(** Arguments given as an array: its indices, its length and the methods
    of arrays count as fields, and nothing else does. *)
Example array_arguments :
  warnOnSchemaViolations "files" "read_many"
    (JArray [JString "a.txt"; JString "b.txt"])
    [("read_many",
      {| schema_type := None;
         properties := Some [("0", Declares (Some "string"));
                             ("1", Declares (Some "number"));
                             ("2", Declares (Some "string"));
                             ("length", Declares (Some "integer"));
                             ("push", Declares (Some "string"))];
         required := Some (Names ["0"; "1"; "2"; "length"; "push"; "paths"]) |})]
  = {| warned :=
         ["[mcp-adapter] files/read_many: missing required field "
            ++ dq ++ "2" ++ dq;
          "[mcp-adapter] files/read_many: missing required field "
            ++ dq ++ "paths" ++ dq;
          "[mcp-adapter] files/read_many: field " ++ dq ++ "1" ++ dq
            ++ " expected number, got string";
          "[mcp-adapter] files/read_many: field " ++ dq ++ "push" ++ dq
            ++ " expected string, got function"];
       raised := None |}.
Proof. reflexivity. Qed.

(** ** The verdict of one invocation *)

Section Verdict.
Variable env : nat -> Response.

Lemma callTool_verdict (s : State) (serverName toolName : string)
  (args : js_value) (entry : nat) :
  JsMap.get serverName (clients s) = Some entry ->
  ServerConfig.name (config (objects s entry)) = serverName ->
  raised (warnOnSchemaViolations serverName toolName args
            (toolSchemas (objects s entry))) = None ->
  let run := callTool env serverName toolName args s in
  fst run = fst (verdict env s serverName toolName args entry)
  /\ history (snd run)
     = (history s ++ snd (verdict env s serverName toolName args entry))%list
  /\ exists rest,
       console (snd run)
       = (console s
          ++ List.map (pair Warn)
               (warned (warnOnSchemaViolations serverName toolName args
                          (toolSchemas (objects s entry))))
          ++ rest)%list.
Proof.
  intros Hfound Hname Hpass run. subst run. unfold verdict.
  rewrite (callTool_passed env serverName toolName args entry s Hfound Hpass).
  cbv zeta.
  rewrite client_callTool_run. tidy.
  set (answer := env (clock s)). set (settled := disturb (during answer) s).
  set (first := CallTool (client (objects s entry)) toolName args).
  set (warnings := List.map (pair Warn) _).
  destruct (calling answer) as [err|result] eqn:Hcall.
  2:{ tidy. repeat split. rewrite <- app_assoc. eauto. }
  tidy.
  destruct (disturb_entry (during answer) s entry) as (Hcfg & _ & Htr & _).
  fold settled in Hcfg, Htr.
  set (s1 := reframe _ _ _ _ _).
  destruct (negb (connected (objects settled entry)) || isConnectionError err).
  2:{ subst s1; tidy. repeat split. rewrite <- app_assoc. eauto. }
  destruct (JsMap.get serverName (clients settled)) as [old|] eqn:Hold.
  2:{ rewrite (retry_missing env serverName toolName args s1 Hold).
      subst s1; tidy. repeat split. rewrite <- app_assoc. eauto. }
  assert (old = entry) as -> by (apply disturb_lookup in Hold; congruence).
  assert (Hs1 : fresh s1 = fresh s /\ clock s1 = S (clock s)
                /\ history s1 = (history s ++ [first])%list
                /\ console s1
                   = ((console s ++ warnings) ++ voices (during answer))%list
                /\ objects s1 = objects settled
                /\ JsMap.get serverName (clients s1) = Some entry)
    by (subst s1; now repeat split).
  clearbody s1. destruct Hs1 as (Hf & Hc & Hh & Hk & Ho & Hcl).
  assert (Hconsole : exists rest,
            console (snd (retry env serverName toolName args s1))
            = (console s ++ warnings ++ rest)%list).
  { rewrite retry_unfold, (reconnect_found env serverName entry s1 Hcl).
    cbv zeta. rewrite connect_run. rewrite Hk, Ho, Hcfg.
    destruct (createTransport (config (objects s entry))); cbv zeta.
    - destruct (handshake (env (clock _))).
      + tidy. rewrite <- !app_assoc. eauto.
      + tidy. rewrite Hname, JsMapFacts.get_set_same.
        rewrite client_callTool_run. tidy. rewrite <- !app_assoc. eauto.
    - tidy. rewrite <- !app_assoc. eauto. }
  pose proof (retry_found env serverName toolName args entry s1 Hcl) as R.
  rewrite Ho, Hcfg, Htr, Hf, Hc, Hh in R. specialize (R Hname).
  cbv zeta in R.
  change (2 + clock s) with (S (S (clock s))).
  change (3 + clock s) with (S (S (S (clock s)))).
  change (1 + S (clock s)) with (S (S (clock s))) in R.
  change (2 + S (clock s)) with (S (S (S (clock s)))) in R.
  destruct (createTransport (config (objects s entry))) as [how|e].
  - destruct (handshake (env (S (S (clock s))))) as [e|].
    + destruct R as (-> & -> & _). rewrite <- app_assoc. now repeat split.
    + destruct R as (-> & ->). rewrite <- app_assoc. now repeat split.
  - destruct R as (-> & -> & _). rewrite <- app_assoc. now repeat split.
Qed.
End Verdict.

Section NeverBlocks.
Variable env : nat -> Response.





End NeverBlocks.



(** ** Classification of failures *)

(** C2, as stated, fails both ways: an error of the application whose text
    mentions a closed ticket is classified connection-class and makes
    [callTool] reconnect, and a time-out of the transport whose text carries
    none of the markers is not classified. *)
Lemma classification_ignores_who_failed :
  ~ (forall who description,
       isConnectionError (Failure who description) = true
       <-> who = TransportLevel)
  /\ isConnectionError ticketClosed = true
  /\ isConnectionError requestTimedOut = false
  /\ connectCount (history filesPool) = 1
  /\ connectCount
       (history (snd (callTool (calmExcept 1 (callFails ticketClosed)) "files"
                        "close_ticket" (JObject []) filesPool))) = 2.
Proof.
  split; [|repeat split].
  intros H.
  destruct (H ApplicationLevel
              "McpError: MCP error -32603: ticket 42 is already closed")
    as [Habsurd _].
  specialize (Habsurd eq_refl). discriminate.
Qed.

Section Classification.
Variable env : nat -> Response.

Lemma includes_any_spec (msg : string) (markers : list string) :
  existsb (fun marker => includes marker msg) markers = true
  <-> exists marker, In marker markers
        /\ exists before after, msg = before ++ marker ++ after.
Proof.
  rewrite existsb_exists. split.
  - intros (m & Hin & Hinc). exists m. split; [exact Hin|].
    now apply includes_spec.
  - intros (m & Hin & Hsub). exists m. split; [exact Hin|].
    now apply includes_spec.
Qed.

Lemma isConnectionError_markers (err : thrown) :
  isConnectionError err
  = existsb (fun marker => includes marker (String_ err)) connectionMarkers.
Proof.
  unfold isConnectionError, connectionMarkers. cbn [existsb].
  now rewrite orb_false_r, !orb_assoc.
Qed.

(** C2, amended.  A failure is classified connection-class exactly when its
    description contains one of the seven markers, whoever raised it.  A
    failure that is not so classified, on a session still marked connected,
    propagates as it is without any [connect]; and a result the server
    returns is handed back without any [connect], whatever it says.  (What
    is propagated or handed back is that of the call, which is issued when
    the check of the arguments returns; there is no [connect] either way.) *)
Theorem connection_class_is_a_marker_test (err : thrown) :
  (isConnectionError err = true
   <-> exists marker, In marker connectionMarkers
         /\ exists before after, String_ err = before ++ marker ++ after)
  /\ (forall who who' description,
      isConnectionError (Failure who description)
      = isConnectionError (Failure who' description))
  /\ (forall s serverName toolName args entry,
      JsMap.get serverName (clients s) = Some entry ->
      ServerConfig.name (config (objects s entry)) = serverName ->
      let passes :=
        raised (warnOnSchemaViolations serverName toolName args
                  (toolSchemas (objects s entry))) = None in
      let run := callTool env serverName toolName args s in
      (calling (env (clock s)) = inl err ->
       isConnectionError err = false ->
       connected (objects (disturb (during (env (clock s))) s) entry) = true ->
       (passes -> fst run = Throw err)
       /\ connectCount (history (snd run)) = connectCount (history s))
      /\ (forall result, calling (env (clock s)) = inr result ->
          (passes -> fst run = Return result)
          /\ connectCount (history (snd run)) = connectCount (history s))).
Proof.
  split.
  { rewrite isConnectionError_markers. apply includes_any_spec. }
  split; [reflexivity|].
  intros s serverName toolName args entry Hfound Hname passes run.
  destruct (raised (warnOnSchemaViolations serverName toolName args
                      (toolSchemas (objects s entry))))
    as [typeError|] eqn:Hraised.
  { subst run passes.
    rewrite (callTool_blocked env serverName toolName args entry s typeError
               Hfound Hraised). tidy.
    split; intros; (split; [intros Habs; discriminate Habs|reflexivity]). }
  destruct (callTool_verdict env s serverName toolName args entry Hfound Hname
              Hraised) as (Hout & Hhist & _).
  fold run in Hout, Hhist. rewrite Hout, Hhist. unfold verdict.
  split.
  - intros Hcall Hclass Hconn. rewrite Hcall, Hclass, Hconn. cbn [negb orb fst snd].
    split; [reflexivity|counts].
  - intros result Hcall. rewrite Hcall. cbn [fst snd].
    split; [reflexivity|counts].
Qed.
End Classification.

(** A tool that answers with an error flag is not a failure at all, and a
    refusal the server words without any marker is passed on: the pool has
    connected once and only once. *)
Lemma connection_class_is_a_marker_test_witness :
  isConnectionError
    (Failure ApplicationLevel "McpError: MCP error -32602: unknown tool") = false
  /\ fst (callTool
            (calmExcept 1
               (callFails (Failure ApplicationLevel
                             "McpError: MCP error -32602: unknown tool")))
            "files" "frobnicate" (JObject []) filesPool)
     = Throw (Failure ApplicationLevel "McpError: MCP error -32602: unknown tool")
  /\ connectCount
       (history
          (snd (callTool
                  (calmExcept 1
                     (callFails (Failure ApplicationLevel
                                   "McpError: MCP error -32602: unknown tool")))
                  "files" "frobnicate" (JObject []) filesPool)))
     = connectCount (history filesPool).
Proof.
  split; [reflexivity|].
  destruct (connection_class_is_a_marker_test
              (calmExcept 1
                 (callFails (Failure ApplicationLevel
                               "McpError: MCP error -32602: unknown tool")))
              (Failure ApplicationLevel "McpError: MCP error -32602: unknown tool"))
    as (_ & _ & H).
  destruct (H filesPool "files" "frobnicate" (JObject []) 0 eq_refl eq_refl)
    as (Hthrow & _).
  destruct (Hthrow eq_refl eq_refl eq_refl) as [Houtcome Hconnects].
  split; [exact (Houtcome eq_refl)|exact Hconnects].
Defined.

(** ** Replacing a session by [connect] *)

Section Leak.
Variable env : nat -> Response.

(** C8.  [connect] for a name that already has a session registers the new
    session in its place and issues nothing but its own handshake: the
    transport of the session it replaces is not closed, and no name leads to
    that session any more, so that no later [close], [closeAll] or reconnect
    can reach it. *)
Theorem connect_replaces_without_closing
  (s : State) (cfg : ServerConfig.t) (old : nat) (how : Transport) :
  well_formed s ->
  JsMap.get (ServerConfig.name cfg) (clients s) = Some old ->
  createTransport cfg = Return how ->
  handshake (env (clock s)) = None ->
  let after := snd (connect env cfg s) in
  JsMap.get (ServerConfig.name cfg) (clients after) = Some (fresh s)
  /\ fresh s <> old
  /\ history after = (history s ++ [Handshake (fresh s) how])%list
  /\ (In (Close (transport (objects s old))) (history after) ->
      In (Close (transport (objects s old))) (history s))
  /\ (forall name, JsMap.get name (clients after) <> Some old).
Proof.
  intros [Hnd Hall] Hfound Hhow Hshake after. subst after.
  destruct (Hall _ _ Hfound) as (Hlt & _ & _ & Hname).
  rewrite connect_run, Hhow. cbv zeta. rewrite Hshake. tidy.
  split; [apply JsMapFacts.get_set_same|].
  split; [lia|].
  split; [reflexivity|].
  split.
  { intros H. apply in_app_or in H as [H|[H|[]]]; [exact H|discriminate]. }
  intros name H.
  destruct (string_dec (ServerConfig.name cfg) name) as [<-|Hne].
  - rewrite JsMapFacts.get_set_same in H. injection H as H. lia.
  - rewrite JsMapFacts.get_set_other in H by assumption.
    apply disturb_lookup in H.
    destruct (Hall _ _ H) as (_ & _ & _ & Hname'). congruence.
Qed.
End Leak.

(** [connect(files)] twice, then [closeAll]: the second transport is closed,
    the first never is.  The same happens on the way the host takes: the
    entry point of a cached tool finds the session marked disconnected and
    connects over it. *)
Lemma connect_replaces_without_closing_witness :
  clients filesTwice = [("files", 1)]
  /\ history filesTwice
     = [Handshake 0 (StdioClientTransport (Some "mcp-files") None None None);
        Handshake 1 (StdioClientTransport (Some "mcp-files") None None None)]
  /\ history (snd (closeAll (fun _ => calm) filesTwice))
     = (history filesTwice ++ [Close 1])%list
  /\ status_connected (getStatus "files" filesDown) = false
  /\ JsMap.get "files" (clients filesDown) = Some 0
  /\ history (snd (execute_cached (fun _ => calm) files "read_file" (JObject [])
                     filesDown))
     = [Handshake 0 (StdioClientTransport (Some "mcp-files") None None None);
        Handshake 1 (StdioClientTransport (Some "mcp-files") None None None);
        ListTools 1; CallTool 1 "read_file" (JObject [])].
Proof.
  assert (W : well_formed filesPool).
  { split; [repeat constructor; simpl; tauto|].
    intros name entry H. change (clients filesPool) with [("files", 0)] in H.
    cbn [JsMap.get] in H.
    destruct (String.eqb name "files") eqn:E; [|discriminate].
    apply String.eqb_eq in E. injection H as <-. subst name.
    unfold made_by_connect. vm_compute. repeat split. lia. }
  destruct (connect_replaces_without_closing (fun _ => calm) filesPool files 0
              (StdioClientTransport (Some "mcp-files") None None None)
              W eq_refl eq_refl eq_refl) as (_ & _ & Hhist & _).
  split; [reflexivity|]. split; [exact Hhist|]. repeat split.
Defined.

(** ** The entry points registered with the host *)

(** C9, as stated, fails for the tools the service registers: their entry
    point does not connect a server that is not connected.  On a pool that
    holds no session it issues nothing and throws. *)
Lemma service_entry_point_does_not_connect :
  ~ (forall env server toolName params s,
       status_connected (getStatus (ServerConfig.name server) s) = false ->
       exists how rest,
         history (snd (execute_service env server toolName params s))
         = (history s ++ Handshake (fresh s) how :: rest)%list)
  /\ status_connected (getStatus "files" emptyPool) = false
  /\ execute_service (fun _ => calm) files "read_file" (JObject []) emptyPool
     = (Throw (UnknownServerError "files"), emptyPool).
Proof.
  split; [|split; reflexivity].
  intros H.
  destruct (H (fun _ => calm) files "read_file" (JObject []) emptyPool eq_refl)
    as (how & rest & Habsurd).
  simpl in Habsurd. discriminate.
Qed.

Section EntryPoints.
Variable env : nat -> Response.

(** Operations only ever add to the history. *)
Lemma connect_extends cfg s :
  exists rest, history (snd (connect env cfg s)) = (history s ++ rest)%list.
Proof.
  rewrite connect_run. destruct (createTransport cfg) as [how|e].
  - cbv zeta. destruct (handshake (env (clock s))); tidy; eauto.
  - exists []. tidy. now rewrite app_nil_r.
Qed.

Lemma client_callTool_extends entry toolName args s :
  exists rest,
    history (snd (client_callTool env entry toolName args s))
    = (history s ++ rest)%list.
Proof. rewrite client_callTool_run. tidy. eauto. Qed.

Lemma reconnect_extends serverName s :
  exists rest, history (snd (reconnect env serverName s)) = (history s ++ rest)%list.
Proof.
  destruct (JsMap.get serverName (clients s)) as [entry|] eqn:E.
  - rewrite (reconnect_found env serverName entry s E). cbv zeta.
    match goal with |- context [connect env ?c ?st] =>
      destruct (connect_extends c st) as (rest & Hrest);
      destruct (connect env c st) as [[t|e] s'] end;
      tidy_in Hrest; tidy; rewrite Hrest, <- app_assoc; eauto.
  - rewrite (reconnect_missing env serverName s E). exists [].
    simpl. now rewrite app_nil_r.
Qed.

Lemma retry_extends serverName toolName args s :
  exists rest,
    history (snd (retry env serverName toolName args s)) = (history s ++ rest)%list.
Proof.
  rewrite retry_unfold.
  destruct (reconnect_extends serverName s) as (rest & Hrest).
  destruct (reconnect env serverName s) as [[[]|e] s2]; simpl in Hrest;
    [|simpl; eauto].
  destruct (JsMap.get serverName (clients s2)) as [newEntry|]; [|simpl; eauto].
  destruct (client_callTool_extends newEntry toolName args s2) as (rest' & Hrest').
  rewrite Hrest', Hrest, <- app_assoc. eauto.
Qed.

Lemma callTool_extends serverName toolName args s :
  exists rest,
    history (snd (callTool env serverName toolName args s)) = (history s ++ rest)%list.
Proof.
  destruct (JsMap.get serverName (clients s)) as [entry|] eqn:E.
  - rewrite (callTool_found env serverName toolName args entry s E). cbv zeta.
    destruct (raised _);
      [exists []; tidy; now rewrite app_nil_r|].
    rewrite client_callTool_run.
    destruct (calling (env _)) as [err|result]; [|tidy; eauto].
    match goal with |- context [if ?b then _ else _] => destruct b end;
      [|tidy; eauto].
    match goal with |- context [retry env serverName toolName args ?st] =>
      destruct (retry_extends serverName toolName args st) as (rest & Hrest) end.
    rewrite Hrest. tidy. rewrite <- app_assoc. eauto.
  - rewrite (callTool_missing env serverName toolName args s E). exists [].
    simpl. now rewrite app_nil_r.
Qed.

Lemma execute_service_run server toolName params s :
  execute_service env server toolName params s =
  match callTool env (ServerConfig.name server) toolName params s with
  | (Return result, s') => (Return (reshape result), s')
  | (Throw err, s') => (Throw err, s')
  end.
Proof.
  unfold execute_service, bind.
  now destruct (callTool env (ServerConfig.name server) toolName params s)
    as [[result|err] s'].
Qed.

(** C9, amended.  The entry point of a tool registered from the cache asks
    [getStatus] first: on a connected server it does what the entry point of
    a service-registered tool does; otherwise it logs, runs [connect] on the
    descriptor and [listTools] on the name, and only then does the same.  The
    entry point of a tool registered by the service hands the arguments to
    [callTool] at once, and throws [UnknownServerError] when the pool holds no
    session for the server.  Whatever either returns has one content block,
    of type text, holding the fragments of the call result joined by line
    feeds, and the error flag of the call result as it came. *)
Theorem entry_points_delegate
  (server : ServerConfig.t) (toolName : string) (params : js_value) (s : State) :
  let name := ServerConfig.name server in
  (status_connected (getStatus name s) = true ->
   execute_cached env server toolName params s
   = execute_service env server toolName params s)
  /\ (status_connected (getStatus name s) = false ->
      execute_cached env server toolName params s
      = (console_write Log ("[mcp-adapter] Lazy-connecting to " ++ name ++ "...") ;;;
         connect env server ;;;
         listTools env name ;;;
         execute_service env server toolName params) s)
  /\ (status_connected (getStatus name s) = false ->
      forall how, createTransport server = Return how ->
      handshake (env (clock s)) = None ->
      exists rest,
        history (snd (execute_cached env server toolName params s))
        = (history s ++ Handshake (fresh s) how :: ListTools (fresh s) :: rest)%list)
  /\ execute_service env server toolName params s
     = match callTool env name toolName params s with
       | (Return result, s') => (Return (reshape result), s')
       | (Throw err, s') => (Throw err, s')
       end
  /\ (JsMap.get name (clients s) = None ->
      execute_service env server toolName params s
      = (Throw (UnknownServerError name), s))
  /\ (forall result,
      reshape result
      = {| result_content :=
             [ {| block_type := "text";
                  block_text :=
                    match content result with
                    | Some items => join nl (List.map fragment items)
                    | None => EmptyString
                    end |} ];
           result_isError := isError result |})
  /\ (forall shaped s',
      execute_cached env server toolName params s = (Return shaped, s')
      \/ execute_service env server toolName params s = (Return shaped, s') ->
      exists result, shaped = reshape result).
Proof.
  cbv zeta.
  assert (Hlazy : status_connected (getStatus (ServerConfig.name server) s) = false ->
            execute_cached env server toolName params s
            = (console_write Log ("[mcp-adapter] Lazy-connecting to " ++ (ServerConfig.name server) ++ "...") ;;;
               connect env server ;;;
               listTools env (ServerConfig.name server) ;;;
               execute_service env server toolName params) s).
  { intros Hdown. unfold execute_cached, execute_service, bind at 1, gets.
    rewrite Hdown. cbn [negb]. unfold bind.
    destruct (console_write Log _ s) as [[[]|e0] s0]; [|reflexivity].
    destruct (connect env server s0) as [[t|e1] s1]; [|reflexivity].
    destruct (listTools env (ServerConfig.name server) s1) as [[tools|e2] s2]; reflexivity. }
  split.
  { intros Hup. unfold execute_cached, execute_service, bind at 1, gets.
    rewrite Hup. cbn [negb]. reflexivity. }
  split; [exact Hlazy|].
  split.
  { intros Hdown how Hhow Hshake. rewrite (Hlazy Hdown).
    unfold bind at 1, console_write, modify.
    unfold bind at 1. rewrite connect_run, Hhow. cbv zeta. tidy.
    rewrite Hshake.
    unfold bind at 1.
    match goal with |- context [listTools env (ServerConfig.name server) ?st] =>
      assert (Hget : JsMap.get (ServerConfig.name server) (clients st) = Some (fresh s))
        by (tidy; apply JsMapFacts.get_set_same);
      rewrite (listTools_found env (ServerConfig.name server) (fresh s) st Hget)
    end.
    cbv zeta. tidy. rewrite Nat.eqb_refl. cbn [client].
    destruct (listing (env (S (clock s)))) as [e|tools].
    - tidy. rewrite <- app_assoc. exists []. reflexivity.
    - rewrite execute_service_run.
      match goal with |- context [callTool env (ServerConfig.name server) toolName params ?st] =>
        destruct (callTool_extends (ServerConfig.name server) toolName params st) as (rest & Hrest);
        destruct (callTool env (ServerConfig.name server) toolName params st) as [[r|e] s3] end;
        tidy_in Hrest; tidy; rewrite Hrest, <- !app_assoc; exists rest; reflexivity. }
  split; [apply execute_service_run|].
  split.
  { intros Hnone. rewrite execute_service_run.
    now rewrite (callTool_missing env (ServerConfig.name server) toolName params s Hnone). }
  split; [reflexivity|].
  assert (Hservice : forall st shaped s',
            execute_service env server toolName params st = (Return shaped, s') ->
            exists result, shaped = reshape result).
  { intros st shaped s' H. rewrite execute_service_run in H.
    destruct (callTool env (ServerConfig.name server) toolName params st)
      as [[result|err] s1]; [|discriminate].
    injection H as <- _. now exists result. }
  intros shaped s' [H|H]; [|now apply (Hservice s shaped s')].
  destruct (status_connected (getStatus (ServerConfig.name server) s)) eqn:Hstatus.
  - unfold execute_cached, bind at 1, gets in H.
    rewrite Hstatus in H. cbn [negb] in H.
    apply (Hservice s shaped s'). exact H.
  - rewrite (Hlazy eq_refl) in H. unfold bind in H.
    destruct (console_write Log _ s) as [[[]|e0] s0]; [|discriminate].
    destruct (connect env server s0) as [[t|e1] s1]; [|discriminate].
    destruct (listTools env (ServerConfig.name server) s1) as [[tools|e2] s2]; [|discriminate].
    now apply (Hservice s2 shaped s').
Qed.
End EntryPoints.

(** First use of a cached tool on a pool that has connected nothing: the
    entry point connects and discovers before it calls; the same tool taken
    from the service registration would have thrown. *)
Lemma entry_points_delegate_witness :
  status_connected (getStatus "files" emptyPool) = false
  /\ (exists rest,
        history (snd (execute_cached (fun _ => calm) files "read_file"
                        (JObject []) emptyPool))
        = (history emptyPool
           ++ Handshake 0 (StdioClientTransport (Some "mcp-files") None None None)
              :: ListTools 0 :: rest)%list)
  /\ fst (execute_cached (fun _ => calm) files "read_file" (JObject []) emptyPool)
     = Return {| result_content :=
                   [ {| block_type := "text"; block_text := "hello" |} ];
                 result_isError := None |}.
Proof.
  destruct (entry_points_delegate (fun _ => calm) files "read_file" (JObject [])
              emptyPool) as (_ & _ & H & _).
  split; [reflexivity|]. split; [|reflexivity].
  exact (H eq_refl _ eq_refl eq_refl).
Defined.

(** ** Concrete runs *)

(** The server is closed by an overlapping [close] while the call is pending,
    and the call then finds the channel closed: there is nothing to
    reconnect, and the caller gets [ReconnectFailedError]. *)
Example closed_under_the_call :
  callTool
    (calmExcept 1 (meanwhile [SessionClosed "files"] (callFails channelClosed)))
    "files" "read_file" (JObject []) filesPool
  = (Throw (ReconnectFailedError "files"),
     snd (callTool
            (calmExcept 1 (meanwhile [SessionClosed "files"] (callFails channelClosed)))
            "files" "read_file" (JObject []) filesPool))
  /\ history
       (snd (callTool
               (calmExcept 1 (meanwhile [SessionClosed "files"] (callFails channelClosed)))
               "files" "read_file" (JObject []) filesPool))
     = [Handshake 0 (StdioClientTransport (Some "mcp-files") None None None);
        CallTool 0 "read_file" (JObject [])].
Proof. split; reflexivity. Qed.

(** The subprocess dies while the call is pending: its handler marks the
    session disconnected, and the failure, whatever its text, leads to a
    reconnect and a second call. *)
Example marked_disconnected_under_the_call :
  isConnectionError
    (Failure ApplicationLevel "McpError: MCP error -32602: unknown tool") = false
  /\ history
       (snd (callTool
               (calmExcept 1
                  (meanwhile [TransportClosed "files"]
                     (callFails (Failure ApplicationLevel
                                   "McpError: MCP error -32602: unknown tool"))))
               "files" "read_file" (JObject []) filesPool))
     = [Handshake 0 (StdioClientTransport (Some "mcp-files") None None None);
        CallTool 0 "read_file" (JObject []);
        Close 0;
        Handshake 1 (StdioClientTransport (Some "mcp-files") None None None);
        CallTool 1 "read_file" (JObject [])]
  /\ console
       (snd (callTool
               (calmExcept 1
                  (meanwhile [TransportClosed "files"]
                     (callFails (Failure ApplicationLevel
                                   "McpError: MCP error -32602: unknown tool"))))
               "files" "read_file" (JObject []) filesPool))
     = [(Log, "[mcp-adapter] files disconnected");
        (Log, "[mcp-adapter] Reconnecting to files...");
        (Log, "[mcp-adapter] Reconnected to files")].
Proof. repeat split. Qed.

(** The transport fails the first two calls: the second failure is final,
    and no third call is made. *)
Example two_failures_in_a_row :
  fst (callTool
         (fun n => match n with
                   | 1 => callFails channelClosed
                   | 4 => callFails requestTimedOut
                   | _ => calm
                   end)
         "files" "read_file" (JObject []) filesPool)
  = Throw requestTimedOut
  /\ callCount
       (history
          (snd (callTool
                  (fun n => match n with
                            | 1 => callFails channelClosed
                            | 4 => callFails requestTimedOut
                            | _ => calm
                            end)
                  "files" "read_file" (JObject []) filesPool))) = 2.
Proof. split; reflexivity. Qed.

(* ===================================================================== *)
(** * Further properties of the pool *)

Section Connecting.
Variable env : nat -> Response.

(** X1.  A [connect] that succeeds returns the new client and leaves the
    server registered, reported connected, with no schema on file.  A
    [connect] that throws while nobody else touches the pool leaves the map
    and every entry object as they were: a session already registered under
    the name survives a failed attempt to connect again. *)
Theorem connect_registers_or_leaves_alone (cfg : ServerConfig.t) (s : State) :
  (forall how, createTransport cfg = Return how ->
     handshake (env (clock s)) = None ->
     fst (connect env cfg s) = Return (fresh s)
     /\ JsMap.get (ServerConfig.name cfg) (clients (snd (connect env cfg s)))
        = Some (fresh s)
     /\ getStatus (ServerConfig.name cfg) (snd (connect env cfg s))
        = {| status_connected := true |}
     /\ toolSchemas (objects (snd (connect env cfg s)) (fresh s)) = JsMap.empty)
  /\ (forall err, fst (connect env cfg s) = Throw err ->
      during (env (clock s)) = [] ->
      clients (snd (connect env cfg s)) = clients s
      /\ objects (snd (connect env cfg s)) = objects s
      /\ forall name, getStatus name (snd (connect env cfg s)) = getStatus name s).
Proof.
  split.
  - intros how Hhow Hshake. rewrite connect_run, Hhow. cbv zeta. rewrite Hshake.
    unfold getStatus. tidy. rewrite JsMapFacts.get_set_same. tidy.
    now rewrite Nat.eqb_refl.
  - intros err Hthrow Hquiet. revert Hthrow. rewrite connect_run.
    destruct (createTransport cfg) as [how|e]; cbv zeta.
    + destruct (handshake (env (clock s))); [|discriminate].
      intros _. unfold getStatus. tidy. rewrite Hquiet. now repeat split.
    + intros _. unfold getStatus. tidy. now repeat split.
Qed.
End Connecting.

(** The files server connects; connecting it again with a handshake that
    fails leaves the first session in place. *)
Lemma connect_registers_or_leaves_alone_witness :
  getStatus "files" (snd (connect (fun _ => calm) files emptyPool))
  = {| status_connected := true |}
  /\ fst (connect (fun _ => handshakeFails spawnFails) files filesPool)
     = Throw spawnFails
  /\ clients (snd (connect (fun _ => handshakeFails spawnFails) files filesPool))
     = clients filesPool.
Proof.
  destruct (connect_registers_or_leaves_alone (fun _ => calm) files emptyPool)
    as (Hok & _).
  destruct (connect_registers_or_leaves_alone
              (fun _ => handshakeFails spawnFails) files filesPool) as (_ & Hko).
  split; [exact (proj1 (proj2 (proj2 (Hok _ eq_refl eq_refl))))|].
  split; [reflexivity|].
  exact (proj1 (Hko spawnFails eq_refl eq_refl)).
Defined.

Section Signals.

(** X2.  When the handler of a transport runs [markDisconnected], the server
    it names is reported disconnected from then on, its session stays
    registered, and the status of no other server changes.  For a name
    without a session the handler does nothing. *)
Theorem markDisconnected_marks_one_server (s : State) (serverName : string) :
  well_formed s ->
  getStatus serverName (markDisconnected serverName s)
  = {| status_connected := false |}
  /\ clients (markDisconnected serverName s) = clients s
  /\ (forall other, other <> serverName ->
      getStatus other (markDisconnected serverName s) = getStatus other s)
  /\ (JsMap.get serverName (clients s) = None ->
      markDisconnected serverName s = s).
Proof.
  intros [Hnd Hall]. unfold markDisconnected, getStatus.
  destruct (JsMap.get serverName (clients s)) as [entry|] eqn:E.
  - simpl. rewrite E, Nat.eqb_refl. simpl.
    split; [reflexivity|]. split; [reflexivity|]. split; [|discriminate].
    intros other Hne.
    destruct (JsMap.get other (clients s)) as [e'|] eqn:E'; [|reflexivity].
    destruct (Nat.eqb e' entry) eqn:Heq; [|reflexivity].
    apply Nat.eqb_eq in Heq. subst e'.
    destruct (Hall _ _ E) as (_ & _ & _ & H1).
    destruct (Hall _ _ E') as (_ & _ & _ & H2). congruence.
  - rewrite E. repeat split.
Qed.
End Signals.

(** Two servers, the transport of the first signals an error: the first is
    reported disconnected, the second still connected. *)
Lemma markDisconnected_marks_one_server_witness :
  getStatus "files" (markDisconnected "files" twoServers)
  = {| status_connected := false |}
  /\ getStatus "search" (markDisconnected "files" twoServers)
     = {| status_connected := true |}.
Proof.
  assert (W : well_formed twoServers).
  { split; [repeat constructor; simpl; intuition discriminate|].
    intros name entry H.
    change (clients twoServers) with [("files", 0); ("search", 1)] in H.
    cbn [JsMap.get] in H.
    destruct (String.eqb name "files") eqn:E.
    - apply String.eqb_eq in E. injection H as <-. subst name.
      unfold made_by_connect. vm_compute. repeat split. lia.
    - destruct (String.eqb name "search") eqn:E'; [|discriminate].
      apply String.eqb_eq in E'. injection H as <-. subst name.
      unfold made_by_connect. vm_compute. repeat split. lia. }
  destruct (markDisconnected_marks_one_server twoServers "files" W)
    as (Hdown & _ & Hother & _).
  split; [exact Hdown|].
  rewrite (Hother "search"); [reflexivity|discriminate].
Defined.

Section Discovery.
Variable env : nat -> Response.

Lemma learn_lookup (toolName : string) (tools : list Tool)
  (schemas : JsMap.t ToolSchema) :
  JsMap.get toolName (learn tools schemas) =
  match lastSchema toolName tools with
  | Some schema => Some schema
  | None => JsMap.get toolName schemas
  end.
Proof.
  revert schemas; induction tools as [|tool rest IH]; intros schemas;
    [reflexivity|].
  cbn [learn lastSchema].
  destruct (inputSchema tool) as [schema|] eqn:Hs; rewrite IH.
  - destruct (lastSchema toolName rest); [reflexivity|].
    destruct (String.eqb (tool_name tool) toolName) eqn:E.
    + apply String.eqb_eq in E. subst toolName.
      apply JsMapFacts.get_set_same.
    + apply String.eqb_neq in E. now apply JsMapFacts.get_set_other.
  - destruct (lastSchema toolName rest); [reflexivity|].
    now destruct (String.eqb (tool_name tool) toolName).
Qed.

(** X3.  A discovery that succeeds returns every tool the server listed, with
    or without a schema, and updates the schema map of the session it started
    on: a tool name gets the schema of the last listed tool of that name that
    carries one, and a name for which no listed tool carries a schema keeps
    what was on file.  This holds also when the session was closed or marked
    disconnected while the request was pending. *)
Theorem listTools_last_discovery_wins
  (s : State) (serverName : string) (entry : nat) (tools : list Tool) :
  JsMap.get serverName (clients s) = Some entry ->
  listing (env (clock s)) = inr tools ->
  fst (listTools env serverName s) = Return tools
  /\ history (snd (listTools env serverName s))
     = (history s ++ [ListTools (client (objects s entry))])%list
  /\ forall toolName,
       JsMap.get toolName
         (toolSchemas (objects (snd (listTools env serverName s)) entry))
       = match lastSchema toolName tools with
         | Some schema => Some schema
         | None => JsMap.get toolName (toolSchemas (objects s entry))
         end.
Proof.
  intros Hfound Hlist.
  rewrite (listTools_found env serverName entry s Hfound). cbv zeta.
  rewrite Hlist. tidy. rewrite Nat.eqb_refl. cbn [remember toolSchemas].
  destruct (disturb_entry (during (env (clock s))) s entry)
    as (_ & _ & _ & -> & _).
  repeat split. intros toolName. apply learn_lookup.
Qed.

(** X4.  A discovery that fails throws the failure of the client as it is and
    leaves the schema map of every session as it was. *)
Theorem listTools_failure_keeps_schemas
  (s : State) (serverName : string) (entry : nat) (err : thrown) :
  JsMap.get serverName (clients s) = Some entry ->
  listing (env (clock s)) = inl err ->
  fst (listTools env serverName s) = Throw err
  /\ forall e,
       toolSchemas (objects (snd (listTools env serverName s)) e)
       = toolSchemas (objects s e).
Proof.
  intros Hfound Hlist.
  rewrite (listTools_found env serverName entry s Hfound). cbv zeta.
  rewrite Hlist. tidy. split; [reflexivity|]. intros e.
  now destruct (disturb_entry (during (env (clock s))) s e)
    as (_ & _ & _ & -> & _).
Qed.
End Discovery.

(** The weather server lists [forecast] twice, relaxed the second time, and
    [ping] without a schema: the relaxed schema is on file for [forecast],
    nothing for [ping]. *)
Lemma listTools_last_discovery_wins_witness :
  JsMap.get "weather" (clients weatherPool) = Some 0
  /\ fst (listTools (fun _ => discovers [forecast; ping; forecastRelaxed])
            "weather" weatherPool)
     = Return [forecast; ping; forecastRelaxed]
  /\ JsMap.get "forecast"
       (toolSchemas
          (objects (snd (listTools
                           (fun _ => discovers [forecast; ping; forecastRelaxed])
                           "weather" weatherPool)) 0))
     = inputSchema forecastRelaxed
  /\ JsMap.get "ping"
       (toolSchemas
          (objects (snd (listTools
                           (fun _ => discovers [forecast; ping; forecastRelaxed])
                           "weather" weatherPool)) 0))
     = None.
Proof.
  destruct (listTools_last_discovery_wins
              (fun _ => discovers [forecast; ping; forecastRelaxed])
              weatherPool "weather" 0 [forecast; ping; forecastRelaxed]
              eq_refl eq_refl) as (Hret & _ & Hget).
  split; [reflexivity|]. split; [exact Hret|].
  split; [exact (Hget "forecast")|exact (Hget "ping")].
Defined.

(** Discovery fails on the weather server: the schema of [forecast] learnt
    before is still on file. *)
Lemma listTools_failure_keeps_schemas_witness :
  JsMap.get "weather" (clients weatherPool) = Some 0
  /\ fst (listTools (fun _ => listFails requestTimedOut) "weather" weatherPool)
     = Throw requestTimedOut
  /\ toolSchemas
       (objects (snd (listTools (fun _ => listFails requestTimedOut) "weather"
                        weatherPool)) 0)
     = [("forecast", citySchema)].
Proof.
  destruct (listTools_failure_keeps_schemas (fun _ => listFails requestTimedOut)
              weatherPool "weather" 0 requestTimedOut eq_refl eq_refl)
    as (Hthrow & Hkeep).
  split; [reflexivity|]. split; [exact Hthrow|]. exact (Hkeep 0).
Defined.

Section Isolation.
Variable env : nat -> Response.
Hypothesis calm_world : undisturbed env.

Lemma undisturbed_run n s : disturb (during (env n)) s = s.
Proof. now rewrite calm_world. Qed.

Ltac calm := repeat (progress tidy || rewrite undisturbed_run).

(** X5.  While nobody else touches the pool, a tool call on one server
    changes the registration of no other server and writes to no entry object
    that existed before the call: whatever happens to the call, the sessions
    of the other servers, their status and their schemas are as before. *)
Theorem callTool_leaves_other_servers_alone
  (s : State) (serverName toolName : string) (args : js_value) :
  well_formed s ->
  (forall other, other <> serverName ->
     JsMap.get other (clients (snd (callTool env serverName toolName args s)))
     = JsMap.get other (clients s))
  /\ (forall e, e < fresh s ->
      objects (snd (callTool env serverName toolName args s)) e = objects s e)
  /\ (forall other, other <> serverName ->
      getStatus other (snd (callTool env serverName toolName args s))
      = getStatus other s).
Proof.
  intros [Hnd Hall].
  assert (Hmain :
    (forall other, other <> serverName ->
       JsMap.get other (clients (snd (callTool env serverName toolName args s)))
       = JsMap.get other (clients s))
    /\ (forall e, e < fresh s ->
        objects (snd (callTool env serverName toolName args s)) e = objects s e)).
  { destruct (JsMap.get serverName (clients s)) as [entry|] eqn:Hfound.
    2:{ rewrite (callTool_missing env serverName toolName args s Hfound).
        now split. }
    destruct (Hall _ _ Hfound) as (_ & _ & _ & Hname).
    rewrite (callTool_found env serverName toolName args entry s Hfound).
    cbv zeta. destruct (raised _); [tidy; now split|].
    rewrite client_callTool_run. tidy. calm.
    destruct (calling (env (clock s))) as [err|result]; [|tidy; now split].
    tidy. set (s1 := reframe _ _ _ _ _).
    destruct (negb (connected (objects s entry)) || isConnectionError err);
      [|subst s1; tidy; now split].
    assert (Hf1 : JsMap.get serverName (clients s1) = Some entry) by exact Hfound.
    rewrite retry_unfold, (reconnect_found env serverName entry s1 Hf1).
    cbv zeta. rewrite connect_run. subst s1. calm.
    destruct (createTransport (config (objects s entry))) as [how|e];
      cbv zeta; calm.
    2:{ split; [|reflexivity]. intros other Hne.
        now apply JsMapFacts.get_delete_other. }
    destruct (handshake (env _)) as [e|]; calm.
    { split; [|reflexivity]. intros other Hne.
      now apply JsMapFacts.get_delete_other. }
    rewrite Hname, JsMapFacts.get_set_same, client_callTool_run. calm. split.
    - intros other Hne. rewrite JsMapFacts.get_set_other by congruence.
      now apply JsMapFacts.get_delete_other.
    - intros e He. destruct (Nat.eqb e (fresh s)) eqn:E; [|reflexivity].
      apply Nat.eqb_eq in E. lia. }
  destruct Hmain as [Hmap Hobj]. split; [exact Hmap|]. split; [exact Hobj|].
  intros other Hne. unfold getStatus. rewrite (Hmap other Hne).
  destruct (JsMap.get other (clients s)) as [e|] eqn:E; [|reflexivity].
  destruct (Hall _ _ E) as (Hlt & _). now rewrite (Hobj e Hlt).
Qed.
End Isolation.

(** The call on the files server finds the channel closed and reconnects;
    the search server keeps its session and its status. *)
Lemma callTool_leaves_other_servers_alone_witness :
  history (snd (callTool (calmExcept 2 (callFails channelClosed)) "files"
                  "read_file" (JObject []) twoServers))
  = (history twoServers
     ++ [CallTool 0 "read_file" (JObject []); Close 0;
         Handshake 2 (StdioClientTransport (Some "mcp-files") None None None);
         CallTool 2 "read_file" (JObject [])])%list
  /\ JsMap.get "search"
       (clients (snd (callTool (calmExcept 2 (callFails channelClosed)) "files"
                        "read_file" (JObject []) twoServers)))
     = Some 1
  /\ getStatus "search"
       (snd (callTool (calmExcept 2 (callFails channelClosed)) "files"
               "read_file" (JObject []) twoServers))
     = {| status_connected := true |}.
Proof.
  assert (Q : undisturbed (calmExcept 2 (callFails channelClosed))).
  { intros n. unfold calmExcept. now destruct (Nat.eqb n 2). }
  assert (W : well_formed twoServers).
  { split; [repeat constructor; simpl; intuition discriminate|].
    intros name entry H.
    change (clients twoServers) with [("files", 0); ("search", 1)] in H.
    cbn [JsMap.get] in H.
    destruct (String.eqb name "files") eqn:E.
    - apply String.eqb_eq in E. injection H as <-. subst name.
      unfold made_by_connect. vm_compute. repeat split. lia.
    - destruct (String.eqb name "search") eqn:E'; [|discriminate].
      apply String.eqb_eq in E'. injection H as <-. subst name.
      unfold made_by_connect. vm_compute. repeat split. lia. }
  destruct (callTool_leaves_other_servers_alone
              (calmExcept 2 (callFails channelClosed)) Q twoServers "files"
              "read_file" (JObject []) W) as (Hmap & _ & Hstatus).
  split; [reflexivity|].
  split.
  - rewrite (Hmap "search"); [reflexivity|discriminate].
  - rewrite (Hstatus "search"); [reflexivity|discriminate].
Defined.

Section AfterClosing.
Variable env : nat -> Response.

Lemma close_removes serverName s :
  JsMap.get serverName (clients (snd (close env serverName s))) = None.
Proof.
  destruct (JsMap.get serverName (clients s)) as [entry|] eqn:E.
  - rewrite (close_found env serverName entry s E). tidy.
    apply JsMapFacts.get_delete_same.
  - now rewrite (close_missing env serverName s E).
Qed.

(** X6.  Once [close] has run for a server, the server is unknown to the
    pool: its status is disconnected, [callTool] and [listTools] throw
    [UnknownServerError] without issuing anything, and closing it again does
    nothing.  After [closeAll] this is so for every name, and a second
    [closeAll] does nothing. *)
Theorem closed_server_is_unknown
  (s : State) (serverName toolName : string) (args : js_value) :
  (close env serverName (snd (close env serverName s))
   = (Return tt, snd (close env serverName s))
   /\ getStatus serverName (snd (close env serverName s))
      = {| status_connected := false |}
   /\ callTool env serverName toolName args (snd (close env serverName s))
      = (Throw (UnknownServerError serverName), snd (close env serverName s))
   /\ listTools env serverName (snd (close env serverName s))
      = (Throw (UnknownServerError serverName), snd (close env serverName s)))
  /\ (closeAll env (snd (closeAll env s)) = (Return tt, snd (closeAll env s))
      /\ getStatus serverName (snd (closeAll env s))
         = {| status_connected := false |}
      /\ callTool env serverName toolName args (snd (closeAll env s))
         = (Throw (UnknownServerError serverName), snd (closeAll env s))
      /\ listTools env serverName (snd (closeAll env s))
         = (Throw (UnknownServerError serverName), snd (closeAll env s))).
Proof.
  split.
  - pose proof (close_removes serverName s) as Hgone.
    split; [now apply close_missing|].
    split; [unfold getStatus; now rewrite Hgone|].
    split; [now apply callTool_missing|now apply listTools_missing].
  - assert (Hempty : clients (snd (closeAll env s)) = []).
    { unfold closeAll, bind, gets. now apply close_each_empties. }
    split; [unfold closeAll at 1, bind, gets; now rewrite Hempty|].
    split; [unfold getStatus; now rewrite Hempty|].
    split; [apply callTool_missing|apply listTools_missing]; now rewrite Hempty.
Qed.
End AfterClosing.

Section Forgetting.
Variable env : nat -> Response.

(** X7.  A tool call never issues a discovery.  When the check of the
    arguments returned, the call had to reconnect and the reconnection
    succeeded, the session found under the name afterwards is the new one and
    has no schema on file: whatever the arguments, the advisory has nothing
    to say about the next calls, and nothing to throw, until [listTools] runs
    again.  When the check threw, the pool and its sessions are as they
    were. *)
Theorem call_that_reconnected_forgets_schemas
  (s : State) (serverName toolName : string) (args : js_value) (entry : nat)
  (err : thrown) (how : Transport) :
  JsMap.get serverName (clients s) = Some entry ->
  ServerConfig.name (config (objects s entry)) = serverName ->
  let settled := disturb (during (env (clock s))) s in
  let after := snd (callTool env serverName toolName args s) in
  let advice :=
    warnOnSchemaViolations serverName toolName args
      (toolSchemas (objects s entry)) in
  (forall t, In (ListTools t) (history after) -> In (ListTools t) (history s))
  /\ (raised advice = None ->
      calling (env (clock s)) = inl err ->
      connected (objects settled entry) = false \/ isConnectionError err = true ->
      JsMap.get serverName (clients settled) = Some entry ->
      createTransport (config (objects s entry)) = Return how ->
      handshake (env (2 + clock s)) = None ->
      forall e, JsMap.get serverName (clients after) = Some e ->
        e = fresh s
        /\ toolSchemas (objects after e) = JsMap.empty
        /\ forall nextTool nextArgs,
             warnOnSchemaViolations serverName nextTool nextArgs
               (toolSchemas (objects after e)) = quiet)
  /\ (forall typeError, raised advice = Some typeError ->
      history after = history s
      /\ clients after = clients s
      /\ objects after = objects s).
Proof.
  intros Hfound Hname settled after advice. split; [|split].
  - intros t Hin.
    destruct (raised advice) as [typeError|] eqn:Hraised.
    { subst after. revert Hin.
      rewrite (callTool_blocked env serverName toolName args entry s typeError
                 Hfound Hraised).
      tidy. exact (fun H => H). }
    destruct (callTool_verdict env s serverName toolName args entry Hfound Hname
                Hraised) as (_ & Hhist & _).
    fold after in Hhist. rewrite Hhist in Hin.
    apply in_app_or in Hin as [Hin|Hin]; [exact Hin|]. exfalso.
    revert Hin. unfold verdict.
    fold settled.
    destruct (calling (env (clock s))) as [failure|result];
      [|simpl; intuition discriminate].
    destruct (negb (connected (objects settled entry))
              || isConnectionError failure);
      [|simpl; intuition discriminate].
    destruct (JsMap.get serverName (clients settled));
      [|simpl; intuition discriminate].
    destruct (createTransport (config (objects s entry)));
      [|simpl; intuition discriminate].
    cbv zeta.
    destruct (handshake (env (2 + clock s))); simpl; intuition discriminate.
  - intros Hpass Hcall Hcond Hstill Hhow Hshake e. subst after.
    rewrite (callTool_passed env serverName toolName args entry s Hfound Hpass).
    cbv zeta. rewrite client_callTool_run. tidy. fold settled. rewrite Hcall.
    destruct (disturb_entry (during (env (clock s))) s entry) as (Hcfg & _).
    fold settled in Hcfg.
    replace (negb (connected (objects settled entry)) || isConnectionError err)
      with true
      by (symmetry; destruct Hcond as [-> | ->]; [reflexivity|apply orb_true_r]).
    set (s1 := reframe _ _ _ _ _).
    assert (Hf1 : JsMap.get serverName (clients s1) = Some entry) by exact Hstill.
    rewrite retry_unfold, (reconnect_found env serverName entry s1 Hf1).
    cbv zeta. rewrite connect_run. subst s1. tidy. rewrite Hcfg, Hhow.
    cbv zeta. tidy.
    change (2 + clock s) with (S (S (clock s))) in Hshake. rewrite Hshake. tidy.
    rewrite Hname, JsMapFacts.get_set_same, client_callTool_run. tidy.
    intros He. apply disturb_lookup in He. tidy_in He.
    rewrite Hname, JsMapFacts.get_set_same in He. injection He as <-.
    match goal with |- context [toolSchemas (objects (disturb ?l ?st) ?r)] =>
      destruct (disturb_entry l st r) as (_ & _ & _ & Hts & _) end.
    rewrite Hts. tidy. rewrite Nat.eqb_refl. cbn [toolSchemas].
    repeat split.
  - intros typeError Hraised. subst after.
    rewrite (callTool_blocked env serverName toolName args entry s typeError
               Hfound Hraised).
    tidy. repeat split.
Qed.
End Forgetting.

(** The forecast is asked for without a city, twice.  The first call warns
    and, the channel being closed, reconnects; the second call, the same
    arguments on the new session, warns no more. *)
Lemma call_that_reconnected_forgets_schemas_witness :
  JsMap.get "weather" (clients weatherPool) = Some 0
  /\ warned (warnOnSchemaViolations "weather" "forecast" (JObject [])
               (toolSchemas (objects weatherPool 0))) <> []
  /\ JsMap.get "weather"
       (clients (snd (callTool (calmExcept 2 (callFails channelClosed))
                        "weather" "forecast" (JObject []) weatherPool)))
     = Some 1
  /\ warnOnSchemaViolations "weather" "forecast" (JObject [])
       (toolSchemas
          (objects (snd (callTool (calmExcept 2 (callFails channelClosed))
                           "weather" "forecast" (JObject []) weatherPool)) 1))
     = quiet.
Proof.
  split; [reflexivity|]. split; [discriminate|]. split; [reflexivity|].
  destruct (call_that_reconnected_forgets_schemas
              (calmExcept 2 (callFails channelClosed)) weatherPool "weather"
              "forecast" (JObject []) 0 channelClosed
              (StdioClientTransport (Some "mcp-weather") None None None)
              eq_refl eq_refl) as (_ & H & _).
  destruct (H eq_refl eq_refl (or_intror eq_refl) eq_refl eq_refl eq_refl 1
              eq_refl) as (_ & _ & Hsilent).
  exact (Hsilent "forecast" (JObject [])).
Defined.

Section Ageing.
Implicit Types (s x y : State).

Lemma ages_refl s : ages s s.
Proof. split; [lia|auto]. Qed.

Lemma ages_trans s x y : ages s x -> ages x y -> ages s y.
Proof.
  intros [Hf Hc] [Hf' Hc']. split; [lia|].
  intros e He H. apply Hc; [exact He|]. apply Hc'; [lia|exact H].
Qed.

Lemma ages_reframe f c h k s : fresh s <= f -> ages s (reframe f c h k s).
Proof. intros H. split; [exact H|auto]. Qed.

Lemma ages_disturb l s : ages s (disturb l s).
Proof.
  destruct (disturb_bookkeeping l s) as (Hf & _). split; [lia|].
  intros e _. now destruct (disturb_entry l s e) as (_ & _ & _ & _ & H).
Qed.

Lemma ages_with_clients f s : ages s (with_clients f s).
Proof. split; [simpl; lia|auto]. Qed.

Lemma ages_remember entry tools s : ages s (with_object entry (remember tools) s).
Proof.
  split; [simpl; lia|]. intros e _. simpl. now destruct (Nat.eqb e entry).
Qed.

Variable env : nat -> Response.

Lemma ages_awaited f c h k s :
  fresh s <= f ->
  ages s (reframe f c h k (disturb (during (env (clock s))) s)).
Proof.
  intros Hf. apply (ages_trans s (disturb (during (env (clock s))) s)).
  - apply ages_disturb.
  - apply ages_reframe.
    destruct (disturb_bookkeeping (during (env (clock s))) s) as (-> & _).
    exact Hf.
Qed.

Lemma ages_connect cfg s : ages s (snd (connect env cfg s)).
Proof.
  rewrite connect_run. destruct (createTransport cfg) as [how|e].
  - cbv zeta. destruct (handshake (env (clock s))); cbn [snd].
    + apply ages_awaited. lia.
    + split; [simpl; lia|].
      intros e He. tidy. destruct (Nat.eqb e (fresh s)) eqn:E.
      * apply Nat.eqb_eq in E. lia.
      * now destruct (disturb_entry (during (env (clock s))) s e)
          as (_ & _ & _ & _ & H).
  - cbn [snd]. apply ages_reframe. lia.
Qed.

Lemma ages_client_callTool entry toolName args s :
  ages s (snd (client_callTool env entry toolName args s)).
Proof. rewrite client_callTool_run. cbn [snd]. apply ages_awaited. lia. Qed.

Lemma ages_reconnect serverName s : ages s (snd (reconnect env serverName s)).
Proof.
  destruct (JsMap.get serverName (clients s)) as [entry|] eqn:E.
  - rewrite (reconnect_found env serverName entry s E). cbv zeta.
    match goal with |- context [connect env ?c ?st] =>
      assert (A0 : ages s st);
      [|pose proof (ages_connect c st) as A1;
        destruct (connect env c st) as [[t|e] s']] end.
    + eapply ages_trans; [apply ages_disturb|].
      eapply ages_trans; [apply ages_with_clients|].
      apply ages_reframe. simpl.
      destruct (disturb_bookkeeping (during (env (clock s))) s) as (-> & _). lia.
    + cbn [snd] in *. eapply ages_trans; [exact A0|].
      eapply ages_trans; [exact A1|]. apply ages_reframe. lia.
    + cbn [snd] in *. eapply ages_trans; eassumption.
  - rewrite (reconnect_missing env serverName s E). apply ages_refl.
Qed.

Lemma ages_retry serverName toolName args s :
  ages s (snd (retry env serverName toolName args s)).
Proof.
  rewrite retry_unfold.
  pose proof (ages_reconnect serverName s) as A.
  destruct (reconnect env serverName s) as [[[]|e] s2]; cbn [snd] in *;
    [|exact A].
  destruct (JsMap.get serverName (clients s2)); [|exact A].
  eapply ages_trans; [exact A|apply ages_client_callTool].
Qed.

Lemma ages_callTool serverName toolName args s :
  ages s (snd (callTool env serverName toolName args s)).
Proof.
  destruct (JsMap.get serverName (clients s)) as [entry|] eqn:E.
  - rewrite (callTool_found env serverName toolName args entry s E). cbv zeta.
    destruct (raised _); [apply ages_reframe; lia|].
    match goal with |- context [client_callTool env entry toolName args ?st] =>
      assert (A0 : ages s st) by (apply ages_reframe; lia);
      pose proof (ages_client_callTool entry toolName args st) as A1;
      destruct (client_callTool env entry toolName args st) as [[r|e] s1] eqn:Hc
    end; cbn [snd] in *.
    + exact (ages_trans _ _ _ A0 A1).
    + destruct (negb (connected (objects s1 entry)) || isConnectionError e).
      * eapply ages_trans; [exact A0|].
        eapply ages_trans; [exact A1|apply ages_retry].
      * exact (ages_trans _ _ _ A0 A1).
  - rewrite (callTool_missing env serverName toolName args s E). apply ages_refl.
Qed.

Lemma ages_listTools serverName s : ages s (snd (listTools env serverName s)).
Proof.
  destruct (JsMap.get serverName (clients s)) as [entry|] eqn:E.
  - rewrite (listTools_found env serverName entry s E). cbv zeta.
    destruct (listing (env (clock s))); cbn [snd].
    + apply ages_awaited. lia.
    + eapply ages_trans; [apply (ages_awaited (fresh s)); lia|].
      apply ages_remember.
  - rewrite (listTools_missing env serverName s E). apply ages_refl.
Qed.

Lemma ages_close serverName s : ages s (snd (close env serverName s)).
Proof.
  destruct (JsMap.get serverName (clients s)) as [entry|] eqn:E.
  - rewrite (close_found env serverName entry s E). cbn [snd].
    eapply ages_trans; [apply ages_disturb|].
    eapply ages_trans; [apply ages_with_clients|].
    apply ages_reframe. simpl.
    destruct (disturb_bookkeeping (during (env (clock s))) s) as (-> & _). lia.
  - rewrite (close_missing env serverName s E). apply ages_refl.
Qed.

(** X8.  No operation of the pool marks an existing session connected
    again: a session that is marked disconnected stays so through every
    [connect], [listTools], [callTool] and [close] that follows, whatever the
    environment does.  A server reported disconnected is reported connected
    again only once a new session has taken its place. *)
Theorem disconnected_stays_disconnected (s : State) (e : nat) :
  e < fresh s ->
  connected (objects s e) = false ->
  (forall cfg, connected (objects (snd (connect env cfg s)) e) = false)
  /\ (forall serverName,
      connected (objects (snd (listTools env serverName s)) e) = false)
  /\ (forall serverName toolName args,
      connected (objects (snd (callTool env serverName toolName args s)) e)
      = false)
  /\ (forall serverName,
      connected (objects (snd (close env serverName s)) e) = false).
Proof.
  intros He Hdown.
  assert (H : forall s', ages s s' -> connected (objects s' e) = false).
  { intros s' [_ Hc]. destruct (connected (objects s' e)) eqn:E; [|reflexivity].
    rewrite (Hc e He E) in Hdown. discriminate. }
  split; [intros; apply H, ages_connect|].
  split; [intros; apply H, ages_listTools|].
  split; [intros; apply H, ages_callTool|].
  intros; apply H, ages_close.
Qed.
End Ageing.

(** The files session was marked disconnected.  Discovery on it succeeds,
    and the session is still marked disconnected afterwards. *)
Lemma disconnected_stays_disconnected_witness :
  connected (objects filesDown 0) = false
  /\ fst (listTools (fun _ => discovers [forecast]) "files" filesDown)
     = Return [forecast]
  /\ getStatus "files"
       (snd (listTools (fun _ => discovers [forecast]) "files" filesDown))
     = {| status_connected := false |}.
Proof.
  split; [reflexivity|]. split; [reflexivity|].
  assert (Hlt : 0 < fresh filesDown) by (vm_compute; lia).
  destruct (disconnected_stays_disconnected (fun _ => discovers [forecast])
              filesDown 0 Hlt eq_refl) as (_ & Hlist & _).
  change ({| status_connected :=
               connected
                 (objects (snd (listTools (fun _ => discovers [forecast])
                                  "files" filesDown)) 0) |}
          = {| status_connected := false |}).
  now rewrite (Hlist "files").
Defined.

(* ===================================================================== *)
(** * The plugin *)

Section Starting.
Variable env : nat -> Response.
Variable config : McpAdapterConfig.
Variable cache : option ToolCache.

(** What one turn of the loop of [start] yields: the failure is recorded, or
    the discovered tools are cached and, for a server the old cache lacks,
    registered. *)
Lemma startServer_cases (server : ServerConfig.t) (acc : Started) (s : State) :
  exists s',
    (exists err,
       startServer env config cache server acc s
       = (Return (failed_with (ServerConfig.name server) err acc), s'))
    \/ (exists tools,
          startServer env config cache server acc s
          = (Return
               (if uncached cache (ServerConfig.name server)
                then registered_with
                       (List.map (serviceRegistration config server) tools)
                       (cache_with (ServerConfig.name server)
                          (List.map (toCached server) tools) acc)
                else cache_with (ServerConfig.name server)
                       (List.map (toCached server) tools) acc), s')).
Proof.
  unfold startServer, try_catch, bind, console_write, modify, ret.
  cbv beta zeta.
  destruct (connect env server _) as [[t|e] s1]; [|eexists; left; eauto].
  destruct (listTools env (ServerConfig.name server) s1) as [[tools|e] s2];
    [|eexists; left; eauto].
  destruct (uncached cache (ServerConfig.name server)).
  - rewrite console_write_all_run. eexists. right. exists tools. reflexivity.
  - eexists. right. exists tools. reflexivity.
Qed.

Lemma startServers_returns remaining acc s :
  exists done s', startServers env config cache remaining acc s = (Return done, s').
Proof.
  revert acc s; induction remaining as [|server rest IH]; intros acc s.
  - simpl. unfold ret. eauto.
  - simpl. unfold bind.
    destruct (startServer_cases server acc s) as (s' & [(e & ->)|(tools & ->)]);
      apply IH.
Qed.

(** What a run of the loop preserves and adds. *)
Lemma startServers_invariant remaining acc s done s' :
  startServers env config cache remaining acc s = (Return done, s') ->
  cache_version (newCache done) = cache_version (newCache acc)
  /\ (forall name, In name (JsMap.keys (cache_servers (newCache acc))) ->
      In name (JsMap.keys (cache_servers (newCache done))))
  /\ (forall name, In name (List.map fst (failed acc)) ->
      In name (List.map fst (failed done)))
  /\ (forall server, In server remaining ->
      In (ServerConfig.name server) (JsMap.keys (cache_servers (newCache done)))
      \/ In (ServerConfig.name server) (List.map fst (failed done)))
  /\ (forall name, In name (JsMap.keys (cache_servers (newCache done))) ->
      In name (JsMap.keys (cache_servers (newCache acc)))
      \/ In name (List.map ServerConfig.name remaining))
  /\ exists added,
       registeredByService done = (registeredByService acc ++ added)%list
       /\ forall reg, In reg added ->
            exists server tool,
              In server remaining
              /\ uncached cache (ServerConfig.name server) = true
              /\ reg = serviceRegistration config server tool.
Proof.
  revert acc s; induction remaining as [|server rest IH]; intros acc s.
  - simpl. unfold ret. intros [= <- <-].
    repeat split; auto; try tauto.
    exists []. split; [now rewrite app_nil_r|intros reg []].
  - simpl. unfold bind.
    destruct (startServer_cases server acc s) as (s1 & [(e & ->)|(tools & ->)]).
    + intros H. destruct (IH _ _ H) as (Hv & Hk & Hf & Hall & Hback & added & Hreg & Hin).
      cbn [failed_with newCache failed registeredByService] in *.
      split; [exact Hv|]. split; [exact Hk|].
      split.
      { intros name Hn. apply Hf. rewrite map_app. apply in_or_app. now left. }
      split.
      { intros sv [<-|Hsv]; [|now apply Hall].
        right. apply Hf. rewrite map_app. apply in_or_app. right. now left. }
      split.
      { intros name Hn. destruct (Hback name Hn) as [?|?]; [now left|].
        right. now right. }
      exists added. split; [exact Hreg|].
      intros reg Hr. destruct (Hin reg Hr) as (sv & tool & Hsv & Hu & ->).
      exists sv, tool. split; [now right|]. now split.
    + intros H. destruct (IH _ _ H) as (Hv & Hk & Hf & Hall & Hback & added & Hreg & Hin).
      assert (Hset : forall name,
                In name (JsMap.keys
                           (JsMap.set (ServerConfig.name server)
                              (List.map (toCached server) tools)
                              (cache_servers (newCache acc)))) <->
                name = ServerConfig.name server
                \/ In name (JsMap.keys (cache_servers (newCache acc)))).
      { intros name. split; [apply JsMapFacts.in_keys_set|].
        intros [->|Hn].
        - eapply JsMapFacts.get_in_keys. apply JsMapFacts.get_set_same.
        - destruct (string_dec (ServerConfig.name server) name) as [<-|Hne].
          + eapply JsMapFacts.get_in_keys. apply JsMapFacts.get_set_same.
          + destruct (JsMap.get name (cache_servers (newCache acc))) eqn:E.
            * eapply JsMapFacts.get_in_keys.
              rewrite JsMapFacts.get_set_other by exact Hne. exact E.
            * now apply get_none_not_in_keys in E. }
      destruct (uncached cache (ServerConfig.name server)) eqn:Hunc;
        cbn [registered_with cache_with newCache failed registeredByService
             cache_version cache_servers] in *.
      * split; [exact Hv|].
        split; [intros name Hn; apply Hk, Hset; now right|].
        split; [exact Hf|].
        split.
        { intros sv [<-|Hsv]; [|now apply Hall].
          left. apply Hk, Hset. now left. }
        split.
        { intros name Hn. destruct (Hback name Hn) as [Hb|Hb].
          - apply Hset in Hb as [->|Hb]; [right; now left|now left].
          - right. now right. }
        exists (List.map (serviceRegistration config server) tools ++ added)%list.
        split; [now rewrite Hreg, app_assoc|].
        intros reg Hr. apply in_app_or in Hr as [Hr|Hr].
        -- apply in_map_iff in Hr as (tool & <- & _).
           exists server, tool. split; [now left|]. now split.
        -- destruct (Hin reg Hr) as (sv & tool & Hsv & Hu & ->).
           exists sv, tool. split; [now right|]. now split.
      * split; [exact Hv|].
        split; [intros name Hn; apply Hk, Hset; now right|].
        split; [exact Hf|].
        split.
        { intros sv [<-|Hsv]; [|now apply Hall].
          left. apply Hk, Hset. now left. }
        split.
        { intros name Hn. destruct (Hback name Hn) as [Hb|Hb].
          - apply Hset in Hb as [->|Hb]; [right; now left|now left].
          - right. now right. }
        exists added. split; [exact Hreg|].
        intros reg Hr. destruct (Hin reg Hr) as (sv & tool & Hsv & Hu & ->).
        exists sv, tool. split; [now right|]. now split.
Qed.

Lemma start_runs cachePath s :
  exists done s0 s',
    startServers env config cache (servers config)
      {| newCache := {| cache_version := CACHE_VERSION;
                        cache_servers := JsMap.empty |};
         registeredByService := []; failed := [] |} s = (Return done, s0)
    /\ start env config cache cachePath s = (Return done, s').
Proof.
  destruct (startServers_returns (servers config)
              {| newCache := {| cache_version := CACHE_VERSION;
                                cache_servers := JsMap.empty |};
                 registeredByService := []; failed := [] |} s)
    as (done & s0 & Hrun).
  exists done, s0. unfold start, bind at 1. rewrite Hrun.
  destruct (Nat.ltb 0 (List.length (registeredByService done)));
    eexists; (split; [reflexivity|]); reflexivity.
Qed.

(** X9.  [start] never throws, whatever the servers do.  The cache it hands
    to the writer has the current version, so that [readCache] accepts it
    when it finds it at the next load, and names configured servers only.
    Every configured server is accounted for: it is in that cache, or its
    failure is among those logged.  Server names are
    taken to be none of those every object inherits ([plainlyNamed]). *)
Theorem start_accounts_for_every_server (cachePath : string) (s : State) :
  plainlyNamed config = true ->
  exists done s',
    start env config cache cachePath s = (Return done, s')
    /\ cache_version (newCache done) = CACHE_VERSION
    /\ readCache (Holds (newCache done)) = Some (newCache done)
    /\ (forall name, In name (JsMap.keys (cache_servers (newCache done))) ->
        In name (List.map ServerConfig.name (servers config)))
    /\ (forall server, In server (servers config) ->
        In (ServerConfig.name server)
          (JsMap.keys (cache_servers (newCache done)))
        \/ In (ServerConfig.name server) (List.map fst (failed done))).
Proof.
  intros _.
  destruct (start_runs cachePath s) as (done & s0 & s' & Hloop & Hstart).
  exists done, s'. split; [exact Hstart|].
  destruct (startServers_invariant _ _ _ _ _ Hloop)
    as (Hv & _ & _ & Hall & Hback & _).
  split; [exact Hv|].
  split; [unfold readCache; rewrite Hv; reflexivity|].
  split; [|exact Hall].
  intros name Hn. destruct (Hback name Hn) as [[]|H]. exact H.
Qed.

(** X10.  Every tool [start] registers belongs to a configured server for
    which the cache read at load time has no entry, is registered under the
    prefixed or plain name the configuration asks for, and gets the
    service-phase entry point.  For a server the cache knows, even with an
    empty list of tools, [start] registers nothing, whatever discovery
    finds.  Server names are
    taken to be none of those every object inherits ([plainlyNamed]). *)
Theorem start_registers_uncached_servers_only (cachePath : string) (s : State) :
  plainlyNamed config = true ->
  forall done s',
    start env config cache cachePath s = (Return done, s') ->
    forall reg, In reg (registeredByService done) ->
      exists server tool,
        In server (servers config)
        /\ uncached cache (ServerConfig.name server) = true
        /\ registered_name reg = exposedName config server (tool_name tool)
        /\ registered_execute reg = ServiceEntry server (tool_name tool).
Proof.
  intros _ done s' Hdone reg Hreg.
  destruct (start_runs cachePath s) as (done0 & s0 & s1 & Hloop & Hstart).
  rewrite Hstart in Hdone. injection Hdone as <- _.
  destruct (startServers_invariant _ _ _ _ _ Hloop)
    as (_ & _ & _ & _ & _ & added & Hadded & Hin).
  simpl in Hadded. rewrite Hadded in Hreg.
  destruct (Hin reg Hreg) as (server & tool & Hsv & Hunc & ->).
  exists server, tool. now repeat split.
Qed.
End Starting.

(** Two servers, the old cache knowing the weather server only, both servers
    answering: both end up in the new cache. *)
Lemma start_accounts_for_every_server_witness :
  plainlyNamed bothServers = true
  /\ fst (start (fun _ => discovers [forecast]) bothServers (Some weatherCached)
            "tool-cache.json" emptyPool)
     = Return startedUncached
  /\ JsMap.keys (cache_servers (newCache startedUncached)) = ["files"; "weather"]
  /\ exists done s',
       start (fun _ => discovers [forecast]) bothServers (Some weatherCached)
         "tool-cache.json" emptyPool = (Return done, s')
       /\ readCache (Holds (newCache done)) = Some (newCache done)
       /\ forall server, In server (servers bothServers) ->
            In (ServerConfig.name server)
              (JsMap.keys (cache_servers (newCache done)))
            \/ In (ServerConfig.name server) (List.map fst (failed done)).
Proof.
  split; [reflexivity|].
  split; [vm_compute; reflexivity|]. split; [reflexivity|].
  destruct (start_accounts_for_every_server (fun _ => discovers [forecast])
              bothServers (Some weatherCached) "tool-cache.json" emptyPool
              eq_refl) as (done & s' & Hstart & _ & Hread & _ & Hall).
  exists done, s'. split; [exact Hstart|]. split; [exact Hread|exact Hall].
Defined.

(** Two servers, the old cache knowing the weather server only, both servers
    answering: [start] registers the tool of the files server, under its
    prefixed name, and nothing for the weather server. *)
Lemma start_registers_uncached_servers_only_witness :
  fst (start (fun _ => discovers [forecast]) bothServers (Some weatherCached)
         "tool-cache.json" emptyPool)
  = Return (startedUncached)
  /\ exists server tool,
       In server (servers bothServers)
       /\ uncached (Some weatherCached) (ServerConfig.name server) = true
       /\ registered_name (serviceRegistration bothServers files forecast)
          = exposedName bothServers server (tool_name tool)
       /\ registered_execute (serviceRegistration bothServers files forecast)
          = ServiceEntry server (tool_name tool).
Proof.
  assert (E : fst (start (fun _ => discovers [forecast]) bothServers
                     (Some weatherCached) "tool-cache.json" emptyPool)
              = Return startedUncached) by (vm_compute; reflexivity).
  split; [exact E|].
  apply (start_registers_uncached_servers_only
           (fun _ => discovers [forecast]) bothServers (Some weatherCached)
           "tool-cache.json" emptyPool eq_refl startedUncached
           (snd (start (fun _ => discovers [forecast]) bothServers
                   (Some weatherCached) "tool-cache.json" emptyPool))).
  - rewrite <- E. apply surjective_pairing.
  - left. reflexivity.
Defined.

Section Loading.
Variable config : McpAdapterConfig.

Lemma registerCachedTools_map server cachedTools :
  registerCachedTools config server cachedTools
  = List.map (cachedRegistration config server) cachedTools.
Proof.
  induction cachedTools as [|tool rest IH]; simpl; [reflexivity|].
  now rewrite IH.
Qed.

Lemma registerFromCache_spec (c : ToolCache) (remaining : list ServerConfig.t)
  (reg : Registration) :
  In reg (registerFromCache config c remaining)
  <-> exists server cachedTools tool,
        In server remaining
        /\ JsMap.get (ServerConfig.name server) (cache_servers c) = Some cachedTools
        /\ In tool cachedTools
        /\ reg = cachedRegistration config server tool.
Proof.
  induction remaining as [|server rest IH]; simpl.
  - split; [intros []|intros (sv & ts & t & [] & _)].
  - destruct (JsMap.get (ServerConfig.name server) (cache_servers c))
      as [cachedTools|] eqn:E.
    + rewrite in_app_iff, registerCachedTools_map, in_map_iff, IH. split.
      * intros [(tool & <- & Ht)|(sv & ts & t & Hsv & Hget & Ht & ->)].
        -- exists server, cachedTools, tool. repeat split; auto.
        -- exists sv, ts, t. repeat split; auto.
      * intros (sv & ts & t & [<-|Hsv] & Hget & Ht & ->).
        -- left. rewrite E in Hget. injection Hget as <-. now exists t.
        -- right. now exists sv, ts, t.
    + rewrite IH. split.
      * intros (sv & ts & t & Hsv & Hget & Ht & ->).
        exists sv, ts, t. repeat split; auto.
      * intros (sv & ts & t & [<-|Hsv] & Hget & Ht & ->).
        -- congruence.
        -- now exists sv, ts, t.
Qed.

(** X11.  What the plugin registers when it is loaded.  With no server
    configured it registers no tool and no service, whatever the cache holds.
    Otherwise it registers the service, and the tools it registers at once
    are exactly the cached tools of the configured servers, each under its
    prefixed or plain name and with the lazily connecting entry point: what
    the cache holds for a server that is not configured is ignored, and
    without a cache nothing is registered until the service starts.  Server names are
    taken to be none of those every object inherits ([plainlyNamed]). *)
Theorem load_registers_cached_tools_of_configured_servers
  (cache : option ToolCache) :
  plainlyNamed config = true ->
  (servers config = [] ->
   registeredAtLoad (load config cache) = []
   /\ registersService (load config cache) = false)
  /\ (servers config <> [] -> registersService (load config cache) = true)
  /\ (forall reg,
      In reg (registeredAtLoad (load config cache))
      <-> exists c server cachedTools tool,
            cache = Some c
            /\ In server (servers config)
            /\ JsMap.get (ServerConfig.name server) (cache_servers c)
               = Some cachedTools
            /\ In tool cachedTools
            /\ registered_name reg
               = exposedName config server (cached_name tool)
            /\ registered_execute reg = CachedEntry server (cached_name tool)
            /\ reg = cachedRegistration config server tool).
Proof.
  intros _.
  unfold load. split; [intros ->; now split|].
  split.
  { destruct (servers config); [congruence|]. now destruct cache. }
  intros reg.
  destruct (servers config) as [|server0 rest] eqn:Hservers.
  - simpl. split; [intros []|].
    intros (c & sv & ts & t & _ & [] & _).
  - destruct cache as [c|]; cbn [registeredAtLoad].
    + rewrite registerFromCache_spec. split.
      * intros (sv & ts & t & Hsv & Hget & Ht & ->).
        exists c, sv, ts, t. now repeat split.
      * intros (c' & sv & ts & t & [= <-] & Hsv & Hget & Ht & _ & _ & ->).
        now exists sv, ts, t.
    + split; [intros []|]. intros (c' & sv & ts & t & Habs & _). discriminate.
Qed.

(** X12.  No server has tools registered in both phases: the servers whose
    cached tools are registered at load time are servers the cache knows, and
    the service registers discovered tools only for servers the cache does
    not know, in every environment.  Server names are
    taken to be none of those every object inherits ([plainlyNamed]). *)
Theorem phases_register_for_different_servers
  (env : nat -> Response) (c : ToolCache) (cachePath : string) (s : State)
  (done : Started) (s' : State) (atLoad byService : Registration) :
  plainlyNamed config = true ->
  start env config (Some c) cachePath s = (Return done, s') ->
  In atLoad (registeredAtLoad (load config (Some c))) ->
  In byService (registeredByService done) ->
  ServerConfig.name (serverOf (registered_execute atLoad))
  <> ServerConfig.name (serverOf (registered_execute byService)).
Proof.
  intros _ Hstart Hload Hservice.
  assert (Hcached : uncached (Some c)
                      (ServerConfig.name (serverOf (registered_execute atLoad)))
                    = false).
  { unfold load in Hload. destruct (servers config) as [|sv0 rest] eqn:Hs;
      [destruct Hload|].
    cbn [registeredAtLoad] in Hload. apply registerFromCache_spec in Hload
      as (sv & ts & t & _ & Hget & _ & ->).
    simpl. now rewrite Hget. }
  destruct (start_runs env config (Some c) cachePath s)
    as (done0 & s0 & s1 & Hloop & Hstart').
  rewrite Hstart' in Hstart. injection Hstart as <- _.
  destruct (startServers_invariant _ _ _ _ _ _ _ _ Hloop)
    as (_ & _ & _ & _ & _ & added & Hadded & Hin).
  simpl in Hadded. rewrite Hadded in Hservice.
  destruct (Hin byService Hservice) as (server & tool & _ & Hunc & ->).
  simpl. intros Heq. rewrite Heq in Hcached. congruence.
Qed.
End Loading.

(** The cache knows the forecast of the weather server.  Loaded with both
    servers configured, the plugin registers it as [weather_forecast]; loaded
    with no server configured, it registers nothing. *)
Lemma load_registers_cached_tools_of_configured_servers_witness :
  registeredAtLoad (load noServers (Some weatherCached)) = []
  /\ registersService (load noServers (Some weatherCached)) = false
  /\ registersService (load bothServers (Some weatherCached)) = true
  /\ registeredAtLoad (load bothServers (Some weatherCached))
     = [cachedRegistration bothServers weather (toCached weather forecast)]
  /\ registered_name
       (cachedRegistration bothServers weather (toCached weather forecast))
     = "weather_forecast".
Proof.
  destruct (load_registers_cached_tools_of_configured_servers noServers
              (Some weatherCached) eq_refl) as (Hnone & _).
  destruct (load_registers_cached_tools_of_configured_servers bothServers
              (Some weatherCached) eq_refl) as (_ & Hsome & _).
  destruct (Hnone eq_refl) as [H1 H2].
  split; [exact H1|]. split; [exact H2|].
  split; [apply Hsome; discriminate|]. split; reflexivity.
Defined.

(** The forecast of the weather server comes from the cache, that of the
    files server from the service: two different servers. *)
Lemma phases_register_for_different_servers_witness :
  In (cachedRegistration bothServers weather (toCached weather forecast))
    (registeredAtLoad (load bothServers (Some weatherCached)))
  /\ In (serviceRegistration bothServers files forecast)
       (registeredByService startedUncached)
  /\ ServerConfig.name
       (serverOf (registered_execute
                    (cachedRegistration bothServers weather
                       (toCached weather forecast))))
     <> ServerConfig.name
          (serverOf (registered_execute
                       (serviceRegistration bothServers files forecast))).
Proof.
  assert (E : fst (start (fun _ => discovers [forecast]) bothServers
                     (Some weatherCached) "tool-cache.json" emptyPool)
              = Return startedUncached) by (vm_compute; reflexivity).
  split; [left; reflexivity|]. split; [left; reflexivity|].
  apply (phases_register_for_different_servers bothServers
           (fun _ => discovers [forecast]) weatherCached "tool-cache.json"
           emptyPool startedUncached
           (snd (start (fun _ => discovers [forecast]) bothServers
                   (Some weatherCached) "tool-cache.json" emptyPool))).
  - reflexivity.
  - rewrite <- E. apply surjective_pairing.
  - left. reflexivity.
  - left. reflexivity.
Defined.

Section Unreachable.
Variable env : nat -> Response.
Variable config : McpAdapterConfig.
Variable cache : option ToolCache.
Hypothesis refused : unreachable env.

Lemma connect_refused cfg s : exists err s', connect env cfg s = (Throw err, s').
Proof.
  rewrite connect_run. destruct (createTransport cfg) as [how|e]; [|eauto].
  cbv zeta. destruct (refused (clock s)) as (err & ->). eauto.
Qed.

Lemma startServer_refused server acc s :
  exists err s',
    startServer env config cache server acc s
    = (Return (failed_with (ServerConfig.name server) err acc), s').
Proof.
  unfold startServer, try_catch, bind, console_write, modify, ret.
  cbv beta zeta.
  match goal with |- context [connect env server ?st] =>
    destruct (connect_refused server st) as (err & s' & ->) end.
  eauto.
Qed.

Lemma startServers_refused remaining acc s done s' :
  startServers env config cache remaining acc s = (Return done, s') ->
  newCache done = newCache acc
  /\ registeredByService done = registeredByService acc
  /\ List.map fst (failed done)
     = (List.map fst (failed acc) ++ List.map ServerConfig.name remaining)%list.
Proof.
  revert acc s; induction remaining as [|server rest IH]; intros acc s.
  - simpl. unfold ret. intros [= <- <-]. now rewrite app_nil_r.
  - simpl. unfold bind.
    destruct (startServer_refused server acc s) as (err & s1 & ->).
    intros H. destruct (IH _ _ H) as (Hc & Hr & Hf).
    cbn [failed_with newCache registeredByService failed] in *.
    split; [exact Hc|]. split; [exact Hr|].
    rewrite Hf, map_app, <- app_assoc. reflexivity.
Qed.

(** X13.  When no server can be reached, [start] still completes: it
    registers nothing, logs one failure per configured server, in order, and
    hands the writer a cache without any server.  What the cache held before
    is not carried over.  Server names are
    taken to be none of those every object inherits ([plainlyNamed]). *)
Theorem start_with_no_server_reachable (cachePath : string) (s : State) :
  plainlyNamed config = true ->
  exists done s',
    start env config cache cachePath s = (Return done, s')
    /\ cache_servers (newCache done) = JsMap.empty
    /\ registeredByService done = []
    /\ List.map fst (failed done) = List.map ServerConfig.name (servers config)
    /\ load config (readCache (Holds (newCache done)))
       = load config (Some {| cache_version := CACHE_VERSION;
                              cache_servers := JsMap.empty |})
    /\ registeredAtLoad (load config (readCache (Holds (newCache done)))) = [].
Proof.
  intros _.
  destruct (start_runs env config cache cachePath s)
    as (done & s0 & s' & Hloop & Hstart).
  exists done, s'. split; [exact Hstart|].
  destruct (startServers_refused _ _ _ _ _ Hloop) as (Hc & Hr & Hf).
  rewrite Hc. cbn [newCache cache_servers registeredByService failed map app] in *.
  split; [reflexivity|]. split; [exact Hr|]. split; [exact Hf|].
  split; [reflexivity|].
  unfold load, readCache. cbn.
  destruct (servers config) as [|sv rest]; [reflexivity|].
  cbn [registeredAtLoad].
  clear. induction (sv :: rest) as [|x l IH]; [reflexivity|exact IH].
Qed.
End Unreachable.

(** Both servers refuse the handshake although the cache knew the weather
    server: the new cache is empty and both failures are logged. *)
Lemma start_with_no_server_reachable_witness :
  unreachable (fun _ => handshakeFails spawnFails)
  /\ plainlyNamed bothServers = true
  /\ fst (start (fun _ => handshakeFails spawnFails) bothServers
            (Some weatherCached) "tool-cache.json" emptyPool)
     = Return {| newCache := {| cache_version := CACHE_VERSION;
                                cache_servers := [] |};
                 registeredByService := [];
                 failed := [("files", spawnFails); ("weather", spawnFails)] |}
  /\ exists done s',
       start (fun _ => handshakeFails spawnFails) bothServers
         (Some weatherCached) "tool-cache.json" emptyPool = (Return done, s')
       /\ cache_servers (newCache done) = JsMap.empty
       /\ registeredByService done = []
       /\ List.map fst (failed done) = ["files"; "weather"].
Proof.
  assert (U : unreachable (fun _ => handshakeFails spawnFails))
    by (intros n; now exists spawnFails).
  split; [exact U|]. split; [reflexivity|].
  split; [vm_compute; reflexivity|].
  destruct (start_with_no_server_reachable (fun _ => handshakeFails spawnFails)
              bothServers (Some weatherCached) U "tool-cache.json" emptyPool
              eq_refl)
    as (done & s' & Hstart & Hcache & Hregs & Hfailed & _).
  exists done, s'. split; [exact Hstart|]. split; [exact Hcache|].
  split; [exact Hregs|exact Hfailed].
Defined.

(* ===================================================================== *)
(** * The configuration module *)

Lemma endsWith_spec (suffix s : string) :
  endsWith suffix s = true <-> exists stem, s = stem ++ suffix.
Proof.
  split.
  - induction s as [|c s IH]; cbn [endsWith]; intros H.
    + rewrite orb_false_r in H. apply String.eqb_eq in H as <-.
      now exists EmptyString.
    + apply orb_prop in H as [H|H].
      * apply String.eqb_eq in H as <-. now exists EmptyString.
      * destruct (IH H) as (stem & ->). now exists (String c stem).
  - intros (stem & ->). induction stem as [|c stem IH].
    + destruct suffix; cbn [endsWith append]; now rewrite String.eqb_refl.
    + cbn [endsWith append]. rewrite IH. apply orb_true_r.
Qed.

Lemma startsWith_spec (p s : string) :
  startsWith p s = true <-> exists rest, s = p ++ rest.
Proof.
  split; [apply startsWith_inv|]. intros (rest & ->). apply startsWith_app.
Qed.

Lemma oneOf_spec (chars : list ascii) (c : ascii) :
  oneOf chars c = true <-> In c chars.
Proof.
  unfold oneOf. rewrite existsb_exists. split.
  - intros (x & Hx & E). apply Ascii.eqb_eq in E. now subst.
  - intros H. exists c. split; [exact H|apply Ascii.eqb_refl].
Qed.

(** The pattern of the range 172.16.0.0/12 accepts the sixteen second octets
    and nothing else. *)
Lemma matches172_spec (hostname : string) :
  matches172 hostname = true
  <-> exists octet rest,
        In octet octets16to31 /\ hostname = "172." ++ octet ++ "." ++ rest.
Proof.
  split.
  - unfold matches172. intros H. apply andb_prop in H as [Hp H].
    apply startsWith_inv in Hp as [rest ->].
    destruct rest as [|a [|b [|dot tail]]]; try discriminate H.
    cbn [append] in H. apply andb_prop in H as [H Hdot].
    apply Ascii.eqb_eq in Hdot as ->.
    repeat rewrite orb_true_iff in H. repeat rewrite andb_true_iff in H.
    unfold isDigit in H. repeat rewrite oneOf_spec in H.
    repeat rewrite Ascii.eqb_eq in H.
    exists (String a (String b EmptyString)), tail.
    split; [|reflexivity].
    destruct H as [[[-> Hb]|[-> Hb]]|[-> Hb]]; simpl in Hb |- *;
      repeat (destruct Hb as [<-|Hb]; [tauto|]); destruct Hb.
  - intros (octet & rest & Hin & ->).
    simpl in Hin.
    repeat (destruct Hin as [<-|Hin]; [reflexivity|]). destruct Hin.
Qed.

(** Find the disjunct that holds. *)
Ltac pick_disjunct :=
  first [ solve [assumption | reflexivity | eexists; reflexivity]
        | left; pick_disjunct
        | right; pick_disjunct ].

(** X14.  Which host names [isPrivateHost] takes for private: those that
    begin with one of eight prefixes, those in 172.16 to 172.31, six names
    taken as a whole, and those that end in [.local].  The test reads the
    spelling of the name only. *)
Theorem isPrivateHost_spec (hostname : string) :
  isPrivateHost hostname = true
  <-> (exists prefix rest, In prefix privatePrefixes /\ hostname = prefix ++ rest)
      \/ (exists octet rest,
            In octet octets16to31 /\ hostname = "172." ++ octet ++ "." ++ rest)
      \/ In hostname privateNames
      \/ (exists stem, hostname = stem ++ ".local").
Proof.
  unfold isPrivateHost, PRIVATE_IP_PATTERNS, matchesLoopback6.
  cbn [existsb]. repeat rewrite orb_false_r. repeat rewrite orb_true_iff.
  rewrite matches172_spec, endsWith_spec.
  repeat rewrite startsWith_spec. repeat rewrite String.eqb_eq.
  unfold privatePrefixes, privateNames. cbn [In].
  split.
  - intros H.
    repeat match goal with H : _ \/ _ |- _ => destruct H as [H|H] end;
      first [ right; right; right; exact H
            | right; left; exact H
            | subst; right; right; left; tauto
            | destruct H as (r & ->); left; eexists; eexists;
              split; [|reflexivity]; tauto ].
  - intros [(prefix & r & Hin & ->)|[H|[H|H]]].
    + repeat (destruct Hin as [<-|Hin]; [pick_disjunct|]). destruct Hin.
    + pick_disjunct.
    + repeat (destruct H as [<-|H]; [pick_disjunct|]). destruct H.
    + pick_disjunct.
Qed.

Lemma append_nil_r (s : string) : s ++ EmptyString = s.
Proof. induction s as [|c s IH]; simpl; [reflexivity|now rewrite IH]. Qed.

Lemma append_assoc (a b c : string) : a ++ b ++ c = (a ++ b) ++ c.
Proof. induction a as [|x a IH]; simpl; [reflexivity|now rewrite IH]. Qed.

Section Substitution.
Variable processEnv : string -> option string.

Lemma includes_cons (needle : string) (c : ascii) (rest : string) :
  includes needle (String c rest)
  = startsWith needle (String c rest) || includes needle rest.
Proof. reflexivity. Qed.

Lemma includes_char_cons (a c : ascii) (rest : string) :
  includes (String a EmptyString) (String c rest) = false ->
  Ascii.eqb c a = false /\ includes (String a EmptyString) rest = false.
Proof.
  rewrite includes_cons. cbn [startsWith]. rewrite andb_true_r.
  intros H. apply orb_false_elim in H as [H1 H2].
  now rewrite Ascii.eqb_sym.
Qed.

(** Without a closing brace nothing matches: whatever the scan holds back is
    copied with the rest. *)
Lemma replaceVars_no_closing (text : string) (state : Scan) :
  includes "}" text = false ->
  replaceVars processEnv state text = (pending state ++ text, []).
Proof.
  revert state; induction text as [|c rest IH]; intros state H.
  - destruct state; simpl; now rewrite ?append_nil_r.
  - apply includes_char_cons in H as [Hc Hrest].
    destruct state as [| |name]; cbn [replaceVars pending].
    + destruct (Ascii.eqb_spec c "$") as [->|_].
      * now rewrite (IH AfterDollar Hrest).
      * unfold put. now rewrite (IH Outside Hrest).
    + destruct (Ascii.eqb_spec c "{") as [->|_].
      * now rewrite (IH (InName EmptyString) Hrest).
      * destruct (Ascii.eqb_spec c "$") as [->|_]; unfold put.
        -- now rewrite (IH AfterDollar Hrest).
        -- now rewrite (IH Outside Hrest).
    + rewrite Hc, (IH _ Hrest). cbn [pending].
      now rewrite <- !append_assoc.
Qed.

(** Without a dollar followed by an opening brace nothing matches either. *)
Lemma replaceVars_no_opening (text : string) :
  includes "${" text = false ->
  replaceVars processEnv Outside text = (text, [])
  /\ (startsWith "{" text = false ->
      replaceVars processEnv AfterDollar text = (String "$" text, [])).
Proof.
  induction text as [|c rest IH]; intros H.
  - now split.
  - rewrite includes_cons in H. apply orb_false_elim in H as [Hhere Hrest].
    destruct (IH Hrest) as [IHout IHafter].
    cbn [startsWith] in Hhere. split.
    + cbn [replaceVars]. destruct (Ascii.eqb_spec c "$") as [->|_].
      * rewrite Ascii.eqb_refl in Hhere. cbn [andb] in Hhere.
        now rewrite (IHafter Hhere).
      * unfold put. now rewrite IHout.
    + intros Hbrace. cbn [startsWith] in Hbrace. rewrite andb_true_r in Hbrace.
      cbn [replaceVars]. rewrite Ascii.eqb_sym in Hbrace. rewrite Hbrace.
      destruct (Ascii.eqb_spec c "$") as [->|_]; unfold put.
      * rewrite Ascii.eqb_refl in Hhere. cbn [andb] in Hhere.
        now rewrite (IHafter Hhere).
      * now rewrite IHout.
Qed.

(** X15.  A value that lacks a dollar followed by an opening brace, or that
    lacks a closing brace, goes through the replacement unchanged and without
    any warning, whatever the environment holds. *)
Theorem replaceVars_keeps_text_without_reference (text : string) :
  includes "${" text = false \/ includes "}" text = false ->
  replaceVars processEnv Outside text = (text, []).
Proof.
  intros [H|H].
  - now apply replaceVars_no_opening.
  - now rewrite replaceVars_no_closing.
Qed.

(** Text without a dollar is copied. *)
Lemma replaceVars_copies (pre rest : string) :
  includes "$" pre = false ->
  replaceVars processEnv Outside (pre ++ rest)
  = put pre (replaceVars processEnv Outside rest).
Proof.
  induction pre as [|c pre IH]; intros H.
  - unfold put. cbn [append]. now destruct (replaceVars processEnv Outside rest).
  - apply includes_char_cons in H as [Hc Hpre].
    cbn [append replaceVars]. rewrite Hc, (IH Hpre). reflexivity.
Qed.

(** Inside the braces everything up to the closing brace is the name. *)
Lemma replaceVars_reads_name (name acc rest : string) :
  includes "}" name = false ->
  replaceVars processEnv (InName acc) (name ++ rest)
  = replaceVars processEnv (InName (acc ++ name)) rest.
Proof.
  revert acc; induction name as [|c name IH]; intros acc H.
  - now rewrite append_nil_r.
  - apply includes_char_cons in H as [Hc Hname].
    cbn [append replaceVars]. rewrite Hc, (IH _ Hname).
    now rewrite <- append_assoc.
Qed.

(** X16.  One reference: after text without a dollar, a name of at least
    one character without a closing brace, in braces after a dollar, is
    replaced by what the callback returns for it, with its warning if any;
    the replacement is not scanned again, and the scan resumes after the
    closing brace. *)
Theorem replaceVars_substitutes (pre name post : string) :
  includes "$" pre = false ->
  name <> EmptyString ->
  includes "}" name = false ->
  replaceVars processEnv Outside (pre ++ "${" ++ name ++ "}" ++ post)
  = (pre ++ fst (substitute processEnv name)
         ++ fst (replaceVars processEnv Outside post),
     (snd (substitute processEnv name)
      ++ snd (replaceVars processEnv Outside post))%list).
Proof.
  intros Hpre Hname Hbrace.
  rewrite (replaceVars_copies _ _ Hpre). unfold put.
  cbn [append replaceVars Ascii.eqb Bool.eqb andb].
  rewrite (replaceVars_reads_name _ _ _ Hbrace).
  cbn [append replaceVars Ascii.eqb Bool.eqb andb].
  destruct name as [|c name]; [congruence|]. reflexivity.
Qed.
End Substitution.

(** A flag without reference, and an unterminated one, under [portEnv]. *)
Lemma replaceVars_keeps_text_without_reference_witness :
  replaceVars portEnv Outside "--verbose $PORT" = ("--verbose $PORT", [])
  /\ replaceVars portEnv Outside "--port=${PORT" = ("--port=${PORT", []).
Proof.
  split.
  - apply (replaceVars_keeps_text_without_reference portEnv "--verbose $PORT").
    left. reflexivity.
  - apply (replaceVars_keeps_text_without_reference portEnv "--port=${PORT").
    right. reflexivity.
Defined.

(** [PORT] is set and [HOST] is not. *)
Lemma replaceVars_substitutes_witness :
  replaceVars portEnv Outside "--port=${PORT}!"
  = ("--port=8080!", [])
  /\ replaceVars portEnv Outside "--host=${HOST}!"
     = ("--host=!", [notSet "HOST"]).
Proof.
  split.
  - apply (replaceVars_substitutes portEnv "--port=" "PORT" "!");
      [reflexivity|discriminate|reflexivity].
  - apply (replaceVars_substitutes portEnv "--host=" "HOST" "!");
      [reflexivity|discriminate|reflexivity].
Defined.

Lemma set_fresh {V} (k : string) (v : V) (m : JsMap.t V) :
  ~ In k (JsMap.keys m) -> JsMap.set k v m = (m ++ [(k, v)])%list.
Proof.
  induction m as [|[k' v'] m IH]; simpl; intros H; [reflexivity|].
  destruct (String.eqb_spec k k') as [->|_]; [tauto|].
  rewrite IH; [reflexivity|tauto].
Qed.

Section Interpolating.
Variable processEnv : string -> option string.

Lemma interpolateEntries_strings (fields : list (string * string))
  (result : JsMap.t string) :
  NoDup (JsMap.keys result ++ List.map fst fields) ->
  interpolateEntries processEnv
    (List.map (fun kv => (fst kv, JString (snd kv))) fields) result
  = (Accepted (result ++ List.map (interpolatedField processEnv) (kept fields))%list,
     flat_map (fun kv => snd (replaceVars processEnv Outside (snd kv))) fields).
Proof.
  revert result; induction fields as [|[k v] rest IH]; intros result Hnd.
  - simpl. now rewrite app_nil_r.
  - cbn [List.map fst snd interpolateEntries flat_map kept filter].
    unfold assign. fold (kept rest).
    destruct (String.eqb k "__proto__") eqn:Hk; cbn [negb].
    + rewrite IH; [reflexivity|].
      simpl in Hnd. now apply NoDup_remove_1 in Hnd.
    + simpl in Hnd. pose proof (NoDup_remove_2 _ _ _ Hnd) as Hfresh.
      rewrite set_fresh by (intros Hin; apply Hfresh, in_or_app; now left).
      rewrite IH.
      * cbn [fst snd]. rewrite <- app_assoc. reflexivity.
      * unfold JsMap.keys. rewrite map_app, <- app_assoc. exact Hnd.
Qed.

(** X17.  On an object whose values are all strings, [interpolateEnv] keeps
    the keys and their order, replaces the references in each value on its
    own, and writes the warnings of the values in order.  The one key it
    loses is [__proto__]: its value is scanned, and warned about, but the
    assignment leaves no field behind. *)
Theorem interpolateEnv_maps_fields (fields : list (string * string)) :
  NoDup (List.map fst fields) ->
  interpolateEnv processEnv (record fields)
  = (Accepted (List.map (interpolatedField processEnv) (kept fields)),
     flat_map (fun kv => snd (replaceVars processEnv Outside (snd kv))) fields).
Proof.
  intros Hnd. unfold interpolateEnv, record. cbn [entriesOf].
  now rewrite interpolateEntries_strings.
Qed.

Lemma interpolateEntries_rejects (entries : list (string * js_value))
  (result : JsMap.t string) (k : string) (v : js_value) :
  In (k, v) entries -> typeof v <> "string" ->
  fst (interpolateEntries processEnv entries result) = Rejected TypeError.
Proof.
  revert result; induction entries as [|[k' v'] rest IH]; intros result Hin Hv;
    [destruct Hin|].
  cbn [interpolateEntries].
  destruct v'; try reflexivity.
  cbn [fst]. destruct Hin as [E|Hin]; [|now apply IH].
  injection E as _ <-. now elim Hv.
Qed.

(** Nothing but a [TypeError] comes out of the loop. *)
Lemma interpolateEntries_rejection (entries : list (string * js_value))
  (result : JsMap.t string) (why : Rejection) :
  fst (interpolateEntries processEnv entries result) = Rejected why ->
  why = TypeError.
Proof.
  revert result; induction entries as [|[k v] rest IH]; intros result;
    [discriminate|].
  cbn [interpolateEntries].
  destruct v; cbn [fst]; try (intros [= <-]; reflexivity).
  apply IH.
Qed.
End Interpolating.

(** Three fields, one of them named [__proto__], under [portEnv]. *)
Lemma interpolateEnv_maps_fields_witness :
  interpolateEnv portEnv
    (record [("PORT_ARG", "${PORT}"); ("__proto__", "${A}"); ("HOME", "${HOME}")])
  = (Accepted [("PORT_ARG", "8080"); ("HOME", EmptyString)],
     [notSet "A"; notSet "HOME"]).
Proof.
  apply (interpolateEnv_maps_fields portEnv
           [("PORT_ARG", "${PORT}"); ("__proto__", "${A}"); ("HOME", "${HOME}")]).
  repeat constructor; simpl; intuition congruence.
Defined.

Section Checking.
Variable URL : string -> option (string * string).
Variable numberToString : Z -> string.

Lemma isString_spec (text : string) (v : js_value) :
  isString text v = true <-> v = JString text.
Proof.
  destruct v; simpl; try (split; [discriminate|congruence]).
  rewrite String.eqb_eq. split; congruence.
Qed.

Lemma validateUrl_accepted (url serverName : js_value) (allowPrivate : bool) :
  validateUrl URL numberToString url serverName allowPrivate = Accepted tt ->
  exists text protocol hostname,
    toString numberToString url = Some text
    /\ URL text = Some (protocol, hostname)
    /\ (protocol = "http:" \/ protocol = "https:")
    /\ (allowPrivate = false -> isPrivateHost hostname = false).
Proof.
  unfold validateUrl.
  destruct (toString numberToString url) as [text|]; [|discriminate].
  destruct (URL text) as [[protocol hostname]|] eqn:Hurl; [|discriminate].
  destruct (negb (existsb (String.eqb protocol) ["http:"; "https:"])) eqn:Hp;
    [discriminate|].
  destruct (negb allowPrivate && isPrivateHost hostname) eqn:Hh; [discriminate|].
  intros _. exists text, protocol, hostname.
  split; [reflexivity|]. split; [exact Hurl|]. split.
  - apply negb_false_iff in Hp. cbn [existsb] in Hp.
    rewrite orb_false_r in Hp. apply orb_prop in Hp.
    rewrite !String.eqb_eq in Hp. destruct Hp as [<-|<-]; tauto.
  - intros ->. exact Hh.
Qed.

Lemma checkServer_accepted (srv : js_value) :
  checkServer URL numberToString srv = Accepted tt ->
  checked URL numberToString srv.
Proof.
  unfold checkServer, checked. cbv zeta.
  destruct srv; try discriminate;
    (destruct (toBoolean (member _ "name")) eqn:Hname; [|discriminate];
     cbn [negb];
     destruct (isString "stdio" _) eqn:Hstdio;
     [ destruct (toBoolean (member _ "command")) eqn:Hcommand; [|discriminate]
     | ];
     cbn [negb andb];
     (destruct (isString "http" _) eqn:Hhttp;
      [ destruct (toBoolean (member _ "url")) eqn:Hurl; [|discriminate]
      | ]);
     cbn [negb andb]; intros H;
     (split; [reflexivity|]); split;
     try (intros E; apply isString_spec in E; congruence);
     try (intros _; reflexivity);
     try (intros _; split; [reflexivity|]; now apply validateUrl_accepted in H)).
Qed.

End Checking.

Section ParsingFacts.
Variable URL : string -> option (string * string).
Variable numberToString : Z -> string.
Variable processEnv : string -> option string.

Lemma parseServer_accepted (srv : js_value) (p : ParsedServer)
  (warnings : list string) :
  parseServer URL numberToString processEnv srv = (Accepted p, warnings) ->
  checkServer URL numberToString srv = Accepted tt
  /\ parsed_name p = member srv "name"
  /\ parsed_transport p = orElse (member srv "transport") (JString "stdio")
  /\ parsed_command p = member srv "command"
  /\ parsed_url p = member srv "url"
  /\ parsed_allowPrivateUrls p = allowsPrivate srv.
Proof.
  unfold parseServer.
  destruct (checkServer URL numberToString srv) as [[]|why]; [|discriminate].
  destruct (interpolated processEnv (member srv "env")) as [[env|why] w1];
    [|discriminate].
  destruct (interpolated processEnv (member srv "headers")) as [[headers|why] w2];
    [|discriminate].
  intros [= <- <-]. now repeat split.
Qed.

(** An accepted list is accepted entry by entry, in order. *)
Lemma parseServers_accepted (entries : list js_value)
  (servers : list ParsedServer) :
  fst (parseServers URL numberToString processEnv entries) = Accepted servers
  <-> Forall2 (fun srv p =>
                 fst (parseServer URL numberToString processEnv srv) = Accepted p)
        entries servers.
Proof.
  revert servers; induction entries as [|srv rest IH]; intros servers.
  - simpl. split.
    + intros [= <-]. constructor.
    + intros H. inversion H. reflexivity.
  - cbn [parseServers].
    destruct (parseServer URL numberToString processEnv srv) as [[p|why] w]
      eqn:Hsrv.
    + destruct (parseServers URL numberToString processEnv rest)
        as [[ps|why] w'] eqn:Hrest; cbn [fst] in *.
      * split.
        -- intros [= <-]. constructor; [now rewrite Hsrv|]. now apply IH.
        -- intros H. inversion H as [|? p' ? ps' Hp Hps]; subst.
           rewrite Hsrv in Hp. injection Hp as <-.
           apply IH in Hps. now injection Hps as <-.
      * split; [discriminate|].
        intros H. inversion H as [|? p' ? ps' Hp Hps]; subst.
        apply IH in Hps. discriminate.
    + cbn [fst]. split; [discriminate|].
      intros H. inversion H as [|? p' ? ps' Hp Hps]; subst.
      rewrite Hsrv in Hp. discriminate.
Qed.

Lemma parseConfig_accepted (raw : js_value) (cfg : ParsedConfig)
  (warnings : list string) :
  parseConfig URL numberToString processEnv raw = (Accepted cfg, warnings) ->
  exists entries,
    iterate (orElse (member (orElse raw (JObject [])) "servers") (JArray []))
    = Accepted entries
    /\ fst (parseServers URL numberToString processEnv entries)
       = Accepted (parsed_servers cfg).
Proof.
  unfold parseConfig. cbv zeta.
  destruct (iterate _) as [entries|why]; [|discriminate].
  destruct (parseServers URL numberToString processEnv entries)
    as [[servers|why] w] eqn:Hs; [|discriminate].
  intros [= <- <-]. exists entries. split; [reflexivity|].
  now rewrite Hs.
Qed.

Lemma accepted_server_checked (raw : js_value) (cfg : ParsedConfig)
  (warnings : list string) (p : ParsedServer) :
  parseConfig URL numberToString processEnv raw = (Accepted cfg, warnings) ->
  In p (parsed_servers cfg) ->
  exists srv w,
    parseServer URL numberToString processEnv srv = (Accepted p, w).
Proof.
  intros Hcfg Hin.
  destruct (parseConfig_accepted _ _ _ Hcfg) as (entries & _ & Hservers).
  apply parseServers_accepted in Hservers.
  clear Hcfg. induction Hservers as [|srv p' entries' servers' Hp _ IH].
  - destruct Hin.
  - destruct Hin as [<-|Hin]; [|now apply IH].
    exists srv, (snd (parseServer URL numberToString processEnv srv)).
    rewrite <- Hp. apply surjective_pairing.
Qed.

(** X19.  What [parseConfig] guarantees about every server of a
    configuration it returns: the name is truthy; a server on the [stdio]
    transport has a truthy command; the address of a server on the [http]
    transport parses, uses HTTP or HTTPS, and names no private host unless
    the entry says [allowPrivateUrls: true]. *)
Theorem parseConfig_accepts_checked_servers (raw : js_value)
  (cfg : ParsedConfig) (warnings : list string) (p : ParsedServer) :
  parseConfig URL numberToString processEnv raw = (Accepted cfg, warnings) ->
  In p (parsed_servers cfg) ->
  toBoolean (parsed_name p) = true
  /\ (parsed_transport p = JString "stdio" ->
      toBoolean (parsed_command p) = true)
  /\ (parsed_transport p = JString "http" ->
      toBoolean (parsed_url p) = true
      /\ exists text protocol hostname,
        toString numberToString (parsed_url p) = Some text
        /\ URL text = Some (protocol, hostname)
        /\ (protocol = "http:" \/ protocol = "https:")
        /\ (parsed_allowPrivateUrls p = false ->
            isPrivateHost hostname = false)).
Proof.
  intros Hcfg Hin.
  destruct (accepted_server_checked _ _ _ _ Hcfg Hin) as (srv & w & Hp).
  apply parseServer_accepted in Hp as (Hcheck & -> & -> & -> & -> & ->).
  exact (checkServer_accepted _ _ _ Hcheck).
Qed.
End ParsingFacts.

(** The first server is remote and leaves its token unset; the second is
    local. *)
Lemma parseConfig_accepts_checked_servers_witness :
  parseConfig parsesAs decimal portEnv exampleConfig
  = (Accepted exampleParsed, [notSet "TOKEN"])
  /\ In remoteServer (parsed_servers exampleParsed)
  /\ toBoolean (parsed_url remoteServer) = true
  /\ exists text protocol hostname,
       toString decimal (parsed_url remoteServer) = Some text
       /\ parsesAs text = Some (protocol, hostname)
       /\ (protocol = "http:" \/ protocol = "https:")
       /\ (parsed_allowPrivateUrls remoteServer = false ->
           isPrivateHost hostname = false).
Proof.
  split; [reflexivity|]. split; [left; reflexivity|].
  destruct (parseConfig_accepts_checked_servers parsesAs decimal portEnv
              exampleConfig exampleParsed [notSet "TOKEN"] remoteServer
              eq_refl (or_introl eq_refl)) as (_ & _ & H).
  exact (H eq_refl).
Defined.

Section Entrywise.
Variable URL : string -> option (string * string).
Variable numberToString : Z -> string.
Variable processEnv : string -> option string.

(** X20.  [parseConfig] judges every entry on its own: it returns a
    configuration exactly when each entry passes by itself, and then the
    servers are those of the entries, as many and in the same order.  No
    entry is compared with another, so that two servers of the same name
    pass. *)
Theorem parseConfig_judges_entries_separately (raw : js_value)
  (entries : list js_value) (servers : list ParsedServer) :
  entriesOfConfig raw = Accepted entries ->
  (exists cfg warnings,
     parseConfig URL numberToString processEnv raw = (Accepted cfg, warnings)
     /\ parsed_servers cfg = servers)
  <-> Forall2 (fun srv p =>
                 fst (parseServer URL numberToString processEnv srv) = Accepted p)
        entries servers.
Proof.
  unfold entriesOfConfig. intros Hentries.
  rewrite <- parseServers_accepted. split.
  - intros (cfg & warnings & Hcfg & <-).
    destruct (parseConfig_accepted _ _ _ _ _ _ Hcfg) as (entries' & He & Hs).
    rewrite Hentries in He. now injection He as <-.
  - intros Hs. unfold parseConfig. cbv zeta. rewrite Hentries.
    destruct (parseServers URL numberToString processEnv entries)
      as [[servers'|why] w]; cbn [fst] in Hs; [|discriminate].
    injection Hs as ->. eexists. eexists. split; reflexivity.
Qed.

(** X21.  The first entry that fails decides what [parseConfig] throws.  The
    entries after it are not looked at; the warnings of the entries before
    it have been written. *)
Theorem parseServers_stops_at_first_rejection (good : list js_value)
  (servers : list ParsedServer) (bad : js_value) (why : Rejection)
  (rest : list js_value) :
  Forall2 (fun srv p =>
             fst (parseServer URL numberToString processEnv srv) = Accepted p)
    good servers ->
  fst (parseServer URL numberToString processEnv bad) = Rejected why ->
  parseServers URL numberToString processEnv (good ++ bad :: rest)
  = (Rejected why,
     (flat_map (fun srv => snd (parseServer URL numberToString processEnv srv))
        good
      ++ snd (parseServer URL numberToString processEnv bad))%list).
Proof.
  intros Hgood Hbad. induction Hgood as [|srv p good' servers' Hp _ IH].
  - cbn [app parseServers flat_map].
    destruct (parseServer URL numberToString processEnv bad) as [[p|why'] w];
      cbn [fst snd] in *; [discriminate|]. now injection Hbad as ->.
  - cbn [app parseServers flat_map]. rewrite IH.
    destruct (parseServer URL numberToString processEnv srv) as [[p'|why'] w];
      cbn [fst snd] in *; [|discriminate].
    now rewrite app_assoc.
Qed.

(** X22.  A server of a returned configuration that fits the declared
    interface can be handed to [createTransport]: its name is not empty; on
    the [stdio] transport the command is there and not empty; on the [http]
    transport the address is there, parses, uses HTTP or HTTPS and, unless
    private addresses are allowed, names no private host.  Neither of the
    two non-null assertions of [createTransport] is ever wrong for it. *)
Theorem accepted_server_has_its_transport (raw : js_value)
  (cfg : ParsedConfig) (warnings : list string) (p : ParsedServer)
  (c : ServerConfig.t) :
  parseConfig URL numberToString processEnv raw = (Accepted cfg, warnings) ->
  In p (parsed_servers cfg) ->
  typed p = Some c ->
  ServerConfig.name c <> EmptyString
  /\ match ServerConfig.transport c with
     | ServerConfig.stdio =>
         exists command,
           ServerConfig.command c = Some command
           /\ command <> EmptyString
           /\ createTransport c
              = Return (StdioClientTransport (Some command)
                          (ServerConfig.args c) (ServerConfig.cwd c)
                          (ServerConfig.env c))
     | ServerConfig.http =>
         exists url protocol hostname,
           ServerConfig.url c = Some url
           /\ URL url = Some (protocol, hostname)
           /\ (protocol = "http:" \/ protocol = "https:")
           /\ (ServerConfig.allowPrivateUrls c = Some false ->
               isPrivateHost hostname = false)
           /\ createTransport c
              = Return (StreamableHTTPClientTransport url
                          (ServerConfig.headers c))
     end.
Proof.
  intros Hcfg Hin Htyped.
  destruct (accepted_server_checked _ _ _ _ _ _ _ Hcfg Hin) as (srv & w & Hp).
  apply parseServer_accepted in Hp as (Hcheck & Hn & Ht & Hc & Hu & Ha).
  apply checkServer_accepted in Hcheck as (Hname & Hstdio & Hhttp).
  rewrite <- Hn in Hname. rewrite <- Ht, <- Hc in Hstdio.
  rewrite <- Ht, <- Hu, <- Ha in Hhttp.
  unfold typed in Htyped.
  destruct (parsed_name p) as [| | | |name| |]; try discriminate.
  destruct (parsed_transport p) as [| | | |kind| |]; try discriminate.
  destruct (optionalString (parsed_command p)) as [command|] eqn:Ecommand;
    [|discriminate].
  destruct (optionalStrings (parsed_args p)) as [args|]; [|discriminate].
  destruct (optionalString (parsed_cwd p)) as [cwd|]; [|discriminate].
  destruct (optionalString (parsed_url p)) as [url|] eqn:Eurl; [|discriminate].
  split.
  { cbn [toBoolean] in Hname. apply negb_true_iff, String.eqb_neq in Hname.
    destruct (String.eqb kind "stdio"); [now injection Htyped as <-|].
    destruct (String.eqb kind "http"); [now injection Htyped as <-|].
    discriminate. }
  destruct (String.eqb_spec kind "stdio") as [->|_].
  - injection Htyped as <-. cbn.
    specialize (Hstdio eq_refl).
    destruct (parsed_command p) as [| | | |text| |]; try discriminate.
    injection Ecommand as <-. exists text. split; [reflexivity|].
    split; [|reflexivity].
    cbn [toBoolean] in Hstdio. now apply negb_true_iff, String.eqb_neq in Hstdio.
  - destruct (String.eqb_spec kind "http") as [->|_]; [|discriminate].
    injection Htyped as <-. cbn.
    destruct (Hhttp eq_refl) as (Htruthy & text & protocol & hostname & Htext
                                 & Hparse & Hprotocol & Hprivate).
    destruct (parsed_url p) as [| | | |address| |]; try discriminate.
    injection Eurl as <-. cbn in Htext. injection Htext as <-.
    exists address, protocol, hostname.
    split; [reflexivity|]. split; [exact Hparse|]. split; [exact Hprotocol|].
    split; [|reflexivity].
    intros [= E]. now apply Hprivate.
Qed.

(** X23.  The transport is checked against two names only.  An entry with
    a name and with any other string for its transport passes without a
    command and without an address, and the server pushed does not fit the
    declared interface. *)
Theorem unknown_transport_is_not_checked (srv : js_value) (kind : string) :
  member srv "transport" = JString kind ->
  kind <> "stdio" -> kind <> "http" ->
  toBoolean (member srv "name") = true ->
  checkServer URL numberToString srv = Accepted tt
  /\ forall p warnings,
       parseServer URL numberToString processEnv srv = (Accepted p, warnings) ->
       parsed_transport p = JString kind /\ typed p = None.
Proof.
  intros Hkind Hstdio Hhttp Hname.
  assert (Hcheck : checkServer URL numberToString srv = Accepted tt).
  { unfold checkServer. cbv zeta. rewrite Hkind, Hname. cbn [orElse isString negb].
    apply String.eqb_neq in Hstdio, Hhttp. rewrite Hstdio, Hhttp. cbn [andb].
    destruct srv; try reflexivity; discriminate Hkind. }
  split; [exact Hcheck|].
  intros p warnings Hp.
  apply parseServer_accepted in Hp as (_ & Hn & Ht & _).
  rewrite Hkind in Ht. cbn [orElse] in Ht. split; [exact Ht|].
  unfold typed. rewrite Ht.
  apply String.eqb_neq in Hstdio, Hhttp. rewrite Hstdio, Hhttp.
  destruct (parsed_name p); try reflexivity.
  destruct (optionalString (parsed_command p)); try reflexivity.
  destruct (optionalStrings (parsed_args p)); try reflexivity.
  destruct (optionalString (parsed_cwd p)); try reflexivity.
  destruct (optionalString (parsed_url p)); reflexivity.
Qed.
End Entrywise.

(** The same local server twice: both entries pass. *)
Lemma parseConfig_judges_entries_separately_witness :
  entriesOfConfig twiceConfig = Accepted [localEntry; localEntry]
  /\ exists cfg warnings,
       parseConfig parsesAs decimal portEnv twiceConfig = (Accepted cfg, warnings)
       /\ parsed_servers cfg = [localServer; localServer].
Proof.
  split; [reflexivity|].
  apply (parseConfig_judges_entries_separately parsesAs decimal portEnv
           twiceConfig [localEntry; localEntry] [localServer; localServer]
           eq_refl).
  constructor; [reflexivity|]. constructor; [reflexivity|]. constructor.
Defined.

(** A remote server whose token is unset, an entry without a name, a local
    server: the warning about the token is written, the missing name is
    thrown, the local server is not reached. *)
Lemma parseServers_stops_at_first_rejection_witness :
  Forall2 (fun srv p =>
             fst (parseServer parsesAs decimal portEnv srv) = Accepted p)
    [remoteEntry] [remoteServer]
  /\ fst (parseServer parsesAs decimal portEnv namelessEntry)
     = Rejected (Invalid "Server missing 'name'")
  /\ parseServers parsesAs decimal portEnv
       [remoteEntry; namelessEntry; localEntry]
     = (Rejected (Invalid "Server missing 'name'"), [notSet "TOKEN"]).
Proof.
  assert (Hgood : Forall2 (fun srv p =>
                             fst (parseServer parsesAs decimal portEnv srv)
                             = Accepted p) [remoteEntry] [remoteServer])
    by (constructor; [reflexivity|constructor]).
  split; [exact Hgood|]. split; [reflexivity|].
  exact (parseServers_stops_at_first_rejection parsesAs decimal portEnv
           [remoteEntry] [remoteServer] namelessEntry
           (Invalid "Server missing 'name'") [localEntry] Hgood eq_refl).
Defined.

(** The remote server of the example, at the declared type, gets its HTTP
    transport. *)
Lemma accepted_server_has_its_transport_witness :
  parseConfig parsesAs decimal portEnv exampleConfig
  = (Accepted exampleParsed, [notSet "TOKEN"])
  /\ In remoteServer (parsed_servers exampleParsed)
  /\ typed remoteServer = Some remoteTyped
  /\ createTransport remoteTyped
     = Return (StreamableHTTPClientTransport "https://mcp.example.com/v1"
                 (Some [("Authorization", "Bearer ")])).
Proof.
  split; [reflexivity|]. split; [left; reflexivity|]. split; [reflexivity|].
  destruct (accepted_server_has_its_transport parsesAs decimal portEnv
              exampleConfig exampleParsed [notSet "TOKEN"] remoteServer
              remoteTyped eq_refl (or_introl eq_refl) eq_refl) as (_ & H).
  cbn [ServerConfig.transport remoteTyped] in H.
  destruct H as (url & protocol & hostname & Hurl & _ & _ & _ & Hcreate).
  injection Hurl as <-. exact Hcreate.
Defined.

(** A transport that is neither of the two: the entry passes with nothing
    to run and nothing to reach. *)
Lemma unknown_transport_is_not_checked_witness :
  checkServer parsesAs decimal socketEntry = Accepted tt
  /\ exists p,
       parseServer parsesAs decimal portEnv socketEntry = (Accepted p, [])
       /\ parsed_command p = JUndefined
       /\ parsed_url p = JUndefined
       /\ typed p = None.
Proof.
  assert (Hstdio : "websocket" <> "stdio") by discriminate.
  assert (Hhttp : "websocket" <> "http") by discriminate.
  destruct (unknown_transport_is_not_checked parsesAs decimal portEnv
              socketEntry "websocket" eq_refl Hstdio Hhttp eq_refl)
    as [Hcheck Hparsed].
  split; [exact Hcheck|].
  eexists. split; [reflexivity|]. split; [reflexivity|]. split; [reflexivity|].
  exact (proj2 (Hparsed _ _ eq_refl)).
Defined.

Section OtherValues.
Variable URL : string -> option (string * string).
Variable numberToString : Z -> string.
Variable processEnv : string -> option string.

Lemma interpolated_rejects (field : js_value) (k : string) (v : js_value) :
  In (k, v) (entriesOf field) -> typeof v <> "string" ->
  fst (interpolated processEnv field) = Rejected TypeError.
Proof.
  intros Hin Hv. unfold interpolated.
  assert (Htruthy : toBoolean field = true).
  { destruct field as [| |b|n|text|items|fields]; cbn [entriesOf] in Hin;
      try (now destruct Hin); try reflexivity.
    destruct text; [destruct Hin|reflexivity]. }
  rewrite Htruthy.
  pose proof (interpolateEntries_rejects processEnv (entriesOf field)
                JsMap.empty k v Hin Hv) as Hrejected.
  unfold interpolateEnv.
  destruct (interpolateEntries processEnv (entriesOf field) JsMap.empty)
    as [[result|why] warnings]; cbn [fst] in *; congruence.
Qed.

Lemma interpolated_rejection (field : js_value) (why : Rejection) :
  fst (interpolated processEnv field) = Rejected why -> why = TypeError.
Proof.
  unfold interpolated, interpolateEnv.
  destruct (toBoolean field); [|discriminate].
  pose proof (interpolateEntries_rejection processEnv (entriesOf field)
                JsMap.empty) as Honly.
  destruct (interpolateEntries processEnv (entriesOf field) JsMap.empty)
    as [[result|why'] warnings]; cbn [fst] in *; [discriminate|].
  intros [= <-]. now apply Honly.
Qed.

(** X18.  [interpolateEnv] has no use for a value that is not a string.  An
    entry that passes every check of [parseConfig] and whose [env] or
    [headers] holds one such value, a number or a nested object, makes
    [parseConfig] throw a [TypeError] where a server was to be pushed. *)
Theorem interpolateEnv_rejects_other_values (srv : js_value) (k : string)
  (v : js_value) :
  checkServer URL numberToString srv = Accepted tt ->
  In (k, v) (entriesOf (member srv "env"))
  \/ In (k, v) (entriesOf (member srv "headers")) ->
  typeof v <> "string" ->
  fst (parseServer URL numberToString processEnv srv) = Rejected TypeError.
Proof.
  intros Hcheck Hin Hv. unfold parseServer. rewrite Hcheck.
  destruct Hin as [Hin|Hin].
  - pose proof (interpolated_rejects _ _ _ Hin Hv) as Henv.
    destruct (interpolated processEnv (member srv "env")) as [[env|why] w];
      cbn [fst] in *; [discriminate|]. now injection Henv as ->.
  - pose proof (interpolated_rejection (member srv "env")) as Henv.
    destruct (interpolated processEnv (member srv "env")) as [[env|why] w];
      cbn [fst] in *.
    + pose proof (interpolated_rejects _ _ _ Hin Hv) as Hheaders.
      destruct (interpolated processEnv (member srv "headers"))
        as [[headers|why] w']; cbn [fst] in *; [discriminate|].
      now injection Hheaders as ->.
    + now rewrite (Henv why eq_refl).
Qed.
End OtherValues.

(** A port given as a number. *)
Lemma interpolateEnv_rejects_other_values_witness :
  checkServer parsesAs decimal numericEnvEntry = Accepted tt
  /\ fst (parseServer parsesAs decimal portEnv numericEnvEntry)
     = Rejected TypeError.
Proof.
  split; [reflexivity|].
  apply (interpolateEnv_rejects_other_values parsesAs decimal portEnv
           numericEnvEntry "PORT" (JNumber 8080) eq_refl).
  - left. left. reflexivity.
  - discriminate.
Defined.

(* ===================================================================== *)
(** * Stopping the service *)

Section Stopping.
Variable env : nat -> Response.



End Stopping.


(** The transport of the files server reports its own closing: the line of
    the handler stands between the two lines of [stop]. *)
Example stop_hears_the_handlers :
  console (snd (stop closeNotified twoServers))
  = [(Log, "[mcp-adapter] Shutting down...");
     (Log, "[mcp-adapter] files disconnected");
     (Log, "[mcp-adapter] All connections closed")]
  /\ history (snd (stop closeNotified twoServers))
     = (history twoServers ++ [Close 0; Close 1])%list.
Proof. split; reflexivity. Qed.
